(** * Memory-driven invoice intelligence: the memory store, the memory
    manager and the invoice processor, embedded from the TypeScript sources
    ([memory/database], [memory/manager], [intelligence/processor]).

    Modelling conventions.
    - JavaScript numbers that carry a confidence are exact rationals ([Q]);
      counters are integers ([Z]); ISO timestamps are milliseconds since the
      epoch ([Z]), the empty string of [lastUsedAt] being [None].  The test
      of [weakenMemory] that compares the difference it has just computed
      with the floor is evaluated on the IEEE 754 binary64 numbers the code
      computes, since rounding decides it.
    - Invoice data is JSON ([Json]); a property that is absent reads as
      [None], JavaScript's [undefined].  The stages that only read the
      invoice are functions of that value.  Where identity matters, in
      [applyCorrections], the invoice and the arrays and objects inside it
      are objects of a heap ([Heap]): an assignment changes an object in
      place, and a value can be held by two objects at once.
    - The SQLite table of memories is the list of its rows in insertion
      order.  Every database call is a function from store to store; the
      clock value read by [new Date()] and the identifier drawn by [uuidv4()]
      are explicit arguments.
    - The JavaScript regular-expression engine, [String(v)],
      [JSON.stringify] and SQLite's [LIKE] are not code of this repository;
      they are variables of the sections that use them. *)

From Stdlib Require Import QArith Qminmax Qround Qpower Qabs Lqa Sorted Permutation SpecFloat.
From stdpp Require Import gmap strings list pretty.

Local Open Scope Z_scope.
Local Set Warnings "-register-all".

(** ** JSON values and the JavaScript operations used on them *)

Inductive Json : Type :=
| JNull
| JBool (b : bool)
| JNum (q : Q)
| JStr (s : string)
| JArr (items : list Json)
| JObj (props : list (string * Json)).

(** A value read from an object: [None] is [undefined]. *)
Abbreviation Value := (option Json).

(** JavaScript truthiness. *)
Definition truthy (v : Value) : bool :=
  match v with
  | None => false
  | Some JNull => false
  | Some (JBool b) => b
  | Some (JNum q) => negb (Qeq_bool q 0)
  | Some (JStr s) => negb (String.eqb s "")
  | Some (JArr _) | Some (JObj _) => true
  end.

(** [a === b].  Arrays and objects are compared by reference; two values
    obtained from different places are different references. *)
Definition strictEq (a b : Value) : bool :=
  match a, b with
  | None, None => true
  | Some JNull, Some JNull => true
  | Some (JBool x), Some (JBool y) => Bool.eqb x y
  | Some (JNum x), Some (JNum y) => Qeq_bool x y
  | Some (JStr x), Some (JStr y) => String.eqb x y
  | _, _ => false
  end.

(** [o[k]] on a JSON object. *)
Fixpoint assoc (k : string) (ps : list (string * Json)) : Value :=
  match ps with
  | [] => None
  | (k', v) :: ps' => if String.eqb k k' then Some v else assoc k ps'
  end.

Definition getProp (j : Json) (k : string) : Value :=
  match j with
  | JObj ps => assoc k ps
  | _ => None
  end.

(** [s.includes(t)]. *)
Fixpoint includes (s t : string) : bool :=
  String.prefix t s ||
  match s with
  | EmptyString => false
  | String _ s' => includes s' t
  end.

(** ** Types of [src/types] *)

Record Metadata : Type := mkMetadata {
  source : string;
  extractedAt : string;
  processingId : string
}.

Record Invoice : Type := mkInvoice {
  inv_id : string;
  inv_vendor : string;
  rawText : string;
  extractedData : gmap string Json;
  metadata : Metadata
}.

(** [invoice.extractedData[f]]. *)
Definition field_of (inv : Invoice) (f : string) : Value := extractedData inv !! f.

Inductive ActionType : Type := field_mapping | computation | inference.

Record Action : Type := mkAction {
  act_type : ActionType;
  sourceField : option string;
  targetField : string;
  act_value : Value;
  strategy : option string
}.

Inductive Outcome : Type := approved | rejected | escalated.

Inductive MemoryType : Type := vendor | correction | resolution.

(** The attributes each variant adds to [BaseMemory]. *)
Inductive MemoryData : Type :=
| VendorData (triggerSignal : string) (action : Action) (pattern : string)
| CorrectionData (fieldName originalPattern : string) (correctedValue : Json)
    (correctionReason : string) (approvalCount rejectionCount : Z)
| ResolutionData (scenario : string) (outcome : Outcome)
    (humanFeedback : option string) (systemAction : string).

Record Memory : Type := mkMemory {
  mem_id : string;
  mem_vendor : string;
  confidence : Q;
  usageCount : Z;
  createdAt : Z;
  lastUsedAt : option Z;
  lastUpdatedAt : Z;
  isActive : bool;
  data : MemoryData
}.

Definition mem_type (m : Memory) : MemoryType :=
  match data m with
  | VendorData _ _ _ => vendor
  | CorrectionData _ _ _ _ _ _ => correction
  | ResolutionData _ _ _ _ => resolution
  end.

Definition MemoryType_eqb (a b : MemoryType) : bool :=
  match a, b with
  | vendor, vendor | correction, correction | resolution, resolution => true
  | _, _ => false
  end.

Record MemoryQuery : Type := mkQuery {
  q_vendor : option string;
  q_fieldName : option string;
  q_pattern : option string;
  q_type : option MemoryType;
  q_minConfidence : option Q;
  q_limit : option Z
}.

(** [Partial<MemoryQuery>]: a key is absent ([None]) or present with a value
    that may itself be [undefined] ([Some None]). *)
Record PartialQuery : Type := mkPartial {
  p_vendor : option (option string);
  p_fieldName : option (option string);
  p_pattern : option (option string);
  p_type : option (option MemoryType);
  p_minConfidence : option (option Q);
  p_limit : option (option Z)
}.

Definition emptyQuery : MemoryQuery := mkQuery None None None None None None.
Definition emptyPartial : PartialQuery := mkPartial None None None None None None.

Record Correction : Type := mkCorrection {
  c_field : string;
  originalValue : Value;
  proposedValue : Json;
  c_confidence : Q;
  memorySource : string;
  c_reasoning : string
}.

Inductive UpdateType : Type := u_create | u_reinforce | u_weaken | u_decay.

Record MemoryUpdate : Type := mkUpdate {
  u_type : UpdateType;
  u_memoryId : option string;
  u_details : string
}.

(** The audit step names [recall], [apply], [decide], [learn]. *)
Inductive Step : Type := step_recall | step_apply | step_decide | step_learn.

(** An audit entry without its [details] text, which only formats the
    other values. *)
Record AuditEntry : Type := mkAudit {
  step : Step;
  timestamp : Z;
  a_confidence : option Q;
  memoryReferences : option (list string)
}.

(** The rule of [makeDecision] that fired; [decisionReasoning] is its text. *)
Inductive DecisionRule : Type :=
| AUTO_ACCEPT
| AUTO_CORRECT
| LOW_CONFIDENCE
| RISK_FACTORS (riskFactors : list string)
| MEDIUM_CONFIDENCE.

Record ProcessingResult : Type := mkResult {
  normalizedInvoice : Invoice;
  proposedCorrections : list Correction;
  requiresHumanReview : bool;
  reasoning : DecisionRule;
  confidenceScore : Q;
  memoryUpdates : list MemoryUpdate;
  auditTrail : list AuditEntry
}.

(** ** The memory store ([MemoryDatabase]) *)

(** The rows of table [memories] joined with the row of the variant's own
    table, in insertion order. *)
Abbreviation Store := (list Memory).

Definition has_id (id : string) (m : Memory) : bool := String.eqb (mem_id m) id.

(** [memories.find(m => m.id === memoryId)]. *)
Definition find_by_id (id : string) (ms : list Memory) : option Memory :=
  List.find (has_id id) ms.

(** [saveMemory]: [INSERT OR REPLACE] deletes the row that has the key and
    inserts the new one. *)
Definition saveMemory (m : Memory) (s : Store) : Store :=
  List.filter (fun r => negb (has_id (mem_id m) r)) s ++ [m].

Definition set_confidence (c : Q) (now : Z) (m : Memory) : Memory :=
  mkMemory (mem_id m) (mem_vendor m) c (usageCount m) (createdAt m)
           (lastUsedAt m) now (isActive m) (data m).

Definition touch (now : Z) (m : Memory) : Memory :=
  mkMemory (mem_id m) (mem_vendor m) (confidence m) (usageCount m + 1) (createdAt m)
           (Some now) now (isActive m) (data m).

(** [UPDATE memories SET ... WHERE id = ?]. *)
Definition update_where (id : string) (f : Memory -> Memory) (s : Store) : Store :=
  List.map (fun r => if has_id id r then f r else r) s.

Definition updateMemoryConfidence (id : string) (newConfidence : Q) (now : Z) (s : Store) : Store :=
  update_where id (set_confidence newConfidence now) s.

Definition updateMemoryUsage (id : string) (now : Z) (s : Store) : Store :=
  update_where id (touch now) s.

(** [ORDER BY m.confidence DESC, m.usage_count DESC]: [before a b] when row
    [a] may stay in front of row [b]. *)
Definition before (a b : Memory) : bool :=
  match confidence a ?= confidence b with
  | Gt => true
  | Lt => false
  | Eq => usageCount b <=? usageCount a
  end%Q.

Fixpoint insert_sorted (a : Memory) (l : list Memory) : list Memory :=
  match l with
  | [] => [a]
  | b :: l' => if before a b then a :: l else b :: insert_sorted a l'
  end.

Definition order_by (l : list Memory) : list Memory :=
  List.fold_right insert_sorted [] l.

(** [LIMIT n]; a negative [n] is no limit in SQLite. *)
Definition sql_limit (n : Z) (l : list Memory) : list Memory :=
  if n <? 0 then l else firstn (Z.to_nat n) l.

Definition str_truthy (o : option string) : option string :=
  match o with
  | Some s => if String.eqb s "" then None else Some s
  | None => None
  end.

Definition num_truthy (o : option Q) : option Q :=
  match o with
  | Some q => if Qeq_bool q 0 then None else Some q
  | None => None
  end.

Definition int_truthy (o : option Z) : option Z :=
  match o with
  | Some n => if n =? 0 then None else Some n
  | None => None
  end.

Section Database.

(** SQLite's [text LIKE pat]. *)
Variable sql_like : string -> string -> bool.

Definition field_name_is (f : string) (m : Memory) : bool :=
  match data m with
  | CorrectionData fieldName _ _ _ _ _ => String.eqb fieldName f
  | _ => false
  end.

(** [vm.pattern LIKE ? OR cm.original_pattern LIKE ?] with the parameter
    [%p%]; the column of a table the row has no part in is NULL. *)
Definition pattern_like (p : string) (m : Memory) : bool :=
  match data m with
  | VendorData _ _ label => sql_like label ("%" ++ p ++ "%")
  | CorrectionData _ originalPattern _ _ _ _ => sql_like originalPattern ("%" ++ p ++ "%")
  | ResolutionData _ _ _ _ => false
  end.

(** The [WHERE] clause built by [queryMemories]. *)
Definition where_clause (q : MemoryQuery) (m : Memory) : bool :=
  isActive m
  && match str_truthy (q_vendor q) with
     | Some v => String.eqb (mem_vendor m) v | None => true end
  && match q_type q with
     | Some t => MemoryType_eqb (mem_type m) t | None => true end
  && match str_truthy (q_fieldName q) with
     | Some f => field_name_is f m | None => true end
  && match str_truthy (q_pattern q) with
     | Some p => pattern_like p m | None => true end
  && match num_truthy (q_minConfidence q) with
     | Some c => Qle_bool c (confidence m) | None => true end.

Definition queryMemories (q : MemoryQuery) (s : Store) : list Memory :=
  let rows := order_by (List.filter (where_clause q) s) in
  match int_truthy (q_limit q) with
  | Some n => sql_limit n rows
  | None => rows
  end.

End Database.

(** ** The memory manager ([MemoryManager]) *)

Definition CONFIDENCE_DECAY_RATE : Q := 0.95.
Definition MAX_CONFIDENCE_INCREASE : Q := 0.1.
Definition MIN_CONFIDENCE : Q := 0.1.
Definition MAX_CONFIDENCE : Q := 0.95.

(** *** Binary64 numbers

    JavaScript numbers are IEEE 754 binary64 values; the operations are
    those of the Standard Library's specification of floating-point
    arithmetic ([SpecFloat]) at precision 53 and largest exponent 1024. *)

(** The binary64 number nearest to a rational, ties to even: the number a
    decimal literal of the source denotes. *)
Definition f64_of_Q (q : Q) : spec_float :=
  match Qnum q with
  | Z0 => S754_zero false
  | Zpos n => SFdiv 53 1024 (S754_finite false n 0) (S754_finite false (Qden q) 0)
  | Zneg n => SFdiv 53 1024 (S754_finite true n 0) (S754_finite false (Qden q) 0)
  end.

(** [x - y]. *)
Definition f64_sub (x y : spec_float) : spec_float := SFsub 53 1024 x y.

(** [Math.min(x, y)]. *)
Definition f64_min (x y : spec_float) : spec_float :=
  match SFcompare x y with
  | Some Lt => x
  | Some Gt => y
  | Some Eq => match x with S754_zero true => x | _ => y end
  | None => S754_nan
  end.

(** [Math.max(x, y)]. *)
Definition f64_max (x y : spec_float) : spec_float :=
  match SFcompare x y with
  | Some Lt => y
  | Some Gt => x
  | Some Eq => match x with S754_zero false => x | _ => y end
  | None => S754_nan
  end.

(** [newConfidence] of [weakenMemory] as the code computes it,
    [Math.max(memory.confidence - Math.min(strength, 0.3), this.MIN_CONFIDENCE)]
    on binary64 numbers. *)
Definition newConfidence64 (c : Q) (strength : option Q) : spec_float :=
  let decrease := f64_min (f64_of_Q (default 0.2%Q strength)) (f64_of_Q 0.3%Q) in
  f64_max (f64_sub (f64_of_Q c) decrease) (f64_of_Q MIN_CONFIDENCE).

(** [newConfidence <= this.MIN_CONFIDENCE], the test of [weakenMemory] that
    deactivates the memory. *)
Definition reaches_floor (c : Q) (strength : option Q) : bool :=
  SFleb (newConfidence64 c strength) (f64_of_Q MIN_CONFIDENCE).

(** Milliseconds in a day, [1000 * 60 * 60 * 24]. *)
Definition MS_PER_DAY : Z := 1000 * 60 * 60 * 24.

(** [Math.floor(t.getTime() / (1000 * 60 * 60 * 24))]. *)
Definition day_of (t : Z) : Z := t / MS_PER_DAY.

(** [memory.lastUsedAt ? new Date(memory.lastUsedAt) : new Date(memory.createdAt)]. *)
Definition lastUsed (m : Memory) : Z :=
  match lastUsedAt m with
  | Some t => t
  | None => createdAt m
  end.

Definition daysSinceLastUse (now : Z) (m : Memory) : Z :=
  day_of now - day_of (lastUsed m).

(** The confidence [applyDecayToUnusedMemories] computes for a memory that
    was last used more than seven days ago. *)
Definition decayedConfidence (now : Z) (m : Memory) : Q :=
  let decayFactor := Qpower CONFIDENCE_DECAY_RATE (daysSinceLastUse now m - 7) in
  Qmax (confidence m * decayFactor) MIN_CONFIDENCE.

(** One turn of the loop of [applyDecayToUnusedMemories]. *)
Definition decay_one (now : Z) (s : Store) (m : Memory) : Store :=
  if 7 <? daysSinceLastUse now m then
    let newConfidence := decayedConfidence now m in
    if negb (Qeq_bool newConfidence (confidence m))
    then updateMemoryConfidence (mem_id m) newConfidence now s
    else s
  else s.

Definition applyDecayToUnusedMemories (memories : list Memory) (now : Z) (s : Store) : Store :=
  List.fold_left (decay_one now) memories s.

(** [{ vendor: invoice.vendor, minConfidence: 0.3, limit: 50, ...query }]. *)
Definition fullQuery (inv : Invoice) (query : PartialQuery) : MemoryQuery :=
  mkQuery
    (match p_vendor query with Some v => v | None => Some (inv_vendor inv) end)
    (match p_fieldName query with Some v => v | None => None end)
    (match p_pattern query with Some v => v | None => None end)
    (match p_type query with Some v => v | None => None end)
    (match p_minConfidence query with Some v => v | None => Some 0.3%Q end)
    (match p_limit query with Some v => v | None => Some 50 end).

(** [fullQuery.minConfidence || 0.3]. *)
Definition minConfidence_or_default (q : MemoryQuery) : Q :=
  match num_truthy (q_minConfidence q) with
  | Some c => c
  | None => 0.3%Q
  end.

(** The memory a [create...Memory] call builds. *)
Definition new_memory (id vendor_name : string) (initialConfidence : Q) (now : Z)
    (d : MemoryData) : Memory :=
  mkMemory id vendor_name (Qmin initialConfidence MAX_CONFIDENCE) 0 now None now true d.

Definition createVendorMemory (vendor_name triggerSignal : string) (action : Action)
    (pattern : string) (initialConfidence : option Q)
    (id : string) (now : Z) (s : Store) : Memory * Store :=
  let memory := new_memory id vendor_name (default 0.5%Q initialConfidence) now
                  (VendorData triggerSignal action pattern) in
  (memory, saveMemory memory s).

Definition createCorrectionMemory (vendor_name fieldName originalPattern : string)
    (correctedValue : Json) (correctionReason : string) (initialConfidence : option Q)
    (id : string) (now : Z) (s : Store) : Memory * Store :=
  let memory := new_memory id vendor_name (default 0.4%Q initialConfidence) now
                  (CorrectionData fieldName originalPattern correctedValue correctionReason 0 0) in
  (memory, saveMemory memory s).

Definition createResolutionMemory (vendor_name scenario : string) (outcome : Outcome)
    (systemAction : string) (humanFeedback : option string) (initialConfidence : option Q)
    (id : string) (now : Z) (s : Store) : Memory * Store :=
  let memory := new_memory id vendor_name (default 0.6%Q initialConfidence) now
                  (ResolutionData scenario outcome humanFeedback systemAction) in
  (memory, saveMemory memory s).

(** [corrMem.approvalCount += 1] and [corrMem.rejectionCount += 1] on the
    object the query returned. *)
Definition bump_approval (m : Memory) : Memory :=
  match data m with
  | CorrectionData f p v r a j =>
      mkMemory (mem_id m) (mem_vendor m) (confidence m) (usageCount m) (createdAt m)
               (lastUsedAt m) (lastUpdatedAt m) (isActive m) (CorrectionData f p v r (a + 1) j)
  | _ => m
  end.

Definition bump_rejection (m : Memory) : Memory :=
  match data m with
  | CorrectionData f p v r a j =>
      mkMemory (mem_id m) (mem_vendor m) (confidence m) (usageCount m) (createdAt m)
               (lastUsedAt m) (lastUpdatedAt m) (isActive m) (CorrectionData f p v r a (j + 1))
  | _ => m
  end.

(** [memory.isActive = false] on the object the query returned. *)
Definition deactivate (m : Memory) : Memory :=
  mkMemory (mem_id m) (mem_vendor m) (confidence m) (usageCount m) (createdAt m)
           (lastUsedAt m) (lastUpdatedAt m) false (data m).

Definition is_correction (m : Memory) : bool := MemoryType_eqb (mem_type m) correction.

Section Manager.

Variable sql_like : string -> string -> bool.

Definition recallMemories (inv : Invoice) (query : PartialQuery) (now : Z) (s : Store)
  : list Memory * Store :=
  let fq := fullQuery inv query in
  let memories := queryMemories sql_like fq s in
  let s' := applyDecayToUnusedMemories memories now s in
  (List.filter (fun m => Qle_bool (minConfidence_or_default fq) (confidence m)) memories, s').

Definition reinforceMemory (memoryId : string) (strength : option Q) (now : Z) (s : Store)
  : Store :=
  let memories := queryMemories sql_like emptyQuery s in
  match find_by_id memoryId memories with
  | None => s
  | Some memory =>
      let increase := Qmin (default 0.1%Q strength) MAX_CONFIDENCE_INCREASE in
      let newConfidence := Qmin (confidence memory + increase) MAX_CONFIDENCE in
      let s1 := updateMemoryConfidence memoryId newConfidence now s in
      let s2 := updateMemoryUsage memoryId now s1 in
      if is_correction memory then saveMemory (bump_approval memory) s2 else s2
  end.

Definition weakenMemory (memoryId : string) (strength : option Q) (now : Z) (s : Store)
  : Store :=
  let memories := queryMemories sql_like emptyQuery s in
  match find_by_id memoryId memories with
  | None => s
  | Some memory =>
      let decrease := Qmin (default 0.2%Q strength) 0.3%Q in
      let newConfidence := Qmax (confidence memory - decrease) MIN_CONFIDENCE in
      let s1 := updateMemoryConfidence memoryId newConfidence now s in
      let memory' := if is_correction memory then bump_rejection memory else memory in
      let s2 := if is_correction memory then saveMemory memory' s1 else s1 in
      if reaches_floor (confidence memory) strength
      then saveMemory (deactivate memory') s2
      else s2
  end.

End Manager.

(** ** The invoice processor ([InvoiceProcessor]) *)

Record DecisionThresholds : Type := mkThresholds {
  autoAccept : Q;
  autoCorrect : Q;
  escalate : Q;
  memoryApplication : Q
}.

Definition thresholds : DecisionThresholds := mkThresholds 0.85 0.65 0.4 0.5.

Definition ActionType_name (t : ActionType) : string :=
  match t with
  | field_mapping => "field_mapping"
  | computation => "computation"
  | inference => "inference"
  end.

Definition str_is (o : option string) (s : string) : bool :=
  match o with
  | Some x => String.eqb x s
  | None => false
  end.

(** [corrections.every(c => c.confidence >= 0.7)]. *)
Definition all_reliable (corrections : list Correction) : bool :=
  forallb (fun c => Qle_bool 0.7 (c_confidence c)) corrections.

Definition is_financial (f : string) : bool :=
  existsb (String.eqb f) ["amount"; "vatAmount"; "totalPrice"]%string.

Definition assessRiskFactors (corrections : list Correction) : list string :=
  let amountCorrections := List.filter (fun c => is_financial (c_field c)) corrections in
  let lowConfidenceCorrections :=
    List.filter (fun c => negb (Qle_bool 0.6 (c_confidence c))) corrections in
  (if (0 <? length amountCorrections)%nat then ["financial_impact"%string] else [])
  ++ (if (0 <? length lowConfidenceCorrections)%nat then ["low_confidence_corrections"%string] else [])
  ++ (if (3 <? length corrections)%nat then ["multiple_corrections"%string] else []).

Definition makeDecision (conf : Q) (corrections : list Correction) : bool * DecisionRule :=
  if Qle_bool (autoAccept thresholds) conf && (length corrections =? 0)%nat then
    (false, AUTO_ACCEPT)
  else if Qle_bool (autoCorrect thresholds) conf && all_reliable corrections then
    (false, AUTO_CORRECT)
  else if negb (Qle_bool (escalate thresholds) conf) then
    (true, LOW_CONFIDENCE)
  else
    let riskFactors := assessRiskFactors corrections in
    if (0 <? length riskFactors)%nat then (true, RISK_FACTORS riskFactors)
    else (true, MEDIUM_CONFIDENCE).

(** [lineItems] when it is an array. *)
Definition lineItems_of (inv : Invoice) : option (list Json) :=
  match field_of inv "lineItems" with
  | Some (JArr items) => Some items
  | _ => None
  end.

Definition detectFieldIssues (inv : Invoice) : list string :=
  (if negb (truthy (field_of inv "serviceDate")) && truthy (field_of inv "date")
   then ["serviceDate"%string] else [])
  ++ (if negb (truthy (field_of inv "currency")) then ["currency"%string] else [])
  ++ (if negb (truthy (field_of inv "poNumber")) then ["poNumber"%string] else [])
  ++ (match field_of inv "vatIncluded" with None => ["vatIncluded"%string] | Some _ => [] end)
  ++ (if negb (truthy (field_of inv "vatAmount")) && truthy (field_of inv "amount")
      then ["vatAmount"%string] else [])
  ++ (match lineItems_of inv with
      | Some items =>
          if existsb (fun item => negb (truthy (getProp item "sku"))) items
          then ["lineItems"%string] else []
      | None => []
      end).

(** [scenarios.join('_')]. *)
Fixpoint join_underscore (l : list string) : string :=
  match l with
  | [] => ""
  | [x] => x
  | x :: l' => x ++ "_" ++ join_underscore l'
  end.

Definition categorizeInvoiceScenario (inv : Invoice) : string :=
  let scenarios :=
    (if negb (truthy (field_of inv "poNumber")) then ["missing_po"%string] else [])
    ++ (if negb (truthy (field_of inv "serviceDate")) then ["missing_service_date"%string] else [])
    ++ (if truthy (field_of inv "vatIncluded") then ["vat_included"%string] else [])
    ++ (if negb (truthy (field_of inv "currency")) then ["missing_currency"%string] else []) in
  let joined := join_underscore scenarios in
  if String.eqb joined "" then "standard"%string else joined.

Definition identifyLearningOpportunities (corrections : list Correction) : list string :=
  (if (length corrections =? 0)%nat then ["successful_processing"%string] else [])
  ++ List.map (fun c => ("correction_" ++ c_field c)%string) corrections.

(** [applyCorrections]: the clone of a JSON document is the document; each
    correction in turn overwrites its field. *)
Definition applyCorrections (inv : Invoice) (corrections : list Correction) : Invoice :=
  mkInvoice (inv_id inv) (inv_vendor inv) (rawText inv)
    (List.fold_left (fun d c => <[c_field c := proposedValue c]> d) corrections (extractedData inv))
    (metadata inv).

Section Processor.

Variable sql_like : string -> string -> bool.

(** [regex_exec source flags input] is the result of
    [/source/flags.exec(input)]: [None] when there is no match, otherwise
    the matched text followed by the captured groups. *)
Variable regex_exec : string -> string -> string -> option (list string).

(** Whether [new RegExp(pattern, 'i')] returns instead of throwing. *)
Variable regex_compiles : string -> bool.

(** [String(v)] and [JSON.stringify(v)]. *)
Variable String_of : Json -> string.
Variable JSON_stringify : Json -> string.

Definition regex_test (src flags input : string) : bool :=
  match regex_exec src flags input with Some _ => true | None => false end.

(** [match[1]]. *)
Definition group1 (m : option (list string)) : Value :=
  match m with
  | Some (_ :: g :: _) => Some (JStr g)
  | _ => None
  end.

Definition matchesPattern (value : Value) (pattern : string) : bool :=
  if String.eqb pattern "human_correction" then true
  else
    let valueStr := match value with
                    | Some v => if truthy value then String_of v else ""%string
                    | None => ""%string
                    end in
    if regex_compiles pattern then regex_test pattern "i" valueStr
    else includes valueStr pattern.

(** The loop of [po_from_items]; the type [LineItem] makes every
    [description] a string. *)
Fixpoint first_po (items : list Json) : Value :=
  match items with
  | [] => None
  | item :: rest =>
      match getProp item "description" with
      | Some (JStr d) =>
          match regex_exec "PO[:\s]*(\w+)" "i" d with
          | Some m => group1 (Some m)
          | None => first_po rest
          end
      | _ => first_po rest
      end
  end.

Definition currencyPatterns : list (string * string) :=
  [("EUR", "€|EUR|euro"); ("USD", "\$|USD|dollar"); ("GBP", "£|GBP|pound")]%string.

Fixpoint first_currency (ps : list (string * string)) (text : string) : Value :=
  match ps with
  | [] => None
  | (currency, pat) :: rest =>
      if regex_test pat "i" text then Some (JStr currency) else first_currency rest text
  end.

Definition performInference (inv : Invoice) (action : Action) : Value :=
  if str_is (strategy action) "po_from_items" then
    if negb (truthy (field_of inv "poNumber")) then
      match lineItems_of inv with
      | Some items => first_po items
      | None => None
      end
    else None
  else if str_is (strategy action) "currency_from_text" then
    first_currency currencyPatterns (rawText inv)
  else None.

(** [item.totalPrice || 0]. *)
Definition totalPrice_or_0 (item : Json) : Q :=
  match getProp item "totalPrice" with
  | Some (JNum p) => p
  | _ => 0%Q
  end.

(** [Math.round(x * 100) / 100]. *)
Definition round2 (x : Q) : Q := (inject_Z (Qfloor (x * 100 + (1 # 2))) / 100)%Q.

(** [amount], [vatAmount] and [totalPrice] are numbers by the type
    [Invoice]. *)
Definition performComputation (inv : Invoice) (action : Action) : Value :=
  if str_is (strategy action) "vat_included_adjustment" then
    if truthy (field_of inv "vatIncluded") && truthy (field_of inv "amount") then
      match field_of inv "amount" with
      | Some (JNum amount) =>
          let vatRate := match field_of inv "vatAmount" with
                         | Some (JNum v) => if Qeq_bool v 0 then 0.19%Q else v
                         | _ => 0.19%Q
                         end in
          let netAmount := (amount / (1 + vatRate))%Q in
          Some (JNum (round2 netAmount))
      | _ => None
      end
    else None
  else if str_is (strategy action) "total_from_items" then
    match lineItems_of inv with
    | Some items =>
        Some (JNum (List.fold_left (fun sum item => (sum + totalPrice_or_0 item)%Q) items 0%Q))
    | None => None
    end
  else None.

(** The candidate of [applyVendorMemory] with, when it was read from the
    invoice, the field it was read from. *)
Definition candidate (inv : Invoice) (triggerSignal : string) (action : Action)
  : Value * option string :=
  match act_type action with
  | field_mapping =>
      if str_is (strategy action) "extract_from_text"
         && String.eqb triggerSignal "Leistungsdatum"
      then (group1 (regex_exec "Leistungsdatum:\s*(\d{4}-\d{2}-\d{2})" "" (rawText inv)), None)
      else
        match str_truthy (sourceField action) with
        | Some sf =>
            if truthy (field_of inv sf) then (field_of inv sf, Some sf)
            else (act_value action, None)
        | None => (act_value action, None)
        end
  | inference => (performInference inv action, None)
  | computation =>
      if str_is (strategy action) "vat_included_detection" then
        (if regex_test "MwSt\.\s*inkl\.|Prices\s*incl\.\s*VAT" "i" (rawText inv)
         then Some (JBool true) else None, None)
      else (performComputation inv action, None)
  end.

(** [proposedValue === invoice.extractedData[action.targetField]]: a value
    read from the target field itself is the very same value. *)
Definition identical (inv : Invoice) (action : Action) (cand : Value * option string) : bool :=
  strictEq (fst cand) (field_of inv (targetField action))
  || str_is (snd cand) (targetField action).

Definition applyVendorMemory (inv : Invoice) (memory : Memory)
    (triggerSignal : string) (action : Action) : option Correction :=
  let triggerFound := includes (rawText inv) triggerSignal
                      || String.eqb triggerSignal (inv_vendor inv) in
  if negb triggerFound then None
  else
    let cand := candidate inv triggerSignal action in
    match fst cand with
    | None => None
    | Some proposed =>
        if identical inv action cand then None
        else Some (mkCorrection (targetField action)
                     (field_of inv (targetField action))
                     proposed
                     (confidence memory)
                     (mem_id memory)
                     ("Vendor memory: " ++ triggerSignal ++ " → " ++ targetField action
                        ++ " (" ++ ActionType_name (act_type action) ++ ")"))
    end.

Definition applyCorrectionMemory (inv : Invoice) (memory : Memory)
    (fieldName originalPattern : string) (correctedValue : Json)
    (correctionReason : string) (approvalCount : Z) : option Correction :=
  let currentValue := field_of inv fieldName in
  if String.eqb originalPattern "human_correction"
     || matchesPattern currentValue originalPattern
  then Some (mkCorrection fieldName currentValue correctedValue
               (confidence memory) (mem_id memory)
               ("Correction memory: " ++ correctionReason ++ " (approved "
                  ++ pretty approvalCount ++ "x)"))
  else None.

Definition applyMemory (inv : Invoice) (memory : Memory) : option Correction :=
  match data memory with
  | VendorData triggerSignal action _ => applyVendorMemory inv memory triggerSignal action
  | CorrectionData fieldName originalPattern correctedValue correctionReason approvalCount _ =>
      applyCorrectionMemory inv memory fieldName originalPattern correctedValue
        correctionReason approvalCount
  | ResolutionData _ _ _ _ => None
  end.

(** [fieldCorrections]: the [Map] from field to the corrections of that
    field, in insertion order. *)
Fixpoint group_add (c : Correction) (groups : list (string * list Correction))
  : list (string * list Correction) :=
  match groups with
  | [] => [(c_field c, [c])]
  | (f, cs) :: rest =>
      if String.eqb f (c_field c) then (f, cs ++ [c]) :: rest
      else (f, cs) :: group_add c rest
  end.

Definition group_by_field (corrections : list Correction) : list (string * list Correction) :=
  List.fold_left (fun groups c => group_add c groups) corrections [].

(** [new Set(fieldCorrs.map(c => JSON.stringify(c.proposedValue)))]. *)
Definition value_set (fieldCorrs : list Correction) : list string :=
  remove_dups (List.map (fun c => JSON_stringify (proposedValue c)) fieldCorrs).

Definition conflict_of (group : string * list Correction) : list string :=
  let (field, fieldCorrs) := group in
  if (1 <? length fieldCorrs)%nat && (1 <? length (value_set fieldCorrs))%nat
  then [("Conflicting corrections for " ++ field)%string]
  else [].

Definition detectMemoryConflicts (corrections : list Correction) : list string :=
  List.flat_map conflict_of (group_by_field corrections).

(** The variables of the loop of [applyMemories] and the store. *)
Record ApplyState : Type := mkApplyState {
  st_corrections : list Correction;
  st_updates : list MemoryUpdate;
  totalConfidence : Q;
  appliedCount : nat;
  st_store : Store
}.

Definition apply_one (inv : Invoice) (now : Z) (st : ApplyState) (memory : Memory)
  : ApplyState :=
  if negb (Qle_bool (memoryApplication thresholds) (confidence memory)) then st
  else
    match applyMemory inv memory with
    | Some corr =>
        mkApplyState
          (st_corrections st ++ [corr])
          (st_updates st ++
             [mkUpdate u_reinforce (Some (mem_id memory))
                ("Applied memory for " ++ c_field corr ++ " correction")])
          (totalConfidence st * confidence memory)%Q
          (S (appliedCount st))
          (reinforceMemory sql_like (mem_id memory) (Some 0.02%Q) now (st_store st))
    | None => st
    end.

Record Applied : Type := mkApplied {
  corrections : list Correction;
  ap_confidence : Q;
  updates : list MemoryUpdate
}.

Definition applyMemories (inv : Invoice) (memories : list Memory) (now : Z) (s : Store)
  : Applied * Store :=
  let st := List.fold_left (apply_one inv now) memories (mkApplyState [] [] 1%Q 0%nat s) in
  let conflicts := detectMemoryConflicts (st_corrections st) in
  let total := if (0 <? length conflicts)%nat
               then (totalConfidence st * 0.7)%Q else totalConfidence st in
  (mkApplied (st_corrections st)
     (if (0 <? appliedCount st)%nat then total else 0.9%Q)
     (st_updates st),
   st_store st).

Definition typed_query (t : MemoryType) (f : option string) : PartialQuery :=
  mkPartial None (match f with Some x => Some (Some x) | None => None end)
            None (Some (Some t)) None None.

(** The loop over [fieldIssues] of the processor's [recallMemories]. *)
Definition recall_field (inv : Invoice) (now : Z) (acc : list Memory * Store) (field : string)
  : list Memory * Store :=
  let (correctionMemories, s') :=
    recallMemories sql_like inv (typed_query correction (Some field)) now (snd acc) in
  (fst acc ++ correctionMemories, s').

Definition scenario_includes (scenario : string) (m : Memory) : bool :=
  match data m with
  | ResolutionData sc _ _ _ => includes sc scenario
  | _ => false
  end.

Definition processor_recallMemories (inv : Invoice) (now : Z) (s : Store)
  : list Memory * Store :=
  let (vendorMemories, s1) := recallMemories sql_like inv (typed_query vendor None) now s in
  let (memories, s2) :=
    List.fold_left (recall_field inv now) (detectFieldIssues inv) (vendorMemories, s1) in
  let scenario := categorizeInvoiceScenario inv in
  let (resolutionMemories, s3) :=
    recallMemories sql_like inv (typed_query resolution None) now s2 in
  (memories ++ List.filter (scenario_includes scenario) resolutionMemories, s3).

Definition processInvoice (inv : Invoice) (now : Z) (s : Store) : ProcessingResult * Store :=
  let (relevantMemories, s1) := processor_recallMemories inv now s in
  let audit1 := mkAudit step_recall now None (Some (List.map mem_id relevantMemories)) in
  let (applied, s2) := applyMemories inv relevantMemories now s1 in
  let proposed := corrections applied in
  let overallConfidence := ap_confidence applied in
  let audit2 := mkAudit step_apply now (Some overallConfidence)
                  (Some (List.map memorySource proposed)) in
  let (requiresReview, decisionReasoning) := makeDecision overallConfidence proposed in
  let audit3 := mkAudit step_decide now (Some overallConfidence) None in
  let learningOpportunities := identifyLearningOpportunities proposed in
  let audit4 := mkAudit step_learn now None None in
  (mkResult (applyCorrections inv proposed) proposed requiresReview decisionReasoning
     overallConfidence (updates applied) [audit1; audit2; audit3; audit4],
   s2).

End Processor.

(** ** Operations of the manager as data, and the notions the properties use *)

(** A call of the manager's interface, with the identifier [uuidv4()] drew
    for a creation. *)
Inductive Op : Type :=
| OpCreateVendor (vendor_name triggerSignal : string) (action : Action) (pattern : string)
    (initialConfidence : option Q) (id : string)
| OpCreateCorrection (vendor_name fieldName originalPattern : string) (correctedValue : Json)
    (correctionReason : string) (initialConfidence : option Q) (id : string)
| OpCreateResolution (vendor_name scenario : string) (outcome : Outcome) (systemAction : string)
    (humanFeedback : option string) (initialConfidence : option Q) (id : string)
| OpReinforce (memoryId : string) (strength : option Q)
| OpWeaken (memoryId : string) (strength : option Q)
| OpRecall (inv : Invoice) (query : PartialQuery).

Section Trace.

Variable sql_like : string -> string -> bool.

(** The store after one call made at time [now]. *)
Definition run_op (now : Z) (o : Op) (s : Store) : Store :=
  match o with
  | OpCreateVendor v t a p c id => snd (createVendorMemory v t a p c id now s)
  | OpCreateCorrection v f p cv r c id => snd (createCorrectionMemory v f p cv r c id now s)
  | OpCreateResolution v sc o sa hf c id => snd (createResolutionMemory v sc o sa hf c id now s)
  | OpReinforce id strength => reinforceMemory sql_like id strength now s
  | OpWeaken id strength => weakenMemory sql_like id strength now s
  | OpRecall inv query => snd (recallMemories sql_like inv query now s)
  end.

(** The store after a sequence of calls, each with its own clock value. *)
Definition run_ops (ops : list (Z * Op)) (s : Store) : Store :=
  List.fold_left (fun st o => run_op (fst o) (snd o) st) ops s.

End Trace.

(** The identifier a creation draws, if the call is a creation. *)
Definition created_id (o : Op) : option string :=
  match o with
  | OpCreateVendor _ _ _ _ _ id => Some id
  | OpCreateCorrection _ _ _ _ _ _ id => Some id
  | OpCreateResolution _ _ _ _ _ _ id => Some id
  | _ => None
  end.

(** The initial confidence a creation stores before the cap, and the
    strength a reinforcement or weakening uses. *)
Definition op_initial (o : Op) : option Q :=
  match o with
  | OpCreateVendor _ _ _ _ c _ => Some (default 0.5%Q c)
  | OpCreateCorrection _ _ _ _ _ c _ => Some (default 0.4%Q c)
  | OpCreateResolution _ _ _ _ _ c _ => Some (default 0.6%Q c)
  | _ => None
  end.

Definition op_strength (o : Op) : option Q :=
  match o with
  | OpReinforce _ strength => Some (default 0.1%Q strength)
  | OpWeaken _ strength => Some (default 0.2%Q strength)
  | _ => None
  end.

(** The confidence of a memory lies in [[MIN_CONFIDENCE, MAX_CONFIDENCE]]. *)
Definition in_range (m : Memory) : Prop :=
  (MIN_CONFIDENCE <= confidence m /\ confidence m <= MAX_CONFIDENCE)%Q.

Definition store_in_range (s : Store) : Prop := Forall in_range s.

(** Every row of the store that carries [id] is inactive. *)
Definition inactive_in (id : string) (s : Store) : Prop :=
  forall m, In m s -> mem_id m = id -> isActive m = false.

(** Two of the corrections name one field and propose values whose JSON
    texts differ. *)
Definition conflicting (JSON_stringify : Json -> string) (cs : list Correction) : Prop :=
  exists c1 c2, In c1 cs /\ In c2 cs /\ c_field c1 = c_field c2
                /\ JSON_stringify (proposedValue c1) <> JSON_stringify (proposedValue c2).

(** The product of the confidences of a list of memories. *)
Definition confidence_product (ms : list Memory) : Q :=
  List.fold_left (fun acc m => (acc * confidence m)%Q) ms 1%Q.

Section Applied.

Variable regex_exec : string -> string -> string -> option (list string).
Variable regex_compiles : string -> bool.
Variable String_of : Json -> string.

(** The correction a recalled memory produces in the apply stage, if its
    confidence reaches the application threshold and it applies. *)
Definition produces (inv : Invoice) (m : Memory) : option Correction :=
  if Qle_bool (memoryApplication thresholds) (confidence m)
  then applyMemory regex_exec regex_compiles String_of inv m
  else None.

(** The recalled memories that produce a correction. *)
Definition appliedMemories (inv : Invoice) (memories : list Memory) : list Memory :=
  List.filter (fun m => match produces inv m with Some _ => true | None => false end) memories.

End Applied.

(** The last correction of a list that names field [f]. *)
Definition last_for (f : string) (cs : list Correction) : option Correction :=
  List.find (fun c => String.eqb (c_field c) f) (rev cs).

(** ** Concrete inputs used by the examples *)

Definition stub_like (text pat : string) : bool := false.
Definition stub_exec (src flags input : string) : option (list string) := None.
Definition stub_compiles (src : string) : bool := true.
Definition stub_String (j : Json) : string := match j with JStr s => s | _ => "" end.
Definition stub_stringify (j : Json) : string :=
  match j with
  | JStr s => s
  | JBool true => "true"
  | JBool false => "false"
  | JNull => "null"
  | _ => ""
  end.

Definition DAY : Z := MS_PER_DAY.

Definition meta0 : Metadata := mkMetadata "upload" "2024-01-15T10:00:00Z" "p-1".

(** An invoice of vendor Parts AG with no currency. *)
Definition invoice_no_currency : Invoice :=
  mkInvoice "inv-002" "Parts AG" "Rechnung 2024-002"
    (<["poNumber" := JStr "PO-1"]> (<["vatIncluded" := JBool false]> ∅)) meta0.

Definition mem_eur : Memory :=
  mkMemory "m-eur" "Parts AG" 0.8 0 0 None 0 true
    (CorrectionData "currency" "human_correction" (JStr "EUR") "Human correction" 0 0).

Definition mem_usd : Memory :=
  mkMemory "m-usd" "Parts AG" 0.9 0 0 None 0 true
    (CorrectionData "currency" "human_correction" (JStr "USD") "Human correction" 0 0).

Definition mem_vendor_rule : Memory :=
  mkMemory "m-v" "Parts AG" 0.5 0 0 None 0 true
    (VendorData "MwSt. inkl."
       (mkAction computation None "vatIncluded" (Some (JBool true)) (Some "vat_included_detection"%string))
       "vat_included_pattern").

Definition reliable_correction : Correction :=
  mkCorrection "currency" None (JStr "EUR") 0.9 "m-eur" "Correction memory".

(** [fieldCorrections.get(f)], or the empty list when the key is absent. *)
Definition group_of (f : string) (groups : list (string * list Correction)) : list Correction :=
  match List.find (fun g => String.eqb (fst g) f) groups with
  | Some g => snd g
  | None => []
  end.

(** Every member of a group satisfies [P] and has the field of the key. *)
Definition groups_within (P : Correction -> Prop) (groups : list (string * list Correction)) : Prop :=
  forall f l, In (f, l) groups -> forall x, In x l -> P x /\ c_field x = f.

(** An invoice whose VAT amount is already the value a human once entered,
    and the memory of that correction. *)
Definition invoice_zero_vat : Invoice :=
  mkInvoice "inv-003" "Freight & Co" "Invoice FC-77"
    (<["vatAmount" := JNum 0]> (<["amount" := JNum 100]> (<["currency" := JStr "EUR"]>
       (<["poNumber" := JStr "PO-9"]> (<["vatIncluded" := JBool false]> ∅))))) meta0.

Definition mem_zero_vat : Memory :=
  mkMemory "m-vat" "Freight & Co" 0.7 0 0 None 0 true
    (CorrectionData "vatAmount" "human_correction" (JNum 0) "Human correction" 0 0).

(** The correction [mem_usd] produces on an invoice without currency. *)
Definition usd_correction : Correction :=
  mkCorrection "currency" None (JStr "USD") 0.9 "m-usd"
    "Correction memory: Human correction (approved 0x)".

(** The inputs for which the operations keep confidences in range: an
    initial confidence of at least [MIN_CONFIDENCE], a strength that is not
    negative. *)
Definition op_in_domain (o : Op) : Prop :=
  match op_initial o with Some c => (MIN_CONFIDENCE <= c)%Q | None => True end
  /\ match op_strength o with Some k => (0 <= k)%Q | None => True end.

Definition action_vat_detection : Action :=
  mkAction computation None "vatIncluded" (Some (JBool true)) (Some "vat_included_detection"%string).

(** The store keeps a row for [id]. *)
Definition has_record (id : string) (s : Store) : Prop :=
  exists m, In m s /\ mem_id m = id.

(** No call of the trace draws [id] for a new memory. *)
Definition never_creates (id : string) (ops : list (Z * Op)) : Prop :=
  forall o, In o ops -> created_id (snd o) <> Some id.

(** A vendor memory one weakening away from the floor. *)
Definition mem_low : Memory :=
  mkMemory "m-low" "Parts AG" 0.3 2 0 None 0 true
    (VendorData "MwSt. inkl." action_vat_detection "vat_included_pattern").

(** Calls made after the weakening: a reinforcement of the same memory, a
    new memory, a recall. *)
Definition later_calls : list (Z * Op) :=
  [(2 * DAY, OpReinforce "m-low" None);
   (3 * DAY, OpCreateCorrection "Parts AG" "currency" "human_correction" (JStr "EUR")
               "Human correction" (Some 0.7%Q) "m-2");
   (4 * DAY, OpRecall invoice_no_currency emptyPartial)].

(** The confidence [reinforceMemory] computes from the memory it found. *)
Definition reinforced (memory : Memory) (strength : option Q) : Q :=
  Qmin (confidence memory + Qmin (default 0.1%Q strength) MAX_CONFIDENCE_INCREASE) MAX_CONFIDENCE.

(** The confidence the decay rule gives a fetched memory: decayed after the
    seven days of grace, unchanged within them. *)
Definition decay_result (now : Z) (m : Memory) : Q :=
  if 7 <? daysSinceLastUse now m then decayedConfidence now m else confidence m.

(** ** Human feedback ([MemoryManager.processHumanFeedback]) *)

Record FeedbackCorrection : Type := mkFeedbackCorrection {
  fc_field : string;
  fc_correctedValue : Json;
  fc_reason : option string
}.

Record HumanFeedback : Type := mkFeedback {
  fb_invoiceId : string;
  fb_corrections : list FeedbackCorrection;
  fb_approved : bool;
  fb_comments : option string;
  fb_timestamp : string
}.

Definition extractVendorFromFeedback (feedback : HumanFeedback) : string :=
  let invoiceId := fb_invoiceId feedback in
  if String.eqb invoiceId "inv-001" || String.eqb invoiceId "inv-005" then "Supplier GmbH"
  else if String.eqb invoiceId "inv-002" then "Parts AG"
  else if String.eqb invoiceId "inv-003" then "Freight & Co"
  else if includes invoiceId "final-test" then "Final Test Vendor"
  else if includes invoiceId "debug" then "Debug Vendor"
  else "Test Vendor".

(** [correction.reason?.includes(t)]. *)
Definition reason_includes (c : FeedbackCorrection) (t : string) : bool :=
  match fc_reason c with
  | Some r => includes r t
  | None => false
  end.

(** [correction.reason || 'Human correction']. *)
Definition reason_or_default (c : FeedbackCorrection) : string :=
  match str_truthy (fc_reason c) with
  | Some r => r
  | None => "Human correction"
  end.

(** The body of the loop over [feedback.corrections]; [id] is the
    identifier [uuidv4()] draws for the memory it creates. *)
Definition feedback_one (vendor_name : string) (c : FeedbackCorrection) (id : string)
    (now : Z) (s : Store) : Store :=
  if String.eqb (fc_field c) "serviceDate" && reason_includes c "Leistungsdatum" then
    snd (createVendorMemory vendor_name "Leistungsdatum"
           (mkAction field_mapping None "serviceDate" None (Some "extract_from_text"%string))
           "leistungsdatum_mapping" (Some 0.7%Q) id now s)
  else if String.eqb (fc_field c) "vatIncluded" && reason_includes c "MwSt. inkl." then
    snd (createVendorMemory vendor_name "MwSt. inkl."
           (mkAction computation None "vatIncluded" (Some (JBool true))
              (Some "vat_included_detection"%string))
           "vat_included_pattern" (Some 0.8%Q) id now s)
  else if String.eqb (fc_field c) "currency"
          && strictEq (Some (fc_correctedValue c)) (Some (JStr "EUR")) then
    snd (createVendorMemory vendor_name vendor_name
           (mkAction inference None "currency" (Some (JStr "EUR"))
              (Some "vendor_default_currency"%string))
           "currency_inference" (Some 0.6%Q) id now s)
  else if String.eqb (fc_field c) "lineItems" && reason_includes c "FREIGHT" then
    snd (createVendorMemory vendor_name "Freight Services"
           (mkAction field_mapping None "lineItems" (Some (JStr "FREIGHT"))
              (Some "sku_mapping"%string))
           "freight_sku_mapping" (Some 0.7%Q) id now s)
  else
    snd (createCorrectionMemory vendor_name (fc_field c) "human_correction"
           (fc_correctedValue c) (reason_or_default c) (Some 0.7%Q) id now s).

(** The loop; [uuid k] is the identifier drawn for the correction at
    position [k]. *)
Fixpoint feedback_loop (vendor_name : string) (cs : list FeedbackCorrection)
    (uuid : nat -> string) (k : nat) (now : Z) (s : Store) : Store :=
  match cs with
  | [] => s
  | c :: rest =>
      feedback_loop vendor_name rest uuid (S k) now (feedback_one vendor_name c (uuid k) now s)
  end.

Definition processHumanFeedback (feedback : HumanFeedback) (uuid : nat -> string)
    (now : Z) (s : Store) : Store :=
  let s' := feedback_loop (extractVendorFromFeedback feedback) (fb_corrections feedback)
              uuid 0%nat now s in
  if fb_approved feedback then s' else s'.

(** ** Conflicting memories ([MemoryManager.findConflictingMemories]) *)

(** The query [findConflictingMemories] builds from a memory. *)
Definition conflicting_query (memory : Memory) : MemoryQuery :=
  mkQuery (Some (mem_vendor memory))
    (match data memory with
     | CorrectionData fieldName _ _ _ _ _ => Some fieldName
     | _ => None
     end)
    None (Some (mem_type memory)) None None.

Section Conflicting.

Variable sql_like : string -> string -> bool.
Variable JSON_stringify : Json -> string.

(** The predicate of the filter of [findConflictingMemories]. *)
Definition conflicts_with (memory existing : Memory) : bool :=
  if String.eqb (mem_id existing) (mem_id memory) then false
  else
    match data memory, data existing with
    | CorrectionData newField _ newValue _ _ _, CorrectionData existingField _ existingValue _ _ _ =>
        String.eqb newField existingField
        && negb (String.eqb (JSON_stringify newValue) (JSON_stringify existingValue))
    | _, _ => false
    end.

Definition findConflictingMemories (memory : Memory) (s : Store) : list Memory :=
  List.filter (conflicts_with memory) (queryMemories sql_like (conflicting_query memory) s).

End Conflicting.

(** The memories of a list are in the order of [ORDER BY]. *)
Definition ordered (l : list Memory) : Prop := Sorted (fun a b => before a b = true) l.

Definition unreliable_correction : Correction :=
  mkCorrection "amount" (Some (JNum 100)) (JNum 84.03) 0.55 "m-net" "Vendor memory".

(** A memory that has been deactivated. *)
Definition mem_retired : Memory :=
  mkMemory "m-old" "Parts AG" 0.4 5 0 (Some DAY) DAY false
    (VendorData "MwSt. inkl." action_vat_detection "vat_included_pattern").

(** The confidence [weakenMemory] computes from the memory it found. *)
Definition weakened (memory : Memory) (strength : option Q) : Q :=
  Qmax (confidence memory - Qmin (default 0.2%Q strength) 0.3) MIN_CONFIDENCE.

(** The rows of a store after some calls, against the rows before: each has
    a row of the same identifier before, and its confidence differs from
    that row's by at least [lo] and at most [hi]. *)
Definition moved_within (lo hi : Q) (s s' : Store) : Prop :=
  forall r, In r s' ->
    exists r0, In r0 s /\ mem_id r0 = mem_id r
               /\ (confidence r0 + lo <= confidence r /\ confidence r <= confidence r0 + hi)%Q.

(** The memory the body of the feedback loop creates: the value its
    [create...Memory] call returns. *)
Definition feedback_memory (vendor_name : string) (c : FeedbackCorrection) (id : string)
    (now : Z) : Memory :=
  if String.eqb (fc_field c) "serviceDate" && reason_includes c "Leistungsdatum" then
    fst (createVendorMemory vendor_name "Leistungsdatum"
           (mkAction field_mapping None "serviceDate" None (Some "extract_from_text"%string))
           "leistungsdatum_mapping" (Some 0.7%Q) id now [])
  else if String.eqb (fc_field c) "vatIncluded" && reason_includes c "MwSt. inkl." then
    fst (createVendorMemory vendor_name "MwSt. inkl."
           (mkAction computation None "vatIncluded" (Some (JBool true))
              (Some "vat_included_detection"%string))
           "vat_included_pattern" (Some 0.8%Q) id now [])
  else if String.eqb (fc_field c) "currency"
          && strictEq (Some (fc_correctedValue c)) (Some (JStr "EUR")) then
    fst (createVendorMemory vendor_name vendor_name
           (mkAction inference None "currency" (Some (JStr "EUR"))
              (Some "vendor_default_currency"%string))
           "currency_inference" (Some 0.6%Q) id now [])
  else if String.eqb (fc_field c) "lineItems" && reason_includes c "FREIGHT" then
    fst (createVendorMemory vendor_name "Freight Services"
           (mkAction field_mapping None "lineItems" (Some (JStr "FREIGHT"))
              (Some "sku_mapping"%string))
           "freight_sku_mapping" (Some 0.7%Q) id now [])
  else
    fst (createCorrectionMemory vendor_name (fc_field c) "human_correction"
           (fc_correctedValue c) (reason_or_default c) (Some 0.7%Q) id now []).

(** The memories a feedback creates, in order. *)
Fixpoint feedback_memories (vendor_name : string) (cs : list FeedbackCorrection)
    (uuid : nat -> string) (k : nat) (now : Z) : list Memory :=
  match cs with
  | [] => []
  | c :: rest =>
      feedback_memory vendor_name c (uuid k) now
      :: feedback_memories vendor_name rest uuid (S k) now
  end.

(** The identifiers [uuid k], ..., [uuid (k + n - 1)] are not in the store
    and differ from one another. *)
Definition fresh_ids (uuid : nat -> string) (k n : nat) (s : Store) : Prop :=
  (forall i m, (k <= i < k + n)%nat -> In m s -> mem_id m <> uuid i)
  /\ (forall i j, (k <= i < j)%nat -> (j < k + n)%nat -> uuid i <> uuid j).

(** A correction that fits none of the four special cases of
    [processHumanFeedback]. *)
Definition is_generic (c : FeedbackCorrection) : bool :=
  negb (String.eqb (fc_field c) "serviceDate" && reason_includes c "Leistungsdatum")
  && negb (String.eqb (fc_field c) "vatIncluded" && reason_includes c "MwSt. inkl.")
  && negb (String.eqb (fc_field c) "currency"
           && strictEq (Some (fc_correctedValue c)) (Some (JStr "EUR")))
  && negb (String.eqb (fc_field c) "lineItems" && reason_includes c "FREIGHT").

(** The identifiers drawn in the examples. *)
Definition example_uuid (k : nat) : string :=
  match k with
  | O => "fb-0"
  | S O => "fb-1"
  | _ => "fb-2"
  end.

Definition feedback_po : HumanFeedback :=
  mkFeedback "inv-002"
    [mkFeedbackCorrection "vatIncluded" (JBool true) (Some "MwSt. inkl. on the invoice"%string);
     mkFeedbackCorrection "poNumber" (JStr "PO-77") None]
    true None "2024-01-16T09:00:00Z".

(** An invoice of Parts AG without a purchase-order number. *)
Definition invoice_no_po : Invoice :=
  mkInvoice "inv-012" "Parts AG" "Rechnung 2024-012"
    (<["currency" := JStr "EUR"]> (<["vatIncluded" := JBool false]> ∅)) meta0.

(** A vendor memory that fills the currency with a fixed value. *)
Definition mem_default_currency : Memory :=
  mkMemory "m-cur" "Parts AG" 0.6 0 0 None 0 true
    (VendorData "Parts AG"
       (mkAction field_mapping None "currency" (Some (JStr "EUR")) None)
       "currency_inference").

(** What no update of a row changes: its identifier and the columns of its
    variant's table. *)
Definition row_key (m : Memory) : string * MemoryData := (mem_id m, data m).

(** A vendor memory at confidence 0.4, the default of a new correction
    memory. *)
Definition mem_four_tenths : Memory :=
  mkMemory "m-4" "Parts AG" 0.4 0 0 None 0 true
    (VendorData "MwSt. inkl." action_vat_detection "vat_included_pattern").

(** ** Objects and references

    The invoice a caller passes is a JavaScript object, and so are the
    arrays and objects inside it: values with an identity, which an
    assignment changes in place and which two variables may share.  A heap
    is the list of the objects created so far, an object being named by its
    position; creating an object appends to the list. *)

Inductive Val : Type :=
| VNull
| VBool (b : bool)
| VNum (q : Q)
| VStr (s : string)
| VRef (l : nat).

Inductive Cell : Type :=
| CArr (items : list Val)
| CObj (props : list (string * Val)).

Abbreviation Heap := (list Cell).

(** [o[k]] on the properties of an object. *)
Fixpoint prop {A : Type} (k : string) (ps : list (string * A)) : option A :=
  match ps with
  | [] => None
  | (k', v) :: ps' => if String.eqb k k' then Some v else prop k ps'
  end.

(** [o[k] = v] on the properties of an object: the property is replaced
    where it stands, or added at the end. *)
Fixpoint set_prop {A : Type} (k : string) (v : A) (ps : list (string * A))
  : list (string * A) :=
  match ps with
  | [] => [(k, v)]
  | (k', v') :: ps' =>
      if String.eqb k k' then (k, v) :: ps' else (k', v') :: set_prop k v ps'
  end.

Definition get_prop (h : Heap) (o : Val) (k : string) : option Val :=
  match o with
  | VRef l =>
      match h !! l with
      | Some (CObj ps) => prop k ps
      | _ => None
      end
  | _ => None
  end.

(** [o[k] = v]: the object [o] itself is changed. *)
Definition assign (h : Heap) (o : Val) (k : string) (v : Val) : option Heap :=
  match o with
  | VRef l =>
      match h !! l with
      | Some (CObj ps) => Some (<[l := CObj (set_prop k v ps)]> h)
      | _ => None
      end
  | _ => None
  end.

(** The JSON document a value denotes, with the objects it is made of:
    what [JSON.stringify] traverses.  The traversal fails on a structure
    deeper than [fuel], which a cyclic one is. *)
Fixpoint walk (fuel : nat) (h : Heap) (v : Val) : option (Json * list nat) :=
  match v with
  | VNull => Some (JNull, [])
  | VBool b => Some (JBool b, [])
  | VNum q => Some (JNum q, [])
  | VStr s => Some (JStr s, [])
  | VRef l =>
      match fuel with
      | O => None
      | S n =>
          match h !! l with
          | Some (CArr items) =>
              r ← mapM (walk n h) items;
              Some (JArr (r.*1), l :: concat (r.*2))
          | Some (CObj props) =>
              r ← mapM (fun kv => w ← walk n h kv.2; Some (kv.1, w)) props;
              Some (JObj ((fun x => (x.1, x.2.1)) <$> r),
                    l :: concat ((fun x => x.2.2) <$> r))
          | None => None
          end
      end
  end.

(** Creating the objects of a list of documents, one after the other. *)
Fixpoint alloc_seq {A B : Type} (f : A -> Heap -> B * Heap) (l : list A) (h : Heap)
  : list B * Heap :=
  match l with
  | [] => ([], h)
  | x :: rest =>
      let '(y, h1) := f x h in
      let '(ys, h2) := alloc_seq f rest h1 in
      (y :: ys, h2)
  end.

(** [JSON.parse] of the text of a document: every array and object of the
    document is a new object. *)
Fixpoint alloc (j : Json) (h : Heap) : Val * Heap :=
  match j with
  | JNull => (VNull, h)
  | JBool b => (VBool b, h)
  | JNum q => (VNum q, h)
  | JStr s => (VStr s, h)
  | JArr items =>
      let '(vs, h1) := alloc_seq alloc items h in
      (VRef (length h1), h1 ++ [CArr vs])
  | JObj props =>
      let '(ps, h1) :=
        alloc_seq (fun kj h0 => let '(v, h1) := alloc kj.2 h0 in ((kj.1, v), h1)) props h in
      (VRef (length h1), h1 ++ [CObj ps])
  end.

(** [JSON.parse(JSON.stringify(v))]. *)
Definition JSON_clone (h : Heap) (v : Val) : option (Val * Heap) :=
  r ← walk (length h) h v; Some (alloc r.1 h).

(** The nesting of arrays and objects in a document. *)
Fixpoint depth (j : Json) : nat :=
  match j with
  | JArr items => S (list_max (List.map depth items))
  | JObj props => S (list_max (List.map (fun kj => depth kj.2) props))
  | _ => O
  end.

(** *** The invoice as an object *)

Definition as_string (v : Value) : option string :=
  match v with
  | Some (JStr s) => Some s
  | _ => None
  end.

Definition metadata_of_json (v : Value) : option Metadata :=
  match v with
  | Some (JObj ps) =>
      s ← as_string (prop "source" ps);
      e ← as_string (prop "extractedAt" ps);
      p ← as_string (prop "processingId" ps);
      Some (mkMetadata s e p)
  | _ => None
  end.

(** The document of an [Invoice]. *)
Definition invoice_of_json (j : Json) : option Invoice :=
  match j with
  | JObj ps =>
      id ← as_string (prop "id" ps);
      vendor_name ← as_string (prop "vendor" ps);
      text ← as_string (prop "rawText" ps);
      ed ← match prop "extractedData" ps with
           | Some (JObj eps) => Some eps
           | _ => None
           end;
      md ← metadata_of_json (prop "metadata" ps);
      Some (mkInvoice id vendor_name text (list_to_map ed) md)
  | _ => None
  end.

(** The invoice an object is, when it is one: the value the stages of the
    processor that only read the invoice compute with. *)
Definition load_invoice (h : Heap) (invoice : Val) : option Invoice :=
  r ← walk (length h) h invoice; invoice_of_json r.1.

(** [invoice.extractedData[f]], the value itself. *)
Definition get_field (h : Heap) (invoice : Val) (f : string) : option Val :=
  ed ← get_prop h invoice "extractedData"; get_prop h ed f.

(** A value made only of objects created after the heap [h0]. *)
Definition new_since (h0 h : Heap) (v : Val) : Prop :=
  exists j ls, walk (length h) h v = Some (j, ls) /\ Forall (fun l => (length h0 <= l)%nat) ls.

(** *** [applyCorrections] on objects *)

(** A correction with its [proposedValue] as the code holds it. *)
Record HCorrection : Type := mkHCorrection {
  hc_correction : Correction;
  hc_proposedValue : Val
}.

(** [normalizedInvoice.extractedData[correction.field] = correction.proposedValue]. *)
Definition assign_correction (normalizedInvoice : Val) (acc : option Heap) (c : HCorrection)
  : option Heap :=
  h ← acc;
  ed ← get_prop h normalizedInvoice "extractedData";
  assign h ed (c_field (hc_correction c)) (hc_proposedValue c).

Definition applyCorrections_h (h : Heap) (invoice : Val) (corrections : list HCorrection)
  : option (Val * Heap) :=
  '(normalizedInvoice, h1) ← JSON_clone h invoice;
  h2 ← List.fold_left (assign_correction normalizedInvoice) corrections (Some h1);
  Some (normalizedInvoice, h2).

Section Objects.

Variable sql_like : string -> string -> bool.
Variable regex_exec : string -> string -> string -> option (list string).
Variable regex_compiles : string -> bool.
Variable String_of : Json -> string.
Variable JSON_stringify : Json -> string.

(** The field of the input a vendor memory takes its value from, when it
    does: [proposedValue = invoice.extractedData[action.sourceField]]. *)
Definition read_from (inv : Invoice) (m : Memory) : option string :=
  match data m with
  | VendorData triggerSignal action _ => snd (candidate regex_exec inv triggerSignal action)
  | _ => None
  end.

(** The corrections of the apply stage, each with the field of the input
    its value was read from. *)
Definition proposals (inv : Invoice) (memories : list Memory)
  : list (Correction * option string) :=
  omap (fun m => match produces regex_exec regex_compiles String_of inv m with
                 | Some c => Some (c, read_from inv m)
                 | None => None
                 end) memories.

(** The last proposal that names field [f]. *)
Definition last_proposal (f : string) (ps : list (Correction * option string))
  : option (Correction * option string) :=
  List.find (fun p => String.eqb (c_field p.1) f) (rev ps).

(** The value of a proposal as an object: the value of the input's field
    itself when it was read from there, a new object otherwise (a string, a
    number or a boolean the processor computed, or the value of the memory,
    which [rowToMemory] parsed from its JSON text). *)
Definition proposed_value (invoice : Val) (acc : option (list HCorrection * Heap))
    (p : Correction * option string) : option (list HCorrection * Heap) :=
  '(cs, h) ← acc;
  match p.2 with
  | Some sf =>
      v ← get_field h invoice sf;
      Some (cs ++ [mkHCorrection p.1 v], h)
  | None =>
      let '(v, h') := alloc (proposedValue p.1) h in
      Some (cs ++ [mkHCorrection p.1 v], h')
  end.

(** [processInvoice] on an invoice object: the recall, apply, decide and
    learn stages read the invoice and compute with its value;
    [applyCorrections] builds the normalized invoice. *)
Definition processInvoice_h (h : Heap) (invoice : Val) (now : Z) (s : Store)
  : option (ProcessingResult * Val * Heap * Store) :=
  inv ← load_invoice h invoice;
  let '(result, s') :=
    processInvoice sql_like regex_exec regex_compiles String_of JSON_stringify inv now s in
  let relevantMemories := fst (processor_recallMemories sql_like inv now s) in
  '(proposed, h1) ← List.fold_left (proposed_value invoice)
                      (proposals inv relevantMemories) (Some ([], h));
  '(normalizedInvoice, h2) ← applyCorrections_h h1 invoice proposed;
  Some (result, normalizedInvoice, h2, s').

End Objects.

(** An invoice whose line items were extracted as [positions], as an
    object, and a vendor memory that maps [positions] to [lineItems]. *)
Definition invoice_positions_document : Json :=
  JObj [("id", JStr "inv-021"); ("vendor", JStr "Parts AG");
        ("rawText", JStr "Rechnung 2024-021");
        ("extractedData",
         JObj [("currency", JStr "EUR"); ("poNumber", JStr "PO-9");
               ("vatIncluded", JBool false);
               ("positions",
                JArr [JObj [("description", JStr "Bolt M8"); ("sku", JStr "B-8")]])]);
        ("metadata",
         JObj [("source", JStr "upload"); ("extractedAt", JStr "2024-01-15T10:00:00Z");
               ("processingId", JStr "p-21")])]%string.

Definition invoice_positions_heap : Heap := snd (alloc invoice_positions_document []).

Definition invoice_positions : Val := fst (alloc invoice_positions_document []).

Definition mem_positions : Memory :=
  mkMemory "m-pos" "Parts AG" 0.8 0 0 None 0 true
    (VendorData "Parts AG"
       (mkAction field_mapping (Some "positions"%string) "lineItems" None None)
       "positions_mapping").

(** The invoice that object is. *)
Definition invoice_positions_value : Invoice :=
  mkInvoice "inv-021" "Parts AG" "Rechnung 2024-021"
    (list_to_map
       [("currency", JStr "EUR"); ("poNumber", JStr "PO-9"); ("vatIncluded", JBool false);
        ("positions", JArr [JObj [("description", JStr "Bolt M8"); ("sku", JStr "B-8")]])]%string)
    (mkMetadata "upload" "2024-01-15T10:00:00Z" "p-21").

(** * Properties *)

(** ** Comparisons on rationals *)

Lemma Qle_bool_false (x y : Q) : Qle_bool x y = false <-> (y < x)%Q.
Proof.
  split.
  - intros H. apply Qnot_le_lt. intros Hle. apply Qle_bool_iff in Hle. congruence.
  - intros H. destruct (Qle_bool x y) eqn:E; [|reflexivity].
    apply Qle_bool_iff in E. exfalso. apply (Qlt_not_le _ _ H E).
Qed.

(** Case analysis on every [Qle_bool] of the goal, as order facts. *)
Ltac qle_cases :=
  repeat match goal with
  | |- context [Qle_bool ?a ?b] =>
      let E := fresh "E" in
      destruct (Qle_bool a b) eqn:E;
      [apply Qle_bool_iff in E | apply Qle_bool_false in E]
  end.

(** ** The decision function *)

(** C5: a confidence strictly below 0.4 makes [makeDecision] require review,
    whatever the corrections are. *)
Theorem makeDecision_low_confidence_escalates (conf : Q) (cs : list Correction) :
  (conf < 0.4)%Q -> fst (makeDecision conf cs) = true.
Proof.
  intros Hlow. unfold makeDecision, thresholds; simpl.
  qle_cases; simpl; try reflexivity; lra.
Qed.

Lemma makeDecision_low_confidence_escalates_witness :
  (0.39 < 0.4)%Q /\ all_reliable [reliable_correction] = true
  /\ fst (makeDecision 0.39 [reliable_correction]) = true.
Proof.
  split; [reflexivity|]. split; [reflexivity|].
  apply (makeDecision_low_confidence_escalates 0.39 [reliable_correction]). reflexivity.
Defined.

(** With no correction and a confidence of at least 0.85 the first rule
    fires. *)
Lemma makeDecision_auto_accept (conf : Q) :
  (0.85 <= conf)%Q -> makeDecision conf [] = (false, AUTO_ACCEPT).
Proof.
  intros H. unfold makeDecision, thresholds; simpl.
  apply Qle_bool_iff in H. rewrite H. reflexivity.
Qed.

(** The first rule needs an empty correction list. *)
Lemma makeDecision_not_auto_accept (conf : Q) (cs : list Correction) :
  cs <> [] -> snd (makeDecision conf cs) <> AUTO_ACCEPT.
Proof.
  intros Hne. unfold makeDecision.
  destruct cs as [|c cs']; [congruence|]. simpl length. cbn [Nat.eqb].
  rewrite andb_false_r.
  repeat match goal with |- context [if ?b then _ else _] => destruct b end;
    simpl; congruence.
Qed.

(** ** The apply stage *)

Section ApplyFacts.

Variable sql_like : string -> string -> bool.
Variable regex_exec : string -> string -> string -> option (list string).
Variable regex_compiles : string -> bool.
Variable String_of : Json -> string.
Variable JSON_stringify : Json -> string.

Local Abbreviation apply_one' := (apply_one sql_like regex_exec regex_compiles String_of).
Local Abbreviation applyMemories' :=
  (applyMemories sql_like regex_exec regex_compiles String_of JSON_stringify).
Local Abbreviation produces' := (produces regex_exec regex_compiles String_of).
Local Abbreviation appliedMemories' := (appliedMemories regex_exec regex_compiles String_of).

(** One turn of the loop, by what the memory produces. *)
Lemma apply_one_produces inv now st m :
  apply_one' inv now st m =
  match produces' inv m with
  | Some corr =>
      mkApplyState (st_corrections st ++ [corr])
        (st_updates st ++
           [mkUpdate u_reinforce (Some (mem_id m))
              ("Applied memory for " ++ c_field corr ++ " correction")])
        (totalConfidence st * confidence m)%Q
        (S (appliedCount st))
        (reinforceMemory sql_like (mem_id m) (Some 0.02%Q) now (st_store st))
  | None => st
  end.
Proof.
  unfold apply_one, produces.
  destruct (Qle_bool (memoryApplication thresholds) (confidence m)); simpl; reflexivity.
Qed.

(** The loop of [applyMemories]: the corrections are those the memories
    produce, in order; the running confidence is multiplied by the
    confidence of each memory that produced one. *)
Lemma apply_loop inv now memories : forall st,
  let st' := List.fold_left (apply_one' inv now) memories st in
  st_corrections st' = st_corrections st ++ omap (produces' inv) memories
  /\ totalConfidence st' =
     List.fold_left (fun acc m => (acc * confidence m)%Q)
       (appliedMemories' inv memories) (totalConfidence st)
  /\ appliedCount st' = (appliedCount st + length (appliedMemories' inv memories))%nat.
Proof.
  induction memories as [|m ms IH]; intros st; simpl.
  - rewrite app_nil_r. repeat split; lia.
  - specialize (IH (apply_one' inv now st m)). simpl in IH.
    destruct IH as (Hc & Ht & Hn).
    rewrite Hc, Ht, Hn. rewrite apply_one_produces.
    unfold appliedMemories; simpl.
    destruct (produces' inv m) as [corr|]; simpl.
    + rewrite <- app_assoc. repeat split; lia.
    + repeat split.
Qed.

Lemma applyMemories_corrections inv memories now s :
  corrections (fst (applyMemories' inv memories now s)) = omap (produces' inv) memories.
Proof.
  unfold applyMemories; simpl.
  destruct (apply_loop inv now memories (mkApplyState [] [] 1%Q 0%nat s)) as (Hc & _).
  exact Hc.
Qed.

Lemma appliedMemories_length inv memories :
  length (appliedMemories' inv memories) = length (omap (produces' inv) memories).
Proof.
  unfold appliedMemories.
  induction memories as [|m ms IH]; simpl; [reflexivity|].
  destruct (produces' inv m); simpl; rewrite IH; reflexivity.
Qed.

Lemma applyMemories_confidence inv memories now s :
  ap_confidence (fst (applyMemories' inv memories now s)) =
  if (0 <? length (appliedMemories' inv memories))%nat then
    if (0 <? length (detectMemoryConflicts JSON_stringify (omap (produces' inv) memories)))%nat
    then (confidence_product (appliedMemories' inv memories) * 0.7)%Q
    else confidence_product (appliedMemories' inv memories)
  else 0.9%Q.
Proof.
  unfold applyMemories; simpl.
  destruct (apply_loop inv now memories (mkApplyState [] [] 1%Q 0%nat s)) as (Hc & Ht & Hn).
  simpl in Hc, Ht, Hn. rewrite Hc, Ht, Hn. reflexivity.
Qed.

End ApplyFacts.

(** ** Conflict detection *)

Lemma group_of_add (f : string) (c : Correction) (groups : list (string * list Correction)) :
  group_of f (group_add c groups) =
  group_of f groups ++ (if String.eqb (c_field c) f then [c] else []).
Proof.
  unfold group_of.
  induction groups as [|[f' cs] rest IH]; simpl.
  - destruct (String.eqb (c_field c) f); reflexivity.
  - destruct (String.eqb f' (c_field c)) eqn:Ekey; simpl.
    + apply String.eqb_eq in Ekey. subst f'.
      destruct (String.eqb (c_field c) f); simpl; [reflexivity|].
      rewrite app_nil_r. reflexivity.
    + destruct (String.eqb f' f) eqn:Ef; simpl; [|exact IH].
      apply String.eqb_eq in Ef. subst f'. rewrite String.eqb_sym, Ekey.
      rewrite app_nil_r. reflexivity.
Qed.

Lemma group_of_fold (f : string) (cs : list Correction) : forall groups,
  group_of f (List.fold_left (fun g c => group_add c g) cs groups) =
  group_of f groups ++ List.filter (fun c => String.eqb (c_field c) f) cs.
Proof.
  induction cs as [|c cs IH]; intros groups; simpl.
  - rewrite app_nil_r. reflexivity.
  - rewrite IH, group_of_add. rewrite <- app_assoc.
    destruct (String.eqb (c_field c) f); reflexivity.
Qed.

(** The group of a field holds the corrections of that field, in order. *)
Lemma group_of_by_field (f : string) (cs : list Correction) :
  group_of f (group_by_field cs) = List.filter (fun c => String.eqb (c_field c) f) cs.
Proof. unfold group_by_field. rewrite group_of_fold. reflexivity. Qed.

Lemma groups_within_add (P : Correction -> Prop) c groups :
  P c -> groups_within P groups -> groups_within P (group_add c groups).
Proof.
  intros Hc. induction groups as [|[f' cs] rest IH]; intros Hw f l Hin x Hx; simpl in Hin.
  - destruct Hin as [Heq|[]]. inversion Heq; subst.
    destruct Hx as [->|[]]. split; [assumption|reflexivity].
  - destruct (String.eqb f' (c_field c)) eqn:Ekey.
    + destruct Hin as [Heq|Hin].
      * inversion Heq; subst. apply String.eqb_eq in Ekey.
        apply in_app_or in Hx. destruct Hx as [Hx|[->|[]]].
        -- apply (Hw f cs); [left; reflexivity|assumption].
        -- split; [assumption|symmetry; assumption].
      * apply (Hw f l); [right; assumption|assumption].
    + destruct Hin as [Heq|Hin].
      * inversion Heq; subst. apply (Hw f l); [left; reflexivity|assumption].
      * apply (IH (fun g k Hg => Hw g k (or_intror Hg)) f l Hin x Hx).
Qed.

Lemma groups_within_by_field (cs : list Correction) :
  groups_within (fun x => In x cs) (group_by_field cs).
Proof.
  unfold group_by_field.
  assert (G : forall pre groups, (forall x, In x pre -> In x cs) ->
            groups_within (fun x => In x cs) groups ->
            groups_within (fun x => In x cs)
              (List.fold_left (fun g c => group_add c g) pre groups)).
  { induction pre as [|c pre IH]; intros groups Hsub Hw; simpl; [exact Hw|].
    apply IH.
    - intros x Hx. apply Hsub. right. exact Hx.
    - apply groups_within_add; [apply Hsub; left; reflexivity|exact Hw]. }
  apply G; [auto|]. intros f l [].
Qed.

(** A list has two different members exactly when it keeps more than one
    element once duplicates are removed. *)
Lemma two_distinct (l : list string) :
  (1 <? length (remove_dups l))%nat = true <-> exists x y, In x l /\ In y l /\ x <> y.
Proof.
  rewrite Nat.ltb_lt. split.
  - intros Hlen.
    pose proof (NoDup_remove_dups l) as Hnd.
    destruct (remove_dups l) as [|x [|y r]] eqn:E; simpl in Hlen; try lia.
    exists x, y. repeat split.
    + apply list_elem_of_In, elem_of_remove_dups. rewrite E. left.
    + apply list_elem_of_In, elem_of_remove_dups. rewrite E. right. left.
    + intros ->. apply NoDup_cons in Hnd. destruct Hnd as [Hn _]. apply Hn. left.
  - intros (x & y & Hx & Hy & Hne).
    apply list_elem_of_In, elem_of_remove_dups in Hx.
    apply list_elem_of_In, elem_of_remove_dups in Hy.
    destruct (remove_dups l) as [|a [|b r]]; simpl.
    + inversion Hx.
    + apply list_elem_of_singleton in Hx, Hy. congruence.
    + lia.
Qed.

Lemma remove_dups_length_le (l : list string) : (length (remove_dups l) <= length l)%nat.
Proof.
  induction l as [|a l IH]; simpl; [lia|].
  destruct (decide_rel elem_of a l); simpl; lia.
Qed.

Section ConflictFacts.

Variable JSON_stringify : Json -> string.

Lemma conflict_of_nonempty (g : string * list Correction) :
  conflict_of JSON_stringify g <> [] <->
  exists c1 c2, In c1 (snd g) /\ In c2 (snd g)
                /\ JSON_stringify (proposedValue c1) <> JSON_stringify (proposedValue c2).
Proof.
  destruct g as [f l]. unfold conflict_of, value_set. simpl snd.
  set (texts := List.map (fun c => JSON_stringify (proposedValue c)) l).
  assert (Hlen : length texts = length l) by apply length_map.
  pose proof (remove_dups_length_le texts) as Hle.
  split.
  - intros Hne.
    destruct (1 <? length (remove_dups texts))%nat eqn:E.
    + apply two_distinct in E. destruct E as (x & y & Hx & Hy & Hxy).
      apply in_map_iff in Hx. destruct Hx as (c1 & <- & H1).
      apply in_map_iff in Hy. destruct Hy as (c2 & <- & H2).
      exists c1, c2. auto.
    + rewrite andb_false_r in Hne. congruence.
  - intros (c1 & c2 & H1 & H2 & Hne).
    assert (E : (1 <? length (remove_dups texts))%nat = true).
    { apply two_distinct. exists (JSON_stringify (proposedValue c1)),
        (JSON_stringify (proposedValue c2)).
      repeat split; [apply in_map_iff; eauto..|assumption]. }
    rewrite E. apply Nat.ltb_lt in E.
    assert (E2 : (1 <? length l)%nat = true) by (apply Nat.ltb_lt; lia).
    rewrite E2. simpl. congruence.
Qed.

(** [detectMemoryConflicts] reports a conflict exactly when two
    corrections of one field propose values with different JSON texts. *)
Lemma detectMemoryConflicts_spec (cs : list Correction) :
  (0 <? length (detectMemoryConflicts JSON_stringify cs))%nat = true
  <-> conflicting JSON_stringify cs.
Proof.
  unfold detectMemoryConflicts. split.
  - intros H. apply Nat.ltb_lt in H.
    destruct (flat_map (conflict_of JSON_stringify) (group_by_field cs)) as [|x r] eqn:E;
      [simpl in H; lia|].
    assert (Hx : In x (flat_map (conflict_of JSON_stringify) (group_by_field cs)))
      by (rewrite E; left; reflexivity).
    apply in_flat_map in Hx. destruct Hx as ([f l] & Hg & Hin).
    assert (Hne : conflict_of JSON_stringify (f, l) <> [])
      by (intros Hnil; rewrite Hnil in Hin; inversion Hin).
    apply conflict_of_nonempty in Hne. destruct Hne as (c1 & c2 & H1 & H2 & Hd).
    pose proof (groups_within_by_field cs f l Hg) as Hw.
    destruct (Hw c1 H1) as [Hc1 Hf1]. destruct (Hw c2 H2) as [Hc2 Hf2].
    exists c1, c2. repeat split; try assumption. congruence.
  - intros (c1 & c2 & H1 & H2 & Hf & Hd).
    set (f := c_field c1).
    assert (Hg1 : In c1 (group_of f (group_by_field cs))).
    { rewrite group_of_by_field. apply filter_In. split; [assumption|].
      apply String.eqb_refl. }
    assert (Hg2 : In c2 (group_of f (group_by_field cs))).
    { rewrite group_of_by_field. apply filter_In. split; [assumption|].
      apply String.eqb_eq. symmetry. exact Hf. }
    unfold group_of in Hg1, Hg2.
    destruct (List.find (fun g => String.eqb (fst g) f) (group_by_field cs)) as [g|] eqn:Efind;
      [|inversion Hg1].
    apply find_some in Efind. destruct Efind as [Hin _].
    assert (Hne : conflict_of JSON_stringify g <> [])
      by (apply conflict_of_nonempty; exists c1, c2; auto).
    apply Nat.ltb_lt.
    destruct (conflict_of JSON_stringify g) as [|x r] eqn:Ec; [congruence|].
    assert (Hx : In x (flat_map (conflict_of JSON_stringify) (group_by_field cs))).
    { apply in_flat_map. exists g. split; [assumption|]. rewrite Ec. left. reflexivity. }
    destruct (flat_map (conflict_of JSON_stringify) (group_by_field cs));
      [inversion Hx|simpl; lia].
Qed.

End ConflictFacts.

(** ** Building the normalized invoice *)

Lemma last_for_snoc (f : string) (cs : list Correction) (c : Correction) :
  last_for f (cs ++ [c]) = if String.eqb (c_field c) f then Some c else last_for f cs.
Proof. unfold last_for. rewrite rev_app_distr. reflexivity. Qed.

(** Each field of the normalized invoice holds the value proposed by the
    last correction that names it, or the input's value when none does. *)
Lemma applyCorrections_lookup (inv : Invoice) (cs : list Correction) (f : string) :
  extractedData (applyCorrections inv cs) !! f =
  match last_for f cs with
  | Some c => Some (proposedValue c)
  | None => extractedData inv !! f
  end.
Proof.
  unfold applyCorrections; simpl.
  induction cs as [|c cs IH] using rev_ind; [reflexivity|].
  rewrite fold_left_app, last_for_snoc; simpl.
  destruct (String.eqb (c_field c) f) eqn:E.
  - apply String.eqb_eq in E. subst f. apply lookup_insert_eq.
  - apply String.eqb_neq in E. rewrite lookup_insert_ne by exact E. exact IH.
Qed.

Lemma last_for_none (f : string) (cs : list Correction) :
  last_for f cs = None <-> forall c, In c cs -> c_field c <> f.
Proof.
  unfold last_for. split.
  - intros H c Hin Heq.
    pose proof (find_none _ _ H c) as Hf. simpl in Hf.
    apply String.eqb_eq in Heq. rewrite Heq in Hf.
    discriminate Hf. apply in_rev in Hin. exact Hin.
  - intros H. destruct (List.find _ (rev cs)) as [c|] eqn:E; [|reflexivity].
    apply find_some in E. destruct E as [Hin Heq].
    apply in_rev in Hin. apply String.eqb_eq in Heq. exfalso. exact (H c Hin Heq).
Qed.

Lemma last_for_some (f : string) (cs : list Correction) (c : Correction) :
  last_for f cs = Some c -> In c cs /\ c_field c = f.
Proof.
  unfold last_for. intros H. apply find_some in H. destruct H as [Hin Heq].
  split; [apply in_rev; exact Hin|apply String.eqb_eq; exact Heq].
Qed.

(** ** The pipeline *)

Section PipelineFacts.

Variable sql_like : string -> string -> bool.
Variable regex_exec : string -> string -> string -> option (list string).
Variable regex_compiles : string -> bool.
Variable String_of : Json -> string.
Variable JSON_stringify : Json -> string.

Local Abbreviation applyMemories' :=
  (applyMemories sql_like regex_exec regex_compiles String_of JSON_stringify).
Local Abbreviation processInvoice' :=
  (processInvoice sql_like regex_exec regex_compiles String_of JSON_stringify).
Local Abbreviation produces' := (produces regex_exec regex_compiles String_of).
Local Abbreviation appliedMemories' := (appliedMemories regex_exec regex_compiles String_of).
Local Abbreviation recalled := (processor_recallMemories sql_like).

(** [processInvoice] as the composition of its stages. *)
Lemma processInvoice_stages inv now s :
  fst (processInvoice' inv now s) =
  mkResult
    (applyCorrections inv (corrections (fst (applyMemories' inv (fst (recalled inv now s)) now
                                               (snd (recalled inv now s))))))
    (corrections (fst (applyMemories' inv (fst (recalled inv now s)) now
                         (snd (recalled inv now s)))))
    (fst (makeDecision
            (ap_confidence (fst (applyMemories' inv (fst (recalled inv now s)) now
                                   (snd (recalled inv now s)))))
            (corrections (fst (applyMemories' inv (fst (recalled inv now s)) now
                                 (snd (recalled inv now s)))))))
    (snd (makeDecision
            (ap_confidence (fst (applyMemories' inv (fst (recalled inv now s)) now
                                   (snd (recalled inv now s)))))
            (corrections (fst (applyMemories' inv (fst (recalled inv now s)) now
                                 (snd (recalled inv now s)))))))
    (ap_confidence (fst (applyMemories' inv (fst (recalled inv now s)) now
                           (snd (recalled inv now s)))))
    (updates (fst (applyMemories' inv (fst (recalled inv now s)) now
                     (snd (recalled inv now s)))))
    [mkAudit step_recall now None (Some (List.map mem_id (fst (recalled inv now s))));
     mkAudit step_apply now
       (Some (ap_confidence (fst (applyMemories' inv (fst (recalled inv now s)) now
                                    (snd (recalled inv now s))))))
       (Some (List.map memorySource
                (corrections (fst (applyMemories' inv (fst (recalled inv now s)) now
                                     (snd (recalled inv now s)))))));
     mkAudit step_decide now
       (Some (ap_confidence (fst (applyMemories' inv (fst (recalled inv now s)) now
                                    (snd (recalled inv now s))))))
       None;
     mkAudit step_learn now None None].
Proof.
  unfold processInvoice.
  destruct (recalled inv now s) as [memories s1]; cbn [fst snd].
  destruct (applyMemories' inv memories now s1) as [applied s2]; cbn [fst snd].
  destruct (makeDecision (ap_confidence applied) (corrections applied)); reflexivity.
Qed.

(** C8: the audit trail of every [processInvoice] call has exactly the four
    entries [recall], [apply], [decide], [learn], in this order. *)
Theorem processInvoice_audit_trail (inv : Invoice) (now : Z) (s : Store) :
  List.map step (auditTrail (fst (processInvoice' inv now s))) =
  [step_recall; step_apply; step_decide; step_learn].
Proof. rewrite processInvoice_stages. reflexivity. Qed.

(** C6: when no recalled memory produces a correction, [processInvoice]
    proposes no correction, scores the invoice 0.9 and does not require
    review, by the auto-accept rule. *)
Theorem processInvoice_nothing_to_change (inv : Invoice) (now : Z) (s : Store) :
  (forall m, In m (fst (recalled inv now s)) -> produces' inv m = None) ->
  proposedCorrections (fst (processInvoice' inv now s)) = []
  /\ confidenceScore (fst (processInvoice' inv now s)) = 0.9%Q
  /\ requiresHumanReview (fst (processInvoice' inv now s)) = false
  /\ reasoning (fst (processInvoice' inv now s)) = AUTO_ACCEPT.
Proof.
  intros Hnone. rewrite processInvoice_stages;
    cbn [proposedCorrections confidenceScore requiresHumanReview reasoning
         normalizedInvoice auditTrail].
  assert (Hom : omap (produces' inv) (fst (recalled inv now s)) = []).
  { induction (fst (recalled inv now s)) as [|m ms IH]; [reflexivity|].
    simpl. rewrite (Hnone m (or_introl eq_refl)).
    apply IH. intros m' Hm'. apply Hnone. right. exact Hm'. }
  rewrite applyMemories_corrections, applyMemories_confidence.
  rewrite appliedMemories_length, Hom. cbn [length Nat.ltb Nat.leb].
  rewrite makeDecision_auto_accept by (unfold Qle; simpl; lia).
  repeat split.
Qed.

(** C7: the confidence of the apply stage is the product of the
    confidences of the memories that produced a correction, times 0.7 once
    when two corrections of one field propose different values, and
    without that factor when no field receives two different values. *)
Theorem applyMemories_conflict_penalty (inv : Invoice) (memories : list Memory)
    (now : Z) (s : Store) :
  corrections (fst (applyMemories' inv memories now s)) = omap (produces' inv) memories
  /\ (conflicting JSON_stringify (corrections (fst (applyMemories' inv memories now s))) ->
      ap_confidence (fst (applyMemories' inv memories now s)) =
      (confidence_product (appliedMemories' inv memories) * 0.7)%Q)
  /\ (~ conflicting JSON_stringify (corrections (fst (applyMemories' inv memories now s))) ->
      ap_confidence (fst (applyMemories' inv memories now s)) =
      match appliedMemories' inv memories with
      | [] => 0.9%Q
      | _ :: _ => confidence_product (appliedMemories' inv memories)
      end).
Proof.
  rewrite applyMemories_corrections, applyMemories_confidence.
  split; [reflexivity|].
  pose proof (detectMemoryConflicts_spec JSON_stringify (omap (produces' inv) memories)) as Hspec.
  pose proof (appliedMemories_length regex_exec regex_compiles String_of inv memories) as Hlen.
  split.
  - intros Hconf. pose proof Hconf as (c1 & _ & Hin & _).
    apply Hspec in Hconf. rewrite Hconf.
    destruct (omap (produces' inv) memories) as [|c cs]; [inversion Hin|].
    rewrite Hlen. reflexivity.
  - intros Hno.
    destruct (0 <? length (detectMemoryConflicts JSON_stringify (omap (produces' inv) memories)))%nat
      eqn:E; [exfalso; apply Hno, Hspec; reflexivity|].
    destruct (appliedMemories' inv memories); reflexivity.
Qed.

(** A memory of a human correction above the threshold always produces
    its correction. *)
Lemma human_correction_produces inv m f v r a j :
  data m = CorrectionData f "human_correction" v r a j ->
  (0.5 <= confidence m)%Q ->
  exists c, produces' inv m = Some c /\ c_field c = f /\ proposedValue c = v
            /\ originalValue c = field_of inv f /\ memorySource c = mem_id m.
Proof.
  intros Hd Hc. unfold produces, applyMemory. rewrite Hd.
  assert (E : Qle_bool (memoryApplication thresholds) (confidence m) = true)
    by (apply Qle_bool_iff; exact Hc).
  rewrite E. unfold applyCorrectionMemory. simpl.
  eexists. split; [reflexivity|]. simpl. repeat split.
Qed.

(** C10: a recalled memory of a human correction whose confidence reaches
    0.5 yields a correction proposing its value, whatever the invoice holds
    in that field; the invoice then has a proposed correction and the
    auto-accept rule does not fire. *)
Theorem human_correction_always_proposed (inv : Invoice) (now : Z) (s : Store)
    (m : Memory) (f : string) (v : Json) (r : string) (a j : Z) :
  In m (fst (recalled inv now s)) ->
  data m = CorrectionData f "human_correction" v r a j ->
  (0.5 <= confidence m)%Q ->
  (exists c, In c (proposedCorrections (fst (processInvoice' inv now s)))
             /\ c_field c = f /\ proposedValue c = v
             /\ originalValue c = field_of inv f /\ memorySource c = mem_id m)
  /\ proposedCorrections (fst (processInvoice' inv now s)) <> []
  /\ reasoning (fst (processInvoice' inv now s)) <> AUTO_ACCEPT.
Proof.
  intros Hin Hd Hc.
  destruct (human_correction_produces inv m f v r a j Hd Hc) as (c & Hp & Hrest).
  rewrite processInvoice_stages;
    cbn [proposedCorrections confidenceScore requiresHumanReview reasoning
         normalizedInvoice auditTrail].
  rewrite applyMemories_corrections.
  assert (Hc_in : In c (omap (produces' inv) (fst (recalled inv now s)))).
  { apply list_elem_of_In, list_elem_of_omap. exists m.
    split; [apply list_elem_of_In; exact Hin|exact Hp]. }
  assert (Hne : omap (produces' inv) (fst (recalled inv now s)) <> [])
    by (intros Hnil; rewrite Hnil in Hc_in; inversion Hc_in).
  split; [exists c; split; assumption|].
  split; [exact Hne|].
  apply makeDecision_not_auto_accept. exact Hne.
Qed.

(** The normalized invoice of the result, as a value: it has the input's
    id, vendor, raw text and metadata; each extracted field holds the value
    proposed by the last proposed correction that names it, and the input's
    value when no correction names it. *)
Lemma normalizedInvoice_value (inv : Invoice) (now : Z) (s : Store) :
  inv_id (normalizedInvoice (fst (processInvoice' inv now s))) = inv_id inv
  /\ inv_vendor (normalizedInvoice (fst (processInvoice' inv now s))) = inv_vendor inv
  /\ rawText (normalizedInvoice (fst (processInvoice' inv now s))) = rawText inv
  /\ metadata (normalizedInvoice (fst (processInvoice' inv now s))) = metadata inv
  /\ forall f,
       extractedData (normalizedInvoice (fst (processInvoice' inv now s))) !! f =
       match last_for f (proposedCorrections (fst (processInvoice' inv now s))) with
       | Some c => Some (proposedValue c)
       | None => extractedData inv !! f
       end.
Proof.
  rewrite processInvoice_stages;
    cbn [proposedCorrections confidenceScore requiresHumanReview reasoning
         normalizedInvoice auditTrail].
  repeat split. intros f. apply applyCorrections_lookup.
Qed.

End PipelineFacts.

(** ** The pipeline on concrete invoices *)

Lemma processInvoice_nothing_to_change_witness :
  (forall m,
     In m (fst (processor_recallMemories stub_like invoice_no_currency 0 [mem_vendor_rule])) ->
     produces stub_exec stub_compiles stub_String invoice_no_currency m = None)
  /\ proposedCorrections
       (fst (processInvoice stub_like stub_exec stub_compiles stub_String stub_stringify
               invoice_no_currency 0 [mem_vendor_rule])) = []
  /\ confidenceScore
       (fst (processInvoice stub_like stub_exec stub_compiles stub_String stub_stringify
               invoice_no_currency 0 [mem_vendor_rule])) = 0.9%Q
  /\ requiresHumanReview
       (fst (processInvoice stub_like stub_exec stub_compiles stub_String stub_stringify
               invoice_no_currency 0 [mem_vendor_rule])) = false
  /\ reasoning
       (fst (processInvoice stub_like stub_exec stub_compiles stub_String stub_stringify
               invoice_no_currency 0 [mem_vendor_rule])) = AUTO_ACCEPT.
Proof.
  assert (H : forall m,
     In m (fst (processor_recallMemories stub_like invoice_no_currency 0 [mem_vendor_rule])) ->
     produces stub_exec stub_compiles stub_String invoice_no_currency m = None).
  { intros m Hin. vm_compute in Hin. destruct Hin as [<-|[]]. vm_compute. reflexivity. }
  split; [exact H|].
  exact (processInvoice_nothing_to_change stub_like stub_exec stub_compiles stub_String
           stub_stringify invoice_no_currency 0 [mem_vendor_rule] H).
Defined.

Lemma human_correction_always_proposed_witness :
  field_of invoice_zero_vat "vatAmount" = Some (JNum 0)
  /\ ((exists c,
         In c (proposedCorrections
                 (fst (processInvoice stub_like stub_exec stub_compiles stub_String
                         stub_stringify invoice_zero_vat 0 [mem_zero_vat])))
         /\ c_field c = "vatAmount"%string /\ proposedValue c = JNum 0
         /\ originalValue c = field_of invoice_zero_vat "vatAmount"
         /\ memorySource c = mem_id mem_zero_vat)
      /\ proposedCorrections
           (fst (processInvoice stub_like stub_exec stub_compiles stub_String
                   stub_stringify invoice_zero_vat 0 [mem_zero_vat])) <> []
      /\ reasoning
           (fst (processInvoice stub_like stub_exec stub_compiles stub_String
                   stub_stringify invoice_zero_vat 0 [mem_zero_vat])) <> AUTO_ACCEPT).
Proof.
  split; [reflexivity|].
  apply (human_correction_always_proposed stub_like stub_exec stub_compiles stub_String
           stub_stringify invoice_zero_vat 0 [mem_zero_vat] mem_zero_vat
           "vatAmount" (JNum 0) "Human correction" 0 0).
  - vm_compute. left. reflexivity.
  - reflexivity.
  - unfold Qle; simpl; lia.
Defined.

(** Two memories of human corrections propose EUR and USD for the currency
    of one invoice: both corrections are proposed, the normalized invoice
    holds EUR, and the correction proposing USD is not reflected in it. *)
Lemma normalized_invoice_keeps_last_value_only :
  exists c,
    In c (proposedCorrections
            (fst (processInvoice stub_like stub_exec stub_compiles stub_String stub_stringify
                    invoice_no_currency 0 [mem_eur; mem_usd])))
    /\ extractedData
         (normalizedInvoice
            (fst (processInvoice stub_like stub_exec stub_compiles stub_String stub_stringify
                    invoice_no_currency 0 [mem_eur; mem_usd]))) !! c_field c
       <> Some (proposedValue c).
Proof.
  exists usd_correction. split.
  - vm_compute. left. reflexivity.
  - vm_compute. intros H. discriminate H.
Qed.

(** The same run: the conflict costs one factor 0.7 on the product of the
    two confidences. *)
Example conflicting_currencies_confidence :
  confidenceScore
    (fst (processInvoice stub_like stub_exec stub_compiles stub_String stub_stringify
            invoice_no_currency 0 [mem_eur; mem_usd])) = (1 * 0.9 * 0.8 * 0.7)%Q.
Proof. reflexivity. Qed.

(** ** The store *)

Lemma In_insert_sorted (a x : Memory) (l : list Memory) :
  In x (insert_sorted a l) <-> x = a \/ In x l.
Proof.
  induction l as [|b l IH]; simpl.
  - intuition.
  - destruct (before a b); simpl; [intuition|]. rewrite IH. intuition.
Qed.

Lemma In_order_by (x : Memory) (l : list Memory) : In x (order_by l) <-> In x l.
Proof.
  unfold order_by. induction l as [|a l IH]; simpl; [reflexivity|].
  rewrite In_insert_sorted, IH. intuition.
Qed.

Lemma In_sql_limit (x : Memory) (n : Z) (l : list Memory) : In x (sql_limit n l) -> In x l.
Proof.
  unfold sql_limit. destruct (n <? 0); [auto|].
  generalize (Z.to_nat n). intros k. revert k.
  induction l as [|a l IH]; intros [|k]; simpl; try tauto.
  intros [->|H]; [left; reflexivity|right; exact (IH k H)].
Qed.

Lemma where_clause_active like q m : where_clause like q m = true -> isActive m = true.
Proof.
  unfold where_clause. intros H.
  repeat (apply andb_prop in H; destruct H as [H _]). exact H.
Qed.

(** A query returns rows of the table, and only active ones. *)
Lemma queryMemories_In like q s m :
  In m (queryMemories like q s) -> In m s /\ where_clause like q m = true.
Proof.
  unfold queryMemories. intros H.
  assert (H' : In m (order_by (List.filter (where_clause like q) s))).
  { destruct (int_truthy (q_limit q)); [apply In_sql_limit in H|]; exact H. }
  apply In_order_by, filter_In in H'. exact H'.
Qed.

Lemma find_by_id_Some id ms m : find_by_id id ms = Some m -> In m ms /\ mem_id m = id.
Proof.
  unfold find_by_id. intros H. apply find_some in H. destruct H as [Hin Hid].
  split; [exact Hin|]. apply String.eqb_eq. exact Hid.
Qed.

Lemma In_update_where id f s m :
  In m (update_where id f s) -> exists r, In r s /\ (m = f r \/ m = r).
Proof.
  unfold update_where. intros H. apply in_map_iff in H. destruct H as (r & Heq & Hin).
  exists r. split; [exact Hin|]. destruct (has_id id r); auto.
Qed.

Lemma In_saveMemory x m s :
  In x (saveMemory m s) <-> (In x s /\ mem_id x <> mem_id m) \/ x = m.
Proof.
  unfold saveMemory. rewrite in_app_iff, filter_In. simpl. unfold has_id.
  split.
  - intros [[Hin Hne]|[Heq|[]]]; [left|right; auto].
    split; [exact Hin|]. apply negb_true_iff, String.eqb_neq in Hne. exact Hne.
  - intros [[Hin Hne]|Heq]; [left|right; left; auto].
    split; [exact Hin|]. apply negb_true_iff, String.eqb_neq. exact Hne.
Qed.

Lemma Forall_update_where (P : Memory -> Prop) id f s :
  Forall P s -> (forall r, P r -> P (f r)) -> Forall P (update_where id f s).
Proof.
  intros Hs Hf. apply List.Forall_forall. intros m Hm.
  apply In_update_where in Hm. destruct Hm as (r & Hr & [->| ->]);
    [apply Hf|]; apply (proj1 (List.Forall_forall P s) Hs r Hr).
Qed.

Lemma Forall_saveMemory (P : Memory -> Prop) m s :
  Forall P s -> P m -> Forall P (saveMemory m s).
Proof.
  intros Hs Hm. apply List.Forall_forall. intros x Hx.
  apply In_saveMemory in Hx. destruct Hx as [[Hin _]| ->]; [|exact Hm].
  apply (proj1 (List.Forall_forall P s) Hs x Hin).
Qed.

(** ** Confidence stays in range *)

(** Replace every [Qmin] and [Qmax] of the goal by its two cases. *)
Ltac qminmax :=
  repeat match goal with
  | |- context [Qmin ?a ?b] =>
      let H := fresh "Hmin" in
      destruct (Q.min_spec a b) as [[? H]|[? H]]; rewrite H in *
  | |- context [Qmax ?a ?b] =>
      let H := fresh "Hmax" in
      destruct (Q.max_spec a b) as [[? H]|[? H]]; rewrite H in *
  end.

Lemma decay_factor_bounds (n : Z) :
  0 <= n -> (0 < CONFIDENCE_DECAY_RATE ^ n /\ CONFIDENCE_DECAY_RATE ^ n <= 1)%Q.
Proof.
  intros Hn. split; [apply Qpower_0_lt; reflexivity|].
  revert n Hn. apply natlike_ind.
  - simpl. apply Qle_refl.
  - intros x Hx IH. unfold Z.succ.
    rewrite Qpower_plus by (intros H; discriminate H).
    assert (Hpos : (0 < CONFIDENCE_DECAY_RATE ^ x)%Q) by (apply Qpower_0_lt; reflexivity).
    change (CONFIDENCE_DECAY_RATE ^ 1)%Q with 0.95%Q.
    lra.
Qed.

Lemma decayedConfidence_in_range now m :
  in_range m -> 7 < daysSinceLastUse now m ->
  (MIN_CONFIDENCE <= decayedConfidence now m <= MAX_CONFIDENCE)%Q.
Proof.
  unfold in_range, decayedConfidence, MIN_CONFIDENCE, MAX_CONFIDENCE.
  intros [Hlo Hhi] Hd.
  destruct (decay_factor_bounds (daysSinceLastUse now m - 7)) as [Hpos Hle]; [lia|].
  set (k := (CONFIDENCE_DECAY_RATE ^ (daysSinceLastUse now m - 7))%Q) in *.
  assert (Hprod : (confidence m * k <= confidence m)%Q).
  { nra. }
  qminmax; lra.
Qed.

Lemma set_confidence_in_range c now m :
  (MIN_CONFIDENCE <= c <= MAX_CONFIDENCE)%Q -> in_range (set_confidence c now m).
Proof. intros H. exact H. Qed.

Lemma decay_one_keeps_range now s m :
  in_range m -> store_in_range s -> store_in_range (decay_one now s m).
Proof.
  intros Hm Hs. unfold decay_one.
  destruct (7 <? daysSinceLastUse now m) eqn:Ed; [|exact Hs].
  apply Z.ltb_lt in Ed.
  destruct (negb (Qeq_bool (decayedConfidence now m) (confidence m))); [|exact Hs].
  apply Forall_update_where; [exact Hs|].
  intros r _. apply set_confidence_in_range, decayedConfidence_in_range; assumption.
Qed.

Lemma applyDecay_keeps_range now memories : forall s,
  Forall in_range memories -> store_in_range s ->
  store_in_range (applyDecayToUnusedMemories memories now s).
Proof.
  unfold applyDecayToUnusedMemories.
  induction memories as [|m ms IH]; intros s Hms Hs; simpl; [exact Hs|].
  inversion Hms; subst. apply IH; [assumption|].
  apply decay_one_keeps_range; assumption.
Qed.

Lemma queryMemories_in_range like q s :
  store_in_range s -> Forall in_range (queryMemories like q s).
Proof.
  intros Hs. apply List.Forall_forall. intros m Hm.
  apply queryMemories_In in Hm. destruct Hm as [Hin _].
  apply (proj1 (List.Forall_forall _ s) Hs m Hin).
Qed.

Lemma new_memory_in_range id v c now d :
  (MIN_CONFIDENCE <= c)%Q -> in_range (new_memory id v c now d).
Proof.
  unfold in_range, new_memory, MIN_CONFIDENCE, MAX_CONFIDENCE; simpl. intros Hc.
  qminmax; lra.
Qed.

Lemma found_in_range like id s m :
  store_in_range s -> find_by_id id (queryMemories like emptyQuery s) = Some m -> in_range m.
Proof.
  intros Hs Hf. apply find_by_id_Some in Hf. destruct Hf as [Hin _].
  apply (proj1 (List.Forall_forall _ _) (queryMemories_in_range like emptyQuery s Hs) m Hin).
Qed.

Lemma touch_in_range now m : in_range m -> in_range (touch now m).
Proof. intros H. exact H. Qed.

Lemma bump_approval_confidence m : confidence (bump_approval m) = confidence m.
Proof. unfold bump_approval. destruct (data m); reflexivity. Qed.

Lemma bump_rejection_confidence m : confidence (bump_rejection m) = confidence m.
Proof. unfold bump_rejection. destruct (data m); reflexivity. Qed.

Lemma bump_approval_in_range m : in_range m -> in_range (bump_approval m).
Proof. unfold in_range. rewrite bump_approval_confidence. auto. Qed.

Lemma bump_rejection_in_range m : in_range m -> in_range (bump_rejection m).
Proof. unfold in_range. rewrite bump_rejection_confidence. auto. Qed.

Lemma deactivate_in_range m : in_range m -> in_range (deactivate m).
Proof. intros H. exact H. Qed.

Section RangeFacts.

Variable sql_like : string -> string -> bool.

Lemma reinforceMemory_keeps_range id strength now s :
  store_in_range s -> (0 <= default 0.1%Q strength)%Q ->
  store_in_range (reinforceMemory sql_like id strength now s).
Proof.
  intros Hs Hk. unfold reinforceMemory.
  destruct (find_by_id id (queryMemories sql_like emptyQuery s)) as [memory|] eqn:Ef; [|exact Hs].
  pose proof (found_in_range sql_like id s memory Hs Ef) as [Hlo Hhi].
  assert (Hnew : (MIN_CONFIDENCE <=
                  Qmin (confidence memory + Qmin (default 0.1%Q strength) MAX_CONFIDENCE_INCREASE)
                       MAX_CONFIDENCE <= MAX_CONFIDENCE)%Q).
  { unfold MIN_CONFIDENCE, MAX_CONFIDENCE, MAX_CONFIDENCE_INCREASE in *. qminmax; lra. }
  assert (Hs2 : store_in_range
            (updateMemoryUsage id now
               (updateMemoryConfidence id
                  (Qmin (confidence memory + Qmin (default 0.1%Q strength) MAX_CONFIDENCE_INCREASE)
                        MAX_CONFIDENCE) now s))).
  { apply Forall_update_where; [|intros r Hr; apply touch_in_range; exact Hr].
    apply Forall_update_where; [exact Hs|].
    intros r _. apply set_confidence_in_range. exact Hnew. }
  destruct (is_correction memory); [|exact Hs2].
  apply Forall_saveMemory; [exact Hs2|].
  apply bump_approval_in_range. split; assumption.
Qed.

Lemma weakenMemory_keeps_range id strength now s :
  store_in_range s -> (0 <= default 0.2%Q strength)%Q ->
  store_in_range (weakenMemory sql_like id strength now s).
Proof.
  intros Hs Hk. unfold weakenMemory.
  destruct (find_by_id id (queryMemories sql_like emptyQuery s)) as [memory|] eqn:Ef; [|exact Hs].
  pose proof (found_in_range sql_like id s memory Hs Ef) as Hm.
  pose proof Hm as [Hlo Hhi].
  assert (Hnew : (MIN_CONFIDENCE <=
                  Qmax (confidence memory - Qmin (default 0.2%Q strength) 0.3) MIN_CONFIDENCE
                  <= MAX_CONFIDENCE)%Q).
  { unfold MIN_CONFIDENCE, MAX_CONFIDENCE in *. qminmax; lra. }
  assert (Hs1 : store_in_range
            (updateMemoryConfidence id
               (Qmax (confidence memory - Qmin (default 0.2%Q strength) 0.3) MIN_CONFIDENCE)
               now s)).
  { apply Forall_update_where; [exact Hs|].
    intros r _. apply set_confidence_in_range. exact Hnew. }
  assert (Hm' : in_range (if is_correction memory then bump_rejection memory else memory)).
  { destruct (is_correction memory); [apply bump_rejection_in_range|]; exact Hm. }
  assert (Hs2 : store_in_range
            (if is_correction memory
             then saveMemory (if is_correction memory then bump_rejection memory else memory)
                    (updateMemoryConfidence id
                       (Qmax (confidence memory - Qmin (default 0.2%Q strength) 0.3) MIN_CONFIDENCE)
                       now s)
             else updateMemoryConfidence id
                    (Qmax (confidence memory - Qmin (default 0.2%Q strength) 0.3) MIN_CONFIDENCE)
                    now s)).
  { destruct (is_correction memory); [apply Forall_saveMemory|]; assumption. }
  destruct (reaches_floor _ _); [|exact Hs2].
  apply Forall_saveMemory; [exact Hs2|]. apply deactivate_in_range. exact Hm'.
Qed.

Lemma recallMemories_keeps_range inv query now s :
  store_in_range s -> store_in_range (snd (recallMemories sql_like inv query now s)).
Proof.
  intros Hs. unfold recallMemories; simpl.
  apply applyDecay_keeps_range; [apply queryMemories_in_range|]; exact Hs.
Qed.

(** C1 (as amended): when every stored confidence lies in [[0.1, 0.95]],
    it still does after one creation with an initial confidence of at least
    0.1, one reinforcement or weakening with a strength that is not
    negative, or the decay of one recall. *)
Theorem run_op_keeps_range (now : Z) (o : Op) (s : Store) :
  store_in_range s -> op_in_domain o -> store_in_range (run_op sql_like now o s).
Proof.
  intros Hs [Hinit Hstrength].
  destruct o; simpl in *.
  - apply Forall_saveMemory; [exact Hs|]. apply new_memory_in_range. exact Hinit.
  - apply Forall_saveMemory; [exact Hs|]. apply new_memory_in_range. exact Hinit.
  - apply Forall_saveMemory; [exact Hs|]. apply new_memory_in_range. exact Hinit.
  - apply reinforceMemory_keeps_range; assumption.
  - apply weakenMemory_keeps_range; assumption.
  - apply recallMemories_keeps_range; assumption.
Qed.

End RangeFacts.

Lemma run_op_keeps_range_witness :
  store_in_range [mem_eur]
  /\ op_in_domain (OpWeaken "m-eur" (Some 0.3%Q))
  /\ store_in_range (run_op stub_like DAY (OpWeaken "m-eur" (Some 0.3%Q)) [mem_eur]).
Proof.
  assert (Hs : store_in_range [mem_eur]).
  { constructor; [|constructor]. split; unfold Qle; simpl; lia. }
  assert (Ho : op_in_domain (OpWeaken "m-eur" (Some 0.3%Q))).
  { split; [exact I|]. unfold Qle; simpl; lia. }
  split; [exact Hs|]. split; [exact Ho|].
  exact (run_op_keeps_range stub_like DAY (OpWeaken "m-eur" (Some 0.3%Q)) [mem_eur] Hs Ho).
Defined.

(** A creation with an initial confidence below the floor stores it as it
    is: only the cap at [MAX_CONFIDENCE] is applied. *)
Lemma create_stores_confidence_below_floor :
  exists m,
    In m (run_op stub_like 0
            (OpCreateVendor "Parts AG" "MwSt. inkl." action_vat_detection
               "vat_included_pattern" (Some 0.05%Q) "m-new") [])
    /\ (confidence m < MIN_CONFIDENCE)%Q.
Proof.
  eexists. split; [left; reflexivity|]. reflexivity.
Qed.

(** ** Logical deletion *)

Lemma bump_approval_id m : mem_id (bump_approval m) = mem_id m.
Proof. unfold bump_approval. destruct (data m); reflexivity. Qed.

Lemma bump_rejection_id m : mem_id (bump_rejection m) = mem_id m.
Proof. unfold bump_rejection. destruct (data m); reflexivity. Qed.

Lemma inactive_update_where id id' f s :
  (forall r, mem_id (f r) = mem_id r /\ isActive (f r) = isActive r) ->
  inactive_in id s -> inactive_in id (update_where id' f s).
Proof.
  intros Hf Hs m Hm Hid. apply In_update_where in Hm.
  destruct Hm as (r & Hr & [->| ->]); [|exact (Hs r Hr Hid)].
  destruct (Hf r) as [Hi Ha]. rewrite Ha. apply (Hs r Hr). congruence.
Qed.

Lemma inactive_saveMemory id m s :
  (mem_id m = id -> isActive m = false) ->
  inactive_in id s -> inactive_in id (saveMemory m s).
Proof.
  intros Hm Hs x Hx Hid. apply In_saveMemory in Hx.
  destruct Hx as [[Hin _]| ->]; [exact (Hs x Hin Hid)|exact (Hm Hid)].
Qed.

Lemma has_record_update_where id id' f s :
  (forall r, mem_id (f r) = mem_id r) ->
  has_record id s -> has_record id (update_where id' f s).
Proof.
  intros Hf (m & Hm & Hid). unfold update_where.
  exists (if has_id id' m then f m else m). split.
  - apply in_map_iff. exists m. auto.
  - destruct (has_id id' m); [rewrite Hf|]; exact Hid.
Qed.

Lemma has_record_saveMemory id m s : has_record id s -> has_record id (saveMemory m s).
Proof.
  intros (x & Hx & Hid).
  destruct (String.eqb (mem_id m) id) eqn:E.
  - apply String.eqb_eq in E. exists m. split; [apply In_saveMemory; right; reflexivity|exact E].
  - apply String.eqb_neq in E. exists x. split; [|exact Hid].
    apply In_saveMemory. left. split; [exact Hx|congruence].
Qed.

Lemma inactive_decay now id memories : forall s,
  inactive_in id s -> inactive_in id (applyDecayToUnusedMemories memories now s).
Proof.
  unfold applyDecayToUnusedMemories.
  induction memories as [|m ms IH]; intros s Hs; simpl; [exact Hs|].
  apply IH. unfold decay_one.
  destruct (7 <? daysSinceLastUse now m); [|exact Hs].
  destruct (negb _); [|exact Hs].
  apply inactive_update_where; [intros r; split; reflexivity|exact Hs].
Qed.

Lemma has_record_decay now id memories : forall s,
  has_record id s -> has_record id (applyDecayToUnusedMemories memories now s).
Proof.
  unfold applyDecayToUnusedMemories.
  induction memories as [|m ms IH]; intros s Hs; simpl; [exact Hs|].
  apply IH. unfold decay_one.
  destruct (7 <? daysSinceLastUse now m); [|exact Hs].
  destruct (negb _); [|exact Hs].
  apply has_record_update_where; [intros r; reflexivity|exact Hs].
Qed.

Section DeletionFacts.

Variable sql_like : string -> string -> bool.

(** A memory a query returns is not one that is inactive in the store. *)
Lemma queried_not_inactive id q s m :
  inactive_in id s -> In m (queryMemories sql_like q s) -> mem_id m <> id.
Proof.
  intros Hs Hm Hid. apply queryMemories_In in Hm. destruct Hm as [Hin Hw].
  apply where_clause_active in Hw. rewrite (Hs m Hin Hid) in Hw. discriminate Hw.
Qed.

Lemma recall_excludes_inactive id inv query now s m :
  inactive_in id s -> In m (fst (recallMemories sql_like inv query now s)) -> mem_id m <> id.
Proof.
  unfold recallMemories; simpl. intros Hs Hm.
  apply filter_In in Hm. destruct Hm as [Hm _].
  exact (queried_not_inactive id _ s m Hs Hm).
Qed.

Lemma found_not_inactive id id' s m :
  inactive_in id s -> find_by_id id' (queryMemories sql_like emptyQuery s) = Some m ->
  mem_id m <> id.
Proof.
  intros Hs Hf. apply find_by_id_Some in Hf. destruct Hf as [Hin _].
  exact (queried_not_inactive id _ s m Hs Hin).
Qed.

Lemma run_op_keeps_inactive id now o s :
  created_id o <> Some id -> inactive_in id s -> inactive_in id (run_op sql_like now o s).
Proof.
  intros Hnew Hs. destruct o; simpl in *.
  - apply inactive_saveMemory; [simpl; congruence|exact Hs].
  - apply inactive_saveMemory; [simpl; congruence|exact Hs].
  - apply inactive_saveMemory; [simpl; congruence|exact Hs].
  - unfold reinforceMemory.
    destruct (find_by_id memoryId (queryMemories sql_like emptyQuery s)) as [memory|] eqn:Ef;
      [|exact Hs].
    pose proof (found_not_inactive id memoryId s memory Hs Ef) as Hne.
    assert (H2 : inactive_in id
              (updateMemoryUsage memoryId now
                 (updateMemoryConfidence memoryId
                    (Qmin (confidence memory + Qmin (default 0.1%Q strength) MAX_CONFIDENCE_INCREASE)
                          MAX_CONFIDENCE) now s))).
    { apply inactive_update_where; [intros r; split; reflexivity|].
      apply inactive_update_where; [intros r; split; reflexivity|exact Hs]. }
    destruct (is_correction memory); [|exact H2].
    apply inactive_saveMemory; [|exact H2].
    rewrite bump_approval_id. intros Heq. contradiction.
  - unfold weakenMemory.
    destruct (find_by_id memoryId (queryMemories sql_like emptyQuery s)) as [memory|] eqn:Ef;
      [|exact Hs].
    pose proof (found_not_inactive id memoryId s memory Hs Ef) as Hne.
    assert (Hid' : mem_id (if is_correction memory then bump_rejection memory else memory) <> id).
    { destruct (is_correction memory); [rewrite bump_rejection_id|]; exact Hne. }
    assert (H1 : inactive_in id
              (updateMemoryConfidence memoryId
                 (Qmax (confidence memory - Qmin (default 0.2%Q strength) 0.3) MIN_CONFIDENCE)
                 now s)).
    { apply inactive_update_where; [intros r; split; reflexivity|exact Hs]. }
    assert (H2 : inactive_in id
              (if is_correction memory
               then saveMemory (if is_correction memory then bump_rejection memory else memory)
                      (updateMemoryConfidence memoryId
                         (Qmax (confidence memory - Qmin (default 0.2%Q strength) 0.3)
                               MIN_CONFIDENCE) now s)
               else updateMemoryConfidence memoryId
                      (Qmax (confidence memory - Qmin (default 0.2%Q strength) 0.3)
                            MIN_CONFIDENCE) now s)).
    { destruct (is_correction memory); [|exact H1].
      apply inactive_saveMemory; [intros Heq; contradiction|exact H1]. }
    destruct (reaches_floor _ _); [|exact H2].
    apply inactive_saveMemory; [intros _; reflexivity|exact H2].
  - unfold recallMemories; simpl. apply inactive_decay. exact Hs.
Qed.

Lemma run_op_keeps_record id now o s :
  has_record id s -> has_record id (run_op sql_like now o s).
Proof.
  intros Hs. destruct o; simpl.
  - apply has_record_saveMemory. exact Hs.
  - apply has_record_saveMemory. exact Hs.
  - apply has_record_saveMemory. exact Hs.
  - unfold reinforceMemory.
    destruct (find_by_id memoryId (queryMemories sql_like emptyQuery s)) as [memory|];
      [|exact Hs].
    assert (H2 : has_record id
              (updateMemoryUsage memoryId now
                 (updateMemoryConfidence memoryId
                    (Qmin (confidence memory + Qmin (default 0.1%Q strength) MAX_CONFIDENCE_INCREASE)
                          MAX_CONFIDENCE) now s))).
    { apply has_record_update_where; [intros r; reflexivity|].
      apply has_record_update_where; [intros r; reflexivity|exact Hs]. }
    destruct (is_correction memory); [apply has_record_saveMemory|]; exact H2.
  - unfold weakenMemory.
    destruct (find_by_id memoryId (queryMemories sql_like emptyQuery s)) as [memory|];
      [|exact Hs].
    assert (H1 : has_record id
              (updateMemoryConfidence memoryId
                 (Qmax (confidence memory - Qmin (default 0.2%Q strength) 0.3) MIN_CONFIDENCE)
                 now s)).
    { apply has_record_update_where; [intros r; reflexivity|exact Hs]. }
    destruct (is_correction memory); destruct (reaches_floor _ _);
      repeat apply has_record_saveMemory; exact H1.
  - unfold recallMemories; simpl. apply has_record_decay. exact Hs.
Qed.

Lemma run_ops_keep_inactive id ops : forall s,
  never_creates id ops -> inactive_in id s -> has_record id s ->
  inactive_in id (run_ops sql_like ops s) /\ has_record id (run_ops sql_like ops s).
Proof.
  unfold run_ops.
  induction ops as [|[now o] ops IH]; intros s Hnew Hs Hr; simpl; [split; assumption|].
  apply IH.
  - intros o' Ho'. apply Hnew. right. exact Ho'.
  - apply run_op_keeps_inactive; [apply (Hnew (now, o)); left; reflexivity|exact Hs].
  - apply run_op_keeps_record. exact Hr.
Qed.

(** A weakening that reaches the floor leaves one row for the memory, and
    that row is inactive. *)
Lemma weakenMemory_floor id strength now s memory :
  find_by_id id (queryMemories sql_like emptyQuery s) = Some memory ->
  reaches_floor (confidence memory) strength = true ->
  inactive_in id (weakenMemory sql_like id strength now s)
  /\ has_record id (weakenMemory sql_like id strength now s).
Proof.
  intros Hf Hfloor. unfold weakenMemory. rewrite Hf, Hfloor.
  destruct (find_by_id_Some _ _ _ Hf) as [_ Hid].
  assert (Hid' : mem_id (deactivate (if is_correction memory
                                     then bump_rejection memory else memory)) = id).
  { simpl. destruct (is_correction memory); [rewrite bump_rejection_id|]; exact Hid. }
  split.
  - intros x Hx Hxid. apply In_saveMemory in Hx.
    destruct Hx as [[_ Hne]| ->]; [|reflexivity].
    exfalso. apply Hne. rewrite Hid'. exact Hxid.
  - exists (deactivate (if is_correction memory then bump_rejection memory else memory)).
    split; [apply In_saveMemory; right; reflexivity|exact Hid'].
Qed.

(** C4: a memory that [weakenMemory] drives to the floor of 0.1, that is,
    for which the new confidence the call computes passes its test
    [newConfidence <= MIN_CONFIDENCE], is inactive in the store afterwards;
    its row remains, and after any further calls of the manager no
    [recallMemories], for any invoice and filter, returns it. *)
Theorem weakened_to_floor_never_recalled (id : string) (strength : option Q) (now : Z)
    (s : Store) (memory : Memory) (ops : list (Z * Op))
    (inv : Invoice) (query : PartialQuery) (later : Z) :
  find_by_id id (queryMemories sql_like emptyQuery s) = Some memory ->
  reaches_floor (confidence memory) strength = true ->
  never_creates id ops ->
  inactive_in id (weakenMemory sql_like id strength now s)
  /\ has_record id (weakenMemory sql_like id strength now s)
  /\ has_record id (run_ops sql_like ops (weakenMemory sql_like id strength now s))
  /\ forall m,
       In m (fst (recallMemories sql_like inv query later
                    (run_ops sql_like ops (weakenMemory sql_like id strength now s)))) ->
       mem_id m <> id.
Proof.
  intros Hf Hfloor Hnew.
  destruct (weakenMemory_floor id strength now s memory Hf Hfloor) as [Hin Hrec].
  destruct (run_ops_keep_inactive id ops _ Hnew Hin Hrec) as [Hin' Hrec'].
  repeat split; try assumption.
  intros m Hm. exact (recall_excludes_inactive id inv query later _ m Hin' Hm).
Qed.

End DeletionFacts.

Lemma weakened_to_floor_never_recalled_witness :
  find_by_id "m-low" (queryMemories stub_like emptyQuery [mem_low; mem_eur]) = Some mem_low
  /\ inactive_in "m-low" (weakenMemory stub_like "m-low" None DAY [mem_low; mem_eur])
  /\ has_record "m-low" (weakenMemory stub_like "m-low" None DAY [mem_low; mem_eur])
  /\ has_record "m-low"
       (run_ops stub_like later_calls (weakenMemory stub_like "m-low" None DAY [mem_low; mem_eur]))
  /\ forall m,
       In m (fst (recallMemories stub_like invoice_no_currency emptyPartial (5 * DAY)
                    (run_ops stub_like later_calls
                       (weakenMemory stub_like "m-low" None DAY [mem_low; mem_eur])))) ->
       mem_id m <> "m-low"%string.
Proof.
  split; [reflexivity|].
  apply (weakened_to_floor_never_recalled stub_like "m-low" None DAY [mem_low; mem_eur]
           mem_low later_calls invoice_no_currency emptyPartial (5 * DAY)).
  - reflexivity.
  - vm_compute. reflexivity.
  - intros o Ho. simpl in Ho.
    destruct Ho as [<-|[<-|[<-|[]]]]; simpl; congruence.
Defined.

(** ** Reinforcement and recall on concrete stores *)

(** C3 at a correction memory: the stored confidence, usage count and
    last-used time are those from before the call; only [approvalCount]
    changed.  The specification gives confidence 0.9, usage count 1 and a
    last-used time of [DAY]. *)
Theorem reinforce_correction_memory_keeps_old_row :
  reinforceMemory stub_like "m-eur" (Some 0.1%Q) DAY [mem_eur] =
  [mkMemory "m-eur" "Parts AG" 0.8 0 0 None 0 true
     (CorrectionData "currency" "human_correction" (JStr "EUR") "Human correction" 1 0)].
Proof. reflexivity. Qed.

(** On a vendor memory the same call stores what the specification says. *)
Example reinforce_vendor_memory :
  reinforceMemory stub_like "m-low" (Some 0.1%Q) DAY [mem_low] =
  [mkMemory "m-low" "Parts AG" (Qmin (0.3 + Qmin 0.1 0.1) 0.95) 3 0 (Some DAY) DAY true
     (VendorData "MwSt. inkl." action_vat_detection "vat_included_pattern")].
Proof. reflexivity. Qed.

(** C2 at a memory unused for forty days: [recallMemories] returns it with
    the confidence 0.8 it was fetched with, while the store holds its
    decayed confidence, which is below the minimum of 0.3.  The
    specification leaves it out of the returned list. *)
Theorem recall_returns_confidence_before_decay :
  fst (recallMemories stub_like invoice_no_currency emptyPartial (40 * DAY) [mem_eur]) = [mem_eur]
  /\ List.map mem_id
       (snd (recallMemories stub_like invoice_no_currency emptyPartial (40 * DAY) [mem_eur]))
     = [mem_id mem_eur]
  /\ List.map confidence
       (snd (recallMemories stub_like invoice_no_currency emptyPartial (40 * DAY) [mem_eur]))
     = [decayedConfidence (40 * DAY) mem_eur]
  /\ (decayedConfidence (40 * DAY) mem_eur < 0.3)%Q.
Proof.
  split; [vm_compute; reflexivity|].
  split; [vm_compute; reflexivity|].
  split; vm_compute; reflexivity.
Qed.

(** A negative strength passes the one-sided bounds of [reinforceMemory]
    and [weakenMemory]. *)
Example reinforce_negative_strength :
  exists m, In m (reinforceMemory stub_like "m-low" (Some (-1)%Q) DAY [mem_low])
            /\ (confidence m < MIN_CONFIDENCE)%Q.
Proof. eexists. split; [left; reflexivity|reflexivity]. Qed.

Example weaken_negative_strength :
  exists m, In m (weakenMemory stub_like "m-low" (Some (-1)%Q) DAY [mem_low])
            /\ (MAX_CONFIDENCE < confidence m)%Q.
Proof. eexists. split; [left; reflexivity|reflexivity]. Qed.

(** ** What reinforcement stores, in general *)

Section ReinforceFacts.

Variable sql_like : string -> string -> bool.

(** For a memory that is not a correction memory, the row gets the new
    confidence, one more use and the time of the call. *)
Lemma reinforceMemory_other_types id strength now s memory :
  find_by_id id (queryMemories sql_like emptyQuery s) = Some memory ->
  is_correction memory = false ->
  reinforceMemory sql_like id strength now s =
  List.map (fun r => if has_id id r
                     then mkMemory (mem_id r) (mem_vendor r) (reinforced memory strength)
                            (usageCount r + 1) (createdAt r) (Some now) now (isActive r) (data r)
                     else r) s.
Proof.
  intros Hf Hc. unfold reinforceMemory. rewrite Hf, Hc.
  unfold updateMemoryUsage, updateMemoryConfidence, update_where.
  rewrite List.map_map. apply List.map_ext. intros r.
  destruct (has_id id r) eqn:E; [|rewrite E; reflexivity].
  change (has_id id (set_confidence _ now r)) with (has_id id r). rewrite E. reflexivity.
Qed.

(** For a correction memory, the row is the object the query returned with
    [approvalCount] incremented: the confidence, usage count and last-used
    time written by the two updates are overwritten by the old ones. *)
Lemma reinforceMemory_correction id strength now s memory x :
  find_by_id id (queryMemories sql_like emptyQuery s) = Some memory ->
  is_correction memory = true ->
  In x (reinforceMemory sql_like id strength now s) -> mem_id x = id ->
  x = bump_approval memory
  /\ confidence x = confidence memory
  /\ usageCount x = usageCount memory
  /\ lastUsedAt x = lastUsedAt memory.
Proof.
  intros Hf Hc Hx Hid. unfold reinforceMemory in Hx. rewrite Hf, Hc in Hx.
  destruct (find_by_id_Some _ _ _ Hf) as [_ Hmid].
  apply In_saveMemory in Hx. destruct Hx as [[_ Hne]| ->].
  - exfalso. apply Hne. rewrite bump_approval_id. congruence.
  - split; [reflexivity|]. unfold bump_approval. destruct (data memory); repeat split.
Qed.

End ReinforceFacts.

(** ** What a recall stores, in general *)

(** The rows of a decayed memory hold the result of the decay rule. *)
Lemma decay_one_sets now s a :
  (forall r, In r s -> mem_id r = mem_id a ->
             (confidence r == confidence a \/ confidence r == decay_result now a)%Q) ->
  forall r, In r (decay_one now s a) -> mem_id r = mem_id a ->
            (confidence r == decay_result now a)%Q.
Proof.
  intros Hs r Hr Hid. unfold decay_one, decay_result in *.
  destruct (7 <? daysSinceLastUse now a).
  - destruct (Qeq_bool (decayedConfidence now a) (confidence a)) eqn:E; simpl in Hr.
    + apply Qeq_bool_iff in E. destruct (Hs r Hr Hid) as [H|H]; [|exact H].
      rewrite H. symmetry. exact E.
    + unfold updateMemoryConfidence, update_where in Hr.
      apply in_map_iff in Hr. destruct Hr as (r0 & Heq & _).
      destruct (has_id (mem_id a) r0) eqn:Eid.
      * subst r. reflexivity.
      * subst r0. unfold has_id in Eid. apply String.eqb_neq in Eid. contradiction.
  - destruct (Hs r Hr Hid) as [H|H]; exact H.
Qed.

(** The rows of the other memories are left as they are. *)
Lemma decay_one_other now s a r :
  In r (decay_one now s a) -> mem_id r <> mem_id a -> In r s.
Proof.
  intros Hr Hne. unfold decay_one in Hr.
  destruct (7 <? daysSinceLastUse now a); [|exact Hr].
  destruct (negb _); [|exact Hr].
  unfold updateMemoryConfidence, update_where in Hr.
  apply in_map_iff in Hr. destruct Hr as (r0 & Heq & Hin).
  destruct (has_id (mem_id a) r0) eqn:Eid.
  - subst r. unfold has_id in Eid. apply String.eqb_eq in Eid. simpl in Hne. contradiction.
  - subst r0. exact Hin.
Qed.

Lemma decay_loop now (U : list Memory) :
  (forall m1 m2, In m1 U -> In m2 U -> mem_id m1 = mem_id m2 -> m1 = m2) ->
  forall (L : list Memory) (s : Store) (P : Memory -> Prop),
    (forall m, In m L -> In m U) ->
    (forall m, P m -> In m U) ->
    (forall m r, In m U -> In r s -> mem_id r = mem_id m ->
                 (confidence r == confidence m \/ confidence r == decay_result now m)%Q) ->
    (forall m r, P m -> In r s -> mem_id r = mem_id m ->
                 (confidence r == decay_result now m)%Q) ->
    forall m r, P m \/ In m L ->
                In r (applyDecayToUnusedMemories L now s) -> mem_id r = mem_id m ->
                (confidence r == decay_result now m)%Q.
Proof.
  intros Huniq. unfold applyDecayToUnusedMemories.
  induction L as [|a L IH]; intros s P HL HP Hinv Hdone m r Hm Hr Hid; simpl in Hr.
  - destruct Hm as [Hm|[]]. exact (Hdone m r Hm Hr Hid).
  - assert (Ha : In a U) by (apply HL; left; reflexivity).
    assert (Hset : forall x, In x (decay_one now s a) -> mem_id x = mem_id a ->
                             (confidence x == decay_result now a)%Q).
    { apply decay_one_sets. intros x Hx Hxid. exact (Hinv a x Ha Hx Hxid). }
    apply (IH (decay_one now s a) (fun x => P x \/ x = a)); try assumption.
    + intros x Hx. apply HL. right. exact Hx.
    + intros x [Hx| ->]; [apply HP; exact Hx|exact Ha].
    + intros x y Hx Hy Hxy.
      destruct (String.eqb (mem_id x) (mem_id a)) eqn:E.
      * apply String.eqb_eq in E. rewrite (Huniq x a Hx Ha E) in *.
        right. apply Hset; assumption.
      * apply String.eqb_neq in E. apply (Hinv x y Hx); [|exact Hxy].
        apply (decay_one_other now s a); [exact Hy|congruence].
    + intros x y [Hx| ->] Hy Hxy; [|apply Hset; assumption].
      destruct (String.eqb (mem_id x) (mem_id a)) eqn:E.
      * apply String.eqb_eq in E. rewrite (Huniq x a (HP x Hx) Ha E) in *.
        apply Hset; assumption.
      * apply String.eqb_neq in E. apply (Hdone x y Hx); [|exact Hxy].
        apply (decay_one_other now s a); [exact Hy|congruence].
    + destruct Hm as [Hm|[<-|Hm]]; [left; left; exact Hm|left; right; reflexivity|right; exact Hm].
Qed.

Lemma distinct_ids (s : Store) (m1 m2 : Memory) :
  List.NoDup (List.map mem_id s) -> In m1 s -> In m2 s -> mem_id m1 = mem_id m2 -> m1 = m2.
Proof.
  induction s as [|a s IH]; simpl; intros Hnd H1 H2 Hid; [contradiction|].
  inversion Hnd as [|? ? Hnotin Hnd']; subst.
  destruct H1 as [->|H1], H2 as [->|H2]; auto.
  - exfalso. apply Hnotin. rewrite Hid. apply in_map. exact H2.
  - exfalso. apply Hnotin. rewrite <- Hid. apply in_map. exact H1.
Qed.

Section RecallFacts.

Variable sql_like : string -> string -> bool.

(** The list [recallMemories] returns is made of rows as they were before
    the call, those whose confidence then reached the minimum. *)
Lemma recallMemories_returns_old_rows inv query now s m :
  In m (fst (recallMemories sql_like inv query now s)) <->
  In m (queryMemories sql_like (fullQuery inv query) s)
  /\ (minConfidence_or_default (fullQuery inv query) <= confidence m)%Q.
Proof.
  unfold recallMemories; simpl. rewrite filter_In, Qle_bool_iff. reflexivity.
Qed.

(** In a store whose ids are distinct, after [recallMemories] the row of
    each fetched memory holds its confidence times
    [0.95 ^ (daysSinceLastUse - 7)], floored at 0.1, when it was last used
    more than seven days ago, and its confidence otherwise. *)
Lemma recallMemories_stores_decay inv query now s m r :
  List.NoDup (List.map mem_id s) ->
  In m (queryMemories sql_like (fullQuery inv query) s) ->
  In r (snd (recallMemories sql_like inv query now s)) -> mem_id r = mem_id m ->
  (confidence r == decay_result now m)%Q.
Proof.
  intros Hnd Hm Hr Hid. unfold recallMemories in Hr; simpl in Hr.
  apply (decay_loop now s (fun m1 m2 => distinct_ids s m1 m2 Hnd)
           (queryMemories sql_like (fullQuery inv query) s) s (fun _ => False)); try assumption.
  - intros x Hx. apply queryMemories_In in Hx. tauto.
  - intros x [].
  - intros x y Hx Hy Hxy. left. rewrite (distinct_ids s y x Hnd Hy Hx Hxy). reflexivity.
  - intros x y [].
  - right. exact Hm.
Qed.

End RecallFacts.

(** * Further properties of the decision function *)

Lemma all_reliable_spec (cs : list Correction) :
  all_reliable cs = true <-> forall c, In c cs -> (0.7 <= c_confidence c)%Q.
Proof.
  unfold all_reliable. rewrite forallb_forall.
  split; intros H c Hc; [apply Qle_bool_iff|apply Qle_bool_iff]; exact (H c Hc).
Qed.

Lemma makeDecision_review (conf : Q) (cs : list Correction) :
  fst (makeDecision conf cs) = negb (Qle_bool 0.65 conf && all_reliable cs).
Proof.
  unfold makeDecision, thresholds; simpl.
  destruct (Qle_bool 0.65 conf) eqn:E2.
  - destruct (all_reliable cs) eqn:Er; simpl.
    + destruct (Qle_bool 0.85 conf && (length cs =? 0)%nat); reflexivity.
    + destruct cs as [|c cs']; [discriminate Er|].
      simpl length. cbn [Nat.eqb]. rewrite andb_false_r.
      destruct (negb (Qle_bool 0.4 conf)); [reflexivity|].
      destruct (0 <? length (assessRiskFactors (c :: cs')))%nat; reflexivity.
  - assert (E1 : Qle_bool 0.85 conf = false).
    { apply Qle_bool_false. apply Qle_bool_false in E2. lra. }
    rewrite E1. simpl.
    destruct (negb (Qle_bool 0.4 conf)); [reflexivity|].
    destruct (0 <? length (assessRiskFactors cs))%nat; reflexivity.
Qed.

Lemma makeDecision_rule_auto_accept (conf : Q) (cs : list Correction) :
  snd (makeDecision conf cs) = AUTO_ACCEPT
  <-> Qle_bool 0.85 conf && (length cs =? 0)%nat = true.
Proof.
  unfold makeDecision, thresholds; simpl.
  destruct (Qle_bool 0.85 conf && (length cs =? 0)%nat); [split; reflexivity|].
  destruct (Qle_bool 0.65 conf && all_reliable cs); [split; intros H; discriminate H|].
  destruct (negb (Qle_bool 0.4 conf)); [split; intros H; discriminate H|].
  destruct (0 <? length (assessRiskFactors cs))%nat; split; intros H; discriminate H.
Qed.

(** An invoice is processed without review exactly when the confidence is
    at least 0.65 and every correction has a confidence of at least 0.7; the
    rule that fires is auto-accept exactly when, in addition, the confidence
    is at least 0.85 and there is no correction. *)
Theorem makeDecision_no_review_iff (conf : Q) (cs : list Correction) :
  (fst (makeDecision conf cs) = false
   <-> (0.65 <= conf)%Q /\ forall c, In c cs -> (0.7 <= c_confidence c)%Q)
  /\ (snd (makeDecision conf cs) = AUTO_ACCEPT <-> (0.85 <= conf)%Q /\ cs = []).
Proof.
  split.
  - rewrite makeDecision_review, negb_false_iff, andb_true_iff.
    rewrite Qle_bool_iff, all_reliable_spec. reflexivity.
  - rewrite makeDecision_rule_auto_accept, andb_true_iff, Qle_bool_iff.
    destruct cs; simpl; split; intros [H1 H2]; split; auto; discriminate.
Qed.

Lemma filter_length_Permutation {A : Type} (p : A -> bool) (l l' : list A) :
  Permutation l l' -> length (List.filter p l) = length (List.filter p l').
Proof.
  induction 1 as [|x l l' _ IH|x y l|l l' l'' _ IH1 _ IH2]; simpl.
  - reflexivity.
  - destruct (p x); simpl; congruence.
  - destruct (p x), (p y); reflexivity.
  - congruence.
Qed.

Lemma forallb_Permutation {A : Type} (p : A -> bool) (l l' : list A) :
  Permutation l l' -> forallb p l = forallb p l'.
Proof.
  induction 1 as [|x l l' _ IH|x y l|l l' l'' _ IH1 _ IH2]; simpl.
  - reflexivity.
  - congruence.
  - destruct (p x), (p y); reflexivity.
  - congruence.
Qed.

(** The decision and the rule that fires do not depend on the order of the
    corrections. *)
Theorem makeDecision_order_independent (conf : Q) (cs cs' : list Correction) :
  Permutation cs cs' -> makeDecision conf cs = makeDecision conf cs'.
Proof.
  intros Hp. unfold makeDecision, assessRiskFactors, all_reliable.
  rewrite (Permutation_length Hp).
  rewrite (forallb_Permutation _ _ _ Hp).
  rewrite (filter_length_Permutation (fun c => is_financial (c_field c)) _ _ Hp).
  rewrite (filter_length_Permutation (fun c => negb (Qle_bool 0.6 (c_confidence c))) _ _ Hp).
  reflexivity.
Qed.

Lemma makeDecision_order_independent_witness :
  makeDecision 0.5 [reliable_correction; unreliable_correction]
  = makeDecision 0.5 [unreliable_correction; reliable_correction].
Proof.
  apply (makeDecision_order_independent 0.5
           [reliable_correction; unreliable_correction]
           [unreliable_correction; reliable_correction]).
  apply perm_swap.
Defined.

(** * Further properties of the store and the manager *)

Lemma find_by_id_None id (l : list Memory) :
  (forall m, In m l -> mem_id m <> id) -> find_by_id id l = None.
Proof.
  intros H. unfold find_by_id. destruct (List.find (has_id id) l) as [m|] eqn:E; [|reflexivity].
  apply find_some in E. destruct E as [Hin Hid]. apply String.eqb_eq in Hid.
  exfalso. exact (H m Hin Hid).
Qed.

Section StoreFacts.

Variable sql_like : string -> string -> bool.

(** Without a limit, a query returns exactly the rows its [WHERE] clause
    accepts. *)
Lemma queryMemories_unlimited q s m :
  int_truthy (q_limit q) = None ->
  In m (queryMemories sql_like q s) <-> In m s /\ where_clause sql_like q m = true.
Proof.
  intros Hl. unfold queryMemories. rewrite Hl, In_order_by, filter_In. reflexivity.
Qed.

(** Reinforcing or weakening an identifier that no active memory carries,
    be it unknown or deactivated, leaves the store as it is. *)
Theorem unknown_or_inactive_id_is_noop (id : string) (strength : option Q) (now : Z)
    (s : Store) :
  inactive_in id s ->
  reinforceMemory sql_like id strength now s = s
  /\ weakenMemory sql_like id strength now s = s.
Proof.
  intros Hin.
  assert (Hf : find_by_id id (queryMemories sql_like emptyQuery s) = None).
  { apply find_by_id_None. intros m Hm. exact (queried_not_inactive sql_like id _ s m Hin Hm). }
  unfold reinforceMemory, weakenMemory. rewrite Hf. split; reflexivity.
Qed.

(** A saved memory is found again by its identifier when it is active, and
    is not found when it is inactive, whatever the store held before. *)
Theorem saveMemory_then_find (m : Memory) (s : Store) :
  find_by_id (mem_id m) (queryMemories sql_like emptyQuery (saveMemory m s))
  = if isActive m then Some m else None.
Proof.
  destruct (find_by_id (mem_id m) (queryMemories sql_like emptyQuery (saveMemory m s)))
    as [x|] eqn:E.
  - apply find_by_id_Some in E. destruct E as [Hin Hid].
    apply queryMemories_In in Hin. destruct Hin as [Hin Hw].
    apply where_clause_active in Hw.
    apply In_saveMemory in Hin. destruct Hin as [[_ Hne]| ->]; [contradiction|].
    rewrite Hw. reflexivity.
  - destruct (isActive m) eqn:Ea; [|reflexivity].
    exfalso. unfold find_by_id in E.
    assert (Hm : In m (queryMemories sql_like emptyQuery (saveMemory m s))).
    { apply queryMemories_unlimited; [reflexivity|]. split.
      - apply In_saveMemory. right. reflexivity.
      - unfold where_clause; simpl. rewrite Ea. reflexivity. }
    pose proof (find_none _ _ E m Hm) as Hid. unfold has_id in Hid.
    rewrite String.eqb_refl in Hid. discriminate Hid.
Qed.

End StoreFacts.

Lemma unknown_or_inactive_id_is_noop_witness :
  inactive_in "m-old" [mem_retired; mem_eur]
  /\ reinforceMemory stub_like "m-old" None DAY [mem_retired; mem_eur] = [mem_retired; mem_eur]
  /\ weakenMemory stub_like "m-old" None DAY [mem_retired; mem_eur] = [mem_retired; mem_eur].
Proof.
  assert (H : inactive_in "m-old" [mem_retired; mem_eur]).
  { intros m [<-|[<-|[]]] Hid; [reflexivity|discriminate Hid]. }
  split; [exact H|].
  exact (unknown_or_inactive_id_is_noop stub_like "m-old" None DAY [mem_retired; mem_eur] H).
Defined.

(** ** Identifiers stay distinct *)

Lemma ids_update_where id f (s : Store) :
  (forall r, mem_id (f r) = mem_id r) ->
  List.map mem_id (update_where id f s) = List.map mem_id s.
Proof.
  intros Hf. unfold update_where. rewrite List.map_map. apply List.map_ext.
  intros r. destruct (has_id id r); [apply Hf|reflexivity].
Qed.

Lemma ids_decay now memories : forall s,
  List.map mem_id (applyDecayToUnusedMemories memories now s) = List.map mem_id s.
Proof.
  unfold applyDecayToUnusedMemories.
  induction memories as [|m ms IH]; intros s; simpl; [reflexivity|].
  rewrite IH. unfold decay_one.
  destruct (7 <? daysSinceLastUse now m); [|reflexivity].
  destruct (negb _); [|reflexivity].
  apply ids_update_where. intros r. reflexivity.
Qed.

Lemma NoDup_ids_filter (p : Memory -> bool) (s : Store) :
  List.NoDup (List.map mem_id s) -> List.NoDup (List.map mem_id (List.filter p s)).
Proof.
  induction s as [|a s IH]; simpl; intros Hnd; [constructor|].
  inversion Hnd as [|? ? Hnotin Hnd']; subst.
  destruct (p a); simpl; [|apply IH; exact Hnd'].
  constructor; [|apply IH; exact Hnd'].
  intros Hin. apply Hnotin. apply in_map_iff in Hin. destruct Hin as (x & Hx & Hxin).
  apply filter_In in Hxin. apply in_map_iff. exists x. tauto.
Qed.

Lemma NoDup_snoc {A : Type} (l : list A) (x : A) :
  List.NoDup l -> ~ In x l -> List.NoDup (l ++ [x]).
Proof.
  induction l as [|a l IH]; simpl; intros Hnd Hx.
  - constructor; [intros []|constructor].
  - inversion Hnd as [|? ? Hnotin Hnd']; subst. constructor.
    + intros H. apply in_app_or in H. destruct H as [H|[H|[]]].
      * exact (Hnotin H).
      * apply Hx. left. symmetry. exact H.
    + apply IH; [exact Hnd'|]. intros H. apply Hx. right. exact H.
Qed.

Lemma saveMemory_distinct (m : Memory) (s : Store) :
  List.NoDup (List.map mem_id s) -> List.NoDup (List.map mem_id (saveMemory m s)).
Proof.
  intros Hnd. unfold saveMemory. rewrite List.map_app. simpl.
  apply NoDup_snoc; [apply NoDup_ids_filter; exact Hnd|].
  intros Hin. apply in_map_iff in Hin. destruct Hin as (x & Hx & Hxin).
  apply filter_In in Hxin. destruct Hxin as [_ Hne].
  unfold has_id in Hne. apply negb_true_iff, String.eqb_neq in Hne. contradiction.
Qed.

Section DistinctFacts.

Variable sql_like : string -> string -> bool.

Lemma recall_ids inv query now s :
  List.map mem_id (snd (recallMemories sql_like inv query now s)) = List.map mem_id s.
Proof. unfold recallMemories; simpl. apply ids_decay. Qed.

Lemma reinforce_distinct id strength now s :
  List.NoDup (List.map mem_id s) ->
  List.NoDup (List.map mem_id (reinforceMemory sql_like id strength now s)).
Proof.
  intros Hnd. unfold reinforceMemory.
  destruct (find_by_id id (queryMemories sql_like emptyQuery s)) as [memory|]; [|exact Hnd].
  assert (H2 : List.NoDup (List.map mem_id
            (updateMemoryUsage id now
               (updateMemoryConfidence id
                  (Qmin (confidence memory + Qmin (default 0.1%Q strength) MAX_CONFIDENCE_INCREASE)
                        MAX_CONFIDENCE) now s)))).
  { unfold updateMemoryUsage, updateMemoryConfidence.
    rewrite !ids_update_where by (intros r; reflexivity). exact Hnd. }
  destruct (is_correction memory); [apply saveMemory_distinct|]; exact H2.
Qed.

Lemma weaken_distinct id strength now s :
  List.NoDup (List.map mem_id s) ->
  List.NoDup (List.map mem_id (weakenMemory sql_like id strength now s)).
Proof.
  intros Hnd. unfold weakenMemory.
  destruct (find_by_id id (queryMemories sql_like emptyQuery s)) as [memory|]; [|exact Hnd].
  assert (H1 : List.NoDup (List.map mem_id
            (updateMemoryConfidence id
               (Qmax (confidence memory - Qmin (default 0.2%Q strength) 0.3) MIN_CONFIDENCE)
               now s))).
  { unfold updateMemoryConfidence.
    rewrite ids_update_where by (intros r; reflexivity). exact Hnd. }
  destruct (is_correction memory); destruct (reaches_floor _ _);
    repeat apply saveMemory_distinct; exact H1.
Qed.

(** Whatever the call, the identifiers of the store stay distinct: a
    creation that draws an identifier in use replaces that memory. *)
Theorem run_op_keeps_ids_distinct (now : Z) (o : Op) (s : Store) :
  List.NoDup (List.map mem_id s) -> List.NoDup (List.map mem_id (run_op sql_like now o s)).
Proof.
  intros Hnd. destruct o; cbn [run_op].
  - apply saveMemory_distinct. exact Hnd.
  - apply saveMemory_distinct. exact Hnd.
  - apply saveMemory_distinct. exact Hnd.
  - apply reinforce_distinct. exact Hnd.
  - apply weaken_distinct. exact Hnd.
  - rewrite recall_ids. exact Hnd.
Qed.

End DistinctFacts.

Lemma run_op_keeps_ids_distinct_witness :
  List.NoDup (List.map mem_id [mem_low; mem_eur])
  /\ List.NoDup
       (List.map mem_id
          (run_op stub_like DAY
             (OpCreateCorrection "Parts AG" "currency" "human_correction" (JStr "USD")
                "Human correction" None "m-eur")
             [mem_low; mem_eur])).
Proof.
  assert (H : List.NoDup (List.map mem_id [mem_low; mem_eur])).
  { simpl. repeat constructor; simpl; intuition discriminate. }
  split; [exact H|].
  exact (run_op_keeps_ids_distinct stub_like DAY
           (OpCreateCorrection "Parts AG" "currency" "human_correction" (JStr "USD")
              "Human correction" None "m-eur")
           [mem_low; mem_eur] H).
Defined.

(** ** What a query and a recall return *)

Lemma before_total (a b : Memory) : before a b = false -> before b a = true.
Proof.
  unfold before. rewrite <- (Qcompare_antisym (confidence a) (confidence b)).
  destruct (confidence a ?= confidence b)%Q; simpl; intros H; try discriminate H.
  - apply Z.leb_gt in H. apply Z.leb_le. lia.
  - reflexivity.
Qed.

Lemma insert_sorted_ordered (a : Memory) (l : list Memory) :
  ordered l -> ordered (insert_sorted a l).
Proof.
  unfold ordered. induction l as [|b l IH]; simpl; intros Hs.
  - constructor; constructor.
  - destruct (before a b) eqn:E.
    + constructor; [exact Hs|constructor; exact E].
    + inversion Hs as [|? ? Hs' Hhd]; subst.
      constructor; [apply IH; exact Hs'|].
      destruct l as [|c l]; simpl.
      * constructor. apply before_total. exact E.
      * destruct (before a c); constructor;
          [apply before_total; exact E|inversion Hhd; assumption].
Qed.

Lemma order_by_ordered (l : list Memory) : ordered (order_by l).
Proof.
  unfold order_by. induction l as [|a l IH]; simpl; [constructor|].
  apply insert_sorted_ordered. exact IH.
Qed.

Lemma firstn_ordered (n : nat) (l : list Memory) : ordered l -> ordered (firstn n l).
Proof.
  unfold ordered. revert l. induction n as [|n IH]; intros [|a l] Hs; simpl;
    try constructor.
  - inversion Hs; subst. apply IH. assumption.
  - inversion Hs as [|? ? _ Hhd]; subst.
    destruct n; destruct l; simpl; constructor. inversion Hhd. assumption.
Qed.

Section QueryFacts.

Variable sql_like : string -> string -> bool.

Lemma queryMemories_limit q s n :
  q_limit q = Some n -> 0 < n -> (length (queryMemories sql_like q s) <= Z.to_nat n)%nat.
Proof.
  intros Hq Hn. unfold queryMemories, int_truthy. rewrite Hq.
  destruct (n =? 0) eqn:E0; [apply Z.eqb_eq in E0; lia|].
  unfold sql_limit. destruct (n <? 0) eqn:En; [apply Z.ltb_lt in En; lia|].
  apply firstn_le_length.
Qed.

(** A query returns active rows of the store that pass its filters, the
    highest confidence first and, among equal confidences, the most used
    first; a positive limit bounds their number. *)
Theorem queryMemories_result (q : MemoryQuery) (s : Store) :
  ordered (queryMemories sql_like q s)
  /\ (forall m, In m (queryMemories sql_like q s) ->
                In m s /\ isActive m = true /\ where_clause sql_like q m = true)
  /\ (forall n, q_limit q = Some n -> 0 < n ->
                (length (queryMemories sql_like q s) <= Z.to_nat n)%nat).
Proof.
  split; [|split].
  - unfold queryMemories.
    destruct (int_truthy (q_limit q)) as [n|]; [|apply order_by_ordered].
    unfold sql_limit. destruct (n <? 0); [apply order_by_ordered|].
    apply firstn_ordered, order_by_ordered.
  - intros m Hm. apply queryMemories_In in Hm. destruct Hm as [Hin Hw].
    split; [exact Hin|]. split; [exact (where_clause_active _ _ _ Hw)|exact Hw].
  - intros n Hq Hn. apply queryMemories_limit; assumption.
Qed.

(** With the default query of an invoice whose vendor is not the empty
    string, [recallMemories] returns at most 50 memories, each an active
    memory of that vendor whose confidence was at least 0.3 when fetched. *)
Theorem recallMemories_default (inv : Invoice) (now : Z) (s : Store) :
  inv_vendor inv <> ""%string ->
  (length (fst (recallMemories sql_like inv emptyPartial now s)) <= 50)%nat
  /\ forall m, In m (fst (recallMemories sql_like inv emptyPartial now s)) ->
               In m s /\ isActive m = true /\ mem_vendor m = inv_vendor inv
               /\ (0.3 <= confidence m)%Q.
Proof.
  intros Hv. split.
  - unfold recallMemories; simpl.
    etransitivity; [apply List.filter_length_le|].
    apply (queryMemories_limit (fullQuery inv emptyPartial) s 50); [reflexivity|lia].
  - intros m Hm. apply recallMemories_returns_old_rows in Hm. destruct Hm as [Hq Hc].
    apply queryMemories_In in Hq. destruct Hq as [Hin Hw].
    split; [exact Hin|]. split; [exact (where_clause_active _ _ _ Hw)|].
    split; [|exact Hc].
    unfold where_clause, fullQuery in Hw; simpl in Hw.
    apply String.eqb_neq in Hv. rewrite Hv in Hw.
    repeat (apply andb_prop in Hw; destruct Hw as [Hw ?]).
    apply String.eqb_eq. assumption.
Qed.

End QueryFacts.

Lemma recallMemories_default_witness :
  inv_vendor invoice_no_currency <> ""%string
  /\ (length (fst (recallMemories stub_like invoice_no_currency emptyPartial DAY
                     [mem_low; mem_eur; mem_retired])) <= 50)%nat
  /\ forall m, In m (fst (recallMemories stub_like invoice_no_currency emptyPartial DAY
                            [mem_low; mem_eur; mem_retired])) ->
               In m [mem_low; mem_eur; mem_retired] /\ isActive m = true
               /\ mem_vendor m = inv_vendor invoice_no_currency
               /\ (0.3 <= confidence m)%Q.
Proof.
  assert (H : inv_vendor invoice_no_currency <> ""%string) by discriminate.
  split; [exact H|].
  exact (recallMemories_default stub_like invoice_no_currency DAY
           [mem_low; mem_eur; mem_retired] H).
Defined.

(** ** Confidence moves in one direction *)

(** Name every [Qmin] and [Qmax] of the goal and keep its two cases as
    hypotheses. *)
Ltac qminmax_cases :=
  repeat match goal with
  | |- context [Qmin ?a ?b] =>
      let x := fresh "lo" in
      destruct (Q.min_spec a b) as [[? ?]|[? ?]]; set (x := Qmin a b) in *; clearbody x
  | |- context [Qmax ?a ?b] =>
      let x := fresh "hi" in
      destruct (Q.max_spec a b) as [[? ?]|[? ?]]; set (x := Qmax a b) in *; clearbody x
  | _ : context [Qmin ?a ?b] |- _ =>
      let x := fresh "lo" in
      destruct (Q.min_spec a b) as [[? ?]|[? ?]]; set (x := Qmin a b) in *; clearbody x
  | _ : context [Qmax ?a ?b] |- _ =>
      let x := fresh "hi" in
      destruct (Q.max_spec a b) as [[? ?]|[? ?]]; set (x := Qmax a b) in *; clearbody x
  end.

Lemma In_update_where_inv id f s m :
  In m (update_where id f s) -> exists r, In r s /\ m = if has_id id r then f r else r.
Proof.
  unfold update_where. intros H. apply in_map_iff in H. destruct H as (r & Heq & Hin).
  exists r. split; [exact Hin|symmetry; exact Heq].
Qed.

Lemma decayedConfidence_le now m :
  in_range m -> 7 < daysSinceLastUse now m -> (decayedConfidence now m <= confidence m)%Q.
Proof.
  unfold in_range, decayedConfidence, MIN_CONFIDENCE, MAX_CONFIDENCE.
  intros [Hlo Hhi] Hd.
  destruct (decay_factor_bounds (daysSinceLastUse now m - 7)) as [Hpos Hle]; [lia|].
  set (k := (CONFIDENCE_DECAY_RATE ^ (daysSinceLastUse now m - 7))%Q) in *.
  assert (Hprod : (confidence m * k <= confidence m)%Q) by nra.
  qminmax_cases; lra.
Qed.

Lemma moved_within_refl (lo hi : Q) (s : Store) :
  (lo <= 0)%Q -> (0 <= hi)%Q -> moved_within lo hi s s.
Proof. intros Hlo Hhi r Hr. exists r. repeat split; try assumption; lra. Qed.

Section DirectionFacts.

Variable sql_like : string -> string -> bool.

(** Decay on recall never raises a stored confidence and never takes one
    below 0.1, when the stored confidences are in range. *)
Theorem recall_never_raises (inv : Invoice) (query : PartialQuery) (now : Z) (s : Store) :
  store_in_range s ->
  forall r, In r (snd (recallMemories sql_like inv query now s)) ->
    (MIN_CONFIDENCE <= confidence r)%Q
    /\ exists r0, In r0 s /\ mem_id r0 = mem_id r /\ (confidence r <= confidence r0)%Q.
Proof.
  intros Hs. unfold recallMemories; simpl.
  assert (HL : forall m, In m (queryMemories sql_like (fullQuery inv query) s) ->
                         In m s /\ in_range m).
  { intros m Hm. apply queryMemories_In in Hm. destruct Hm as [Hin _].
    split; [exact Hin|]. exact (proj1 (List.Forall_forall _ _) Hs m Hin). }
  revert HL. generalize (queryMemories sql_like (fullQuery inv query) s). intros L HL.
  assert (Hinit : forall r, In r s ->
            (MIN_CONFIDENCE <= confidence r)%Q
            /\ exists r0, In r0 s /\ mem_id r0 = mem_id r /\ (confidence r <= confidence r0)%Q).
  { intros r Hr. split; [exact (proj1 (proj1 (List.Forall_forall _ _) Hs r Hr))|].
    exists r. repeat split; [exact Hr|apply Qle_refl]. }
  revert Hinit. unfold applyDecayToUnusedMemories. generalize s at 1 3 as cur.
  induction L as [|a L IH]; intros cur Hcur r Hr; simpl in Hr; [exact (Hcur r Hr)|].
  apply (IH (fun m Hm => HL m (or_intror Hm)) (decay_one now cur a)); [|exact Hr].
  intros x Hx. destruct (HL a (or_introl eq_refl)) as [Ha Hra].
  unfold decay_one in Hx.
  destruct (7 <? daysSinceLastUse now a) eqn:Ed; [|exact (Hcur x Hx)].
  apply Z.ltb_lt in Ed.
  destruct (negb _); [|exact (Hcur x Hx)].
  apply In_update_where_inv in Hx. destruct Hx as (x0 & Hx0 & ->).
  destruct (has_id (mem_id a) x0) eqn:Eid; [|exact (Hcur x0 Hx0)].
  unfold has_id in Eid. apply String.eqb_eq in Eid. simpl.
  split; [exact (proj1 (decayedConfidence_in_range now a Hra Ed))|].
  exists a. repeat split; [exact Ha|symmetry; exact Eid|].
  apply decayedConfidence_le; assumption.
Qed.

(** What [reinforceMemory] leaves in the rows of the identifier it was
    called with. *)
Lemma reinforce_rows id strength now s memory r :
  find_by_id id (queryMemories sql_like emptyQuery s) = Some memory ->
  In r (reinforceMemory sql_like id strength now s) ->
  (In r s /\ mem_id r <> id)
  \/ (mem_id r = id
      /\ (confidence r = reinforced memory strength \/ confidence r = confidence memory)).
Proof.
  intros Hf Hr. unfold reinforceMemory in Hr. rewrite Hf in Hr.
  destruct (find_by_id_Some _ _ _ Hf) as [_ Hmid].
  assert (H2 : forall x,
            In x (updateMemoryUsage id now
                    (updateMemoryConfidence id (reinforced memory strength) now s)) ->
            (In x s /\ mem_id x <> id)
            \/ (mem_id x = id /\ confidence x = reinforced memory strength)).
  { intros x Hx. apply In_update_where_inv in Hx. destruct Hx as (x1 & Hx1 & ->).
    apply In_update_where_inv in Hx1. destruct Hx1 as (x0 & Hx0 & ->).
    destruct (has_id id x0) eqn:E.
    - change (has_id id (set_confidence (reinforced memory strength) now x0))
        with (has_id id x0). rewrite E.
      right. unfold has_id in E. apply String.eqb_eq in E. split; [exact E|reflexivity].
    - rewrite E. left. split; [exact Hx0|]. unfold has_id in E.
      apply String.eqb_neq in E. exact E. }
  destruct (is_correction memory).
  - apply In_saveMemory in Hr. destruct Hr as [[Hin Hne]| ->].
    + destruct (H2 r Hin) as [H|[Hid _]]; [left; exact H|].
      exfalso. apply Hne. rewrite bump_approval_id. congruence.
    + right. rewrite bump_approval_id, bump_approval_confidence. auto.
  - destruct (H2 r Hr) as [H|[Hid Hc]]; [left; exact H|right; auto].
Qed.

(** A reinforcement with a strength that is not negative lowers no stored
    confidence and raises none by more than 0.1, when the stored confidences
    are at most 0.95. *)
Theorem reinforce_never_lowers (id : string) (strength : option Q) (now : Z) (s : Store) :
  store_in_range s -> (0 <= default 0.1%Q strength)%Q ->
  moved_within 0 0.1 s (reinforceMemory sql_like id strength now s).
Proof.
  intros Hs Hk.
  destruct (find_by_id id (queryMemories sql_like emptyQuery s)) as [memory|] eqn:Hf.
  - intros r Hr.
    pose proof (found_in_range sql_like id s memory Hs Hf) as [Hlo Hhi].
    destruct (find_by_id_Some _ _ _ Hf) as [Hq Hmid].
    apply queryMemories_In in Hq. destruct Hq as [Hin _].
    destruct (reinforce_rows id strength now s memory r Hf Hr)
      as [[Hrs _]|[Hid [Hc|Hc]]].
    + exists r. repeat split; [exact Hrs|lra|lra].
    + exists memory. split; [exact Hin|]. split; [congruence|].
      rewrite Hc. unfold reinforced, MIN_CONFIDENCE, MAX_CONFIDENCE, MAX_CONFIDENCE_INCREASE in *.
      qminmax_cases; lra.
    + exists memory. split; [exact Hin|]. split; [congruence|]. rewrite Hc. lra.
  - unfold reinforceMemory. rewrite Hf. apply moved_within_refl; lra.
Qed.

(** What [weakenMemory] leaves in the rows of the identifier it was called
    with: the object the query returned, deactivated, when the new
    confidence passes the test [newConfidence <= MIN_CONFIDENCE] of the
    code; that object with its [rejectionCount] incremented for a
    correction memory above the floor; the new confidence otherwise. *)
Theorem weakenMemory_rows (id : string) (strength : option Q) (now : Z) (s : Store)
    (memory r : Memory) :
  find_by_id id (queryMemories sql_like emptyQuery s) = Some memory ->
  In r (weakenMemory sql_like id strength now s) -> mem_id r = id ->
  if reaches_floor (confidence memory) strength
  then r = deactivate (if is_correction memory then bump_rejection memory else memory)
  else if is_correction memory then r = bump_rejection memory
       else confidence r = weakened memory strength.
Proof.
  intros Hf Hr Hid. unfold weakenMemory in Hr. rewrite Hf in Hr.
  fold (weakened memory strength) in Hr.
  destruct (find_by_id_Some _ _ _ Hf) as [_ Hmid].
  assert (H1 : forall x,
            In x (updateMemoryConfidence id (weakened memory strength) now s) ->
            mem_id x = id -> confidence x = weakened memory strength).
  { intros x Hx Hxid. apply In_update_where_inv in Hx. destruct Hx as (x0 & Hx0 & ->).
    destruct (has_id id x0) eqn:E; [reflexivity|].
    unfold has_id in E. apply String.eqb_neq in E. contradiction. }
  assert (Hid' : mem_id (if is_correction memory then bump_rejection memory else memory) = id).
  { destruct (is_correction memory); [rewrite bump_rejection_id|]; exact Hmid. }
  destruct (reaches_floor (confidence memory) strength).
  - apply In_saveMemory in Hr. destruct Hr as [[_ Hne]| ->]; [|reflexivity].
    exfalso. apply Hne. simpl. congruence.
  - destruct (is_correction memory).
    + apply In_saveMemory in Hr. destruct Hr as [[_ Hne]| ->]; [|reflexivity].
      exfalso. apply Hne. congruence.
    + exact (H1 r Hr Hid).
Qed.

(** A weakening with a strength that is not negative raises no stored
    confidence and lowers none by more than 0.3, when the stored confidences
    are at least 0.1. *)
Theorem weaken_never_raises (id : string) (strength : option Q) (now : Z) (s : Store) :
  store_in_range s -> (0 <= default 0.2%Q strength)%Q ->
  moved_within (-0.3) 0 s (weakenMemory sql_like id strength now s).
Proof.
  intros Hs Hk.
  destruct (find_by_id id (queryMemories sql_like emptyQuery s)) as [memory|] eqn:Hf.
  - intros r Hr.
    pose proof (found_in_range sql_like id s memory Hs Hf) as [Hlo Hhi].
    destruct (find_by_id_Some _ _ _ Hf) as [Hq Hmid].
    apply queryMemories_In in Hq. destruct Hq as [Hin _].
    assert (Hw : (confidence memory + -0.3 <= weakened memory strength
                  /\ weakened memory strength <= confidence memory + 0)%Q).
    { unfold weakened, MIN_CONFIDENCE, MAX_CONFIDENCE in *. qminmax_cases; lra. }
    unfold weakenMemory in Hr. rewrite Hf in Hr. fold (weakened memory strength) in Hr.
    assert (Hstale : forall x,
              x = (if is_correction memory then bump_rejection memory else memory)
              \/ x = deactivate (if is_correction memory then bump_rejection memory else memory) ->
              exists r0, In r0 s /\ mem_id r0 = mem_id x
                /\ (confidence r0 + -0.3 <= confidence x /\ confidence x <= confidence r0 + 0)%Q).
    { intros x Hx. exists memory. split; [exact Hin|].
      destruct Hx as [-> | ->]; destruct (is_correction memory); simpl;
        rewrite ?bump_rejection_id, ?bump_rejection_confidence;
        (split; [reflexivity|lra]). }
    assert (H1 : forall x,
              In x (updateMemoryConfidence id (weakened memory strength) now s) ->
              exists r0, In r0 s /\ mem_id r0 = mem_id x
                /\ (confidence r0 + -0.3 <= confidence x /\ confidence x <= confidence r0 + 0)%Q).
    { intros x Hx. apply In_update_where_inv in Hx. destruct Hx as (x0 & Hx0 & ->).
      destruct (has_id id x0) eqn:E.
      - exists memory. split; [exact Hin|]. unfold has_id in E. apply String.eqb_eq in E.
        split; [simpl; congruence|exact Hw].
      - exists x0. split; [exact Hx0|]. split; [reflexivity|lra]. }
    destruct (is_correction memory) eqn:Ec; destruct (reaches_floor _ _);
      repeat match goal with
      | H : In _ (saveMemory _ _) |- _ =>
          apply In_saveMemory in H; destruct H as [[H _]| ->]
      end;
      try (apply H1; assumption);
      try (apply Hstale; rewrite ?Ec; auto).
  - unfold weakenMemory. rewrite Hf. apply moved_within_refl; lra.
Qed.

End DirectionFacts.

(** ** The manager on concrete stores *)

Lemma example_store_in_range : store_in_range [mem_low; mem_eur].
Proof. repeat constructor; unfold Qle; simpl; lia. Qed.

Lemma example_store_distinct : List.NoDup (List.map mem_id [mem_low; mem_eur]).
Proof. simpl. repeat constructor; simpl; intuition discriminate. Qed.

Lemma recall_never_raises_witness :
  store_in_range [mem_low; mem_eur]
  /\ (MIN_CONFIDENCE
      <= confidence (set_confidence (decayedConfidence (40 * DAY) mem_eur) (40 * DAY) mem_eur))%Q
  /\ exists r0,
       In r0 [mem_low; mem_eur]
       /\ mem_id r0
          = mem_id (set_confidence (decayedConfidence (40 * DAY) mem_eur) (40 * DAY) mem_eur)
       /\ (confidence (set_confidence (decayedConfidence (40 * DAY) mem_eur) (40 * DAY) mem_eur)
           <= confidence r0)%Q.
Proof.
  split; [exact example_store_in_range|].
  apply (recall_never_raises stub_like invoice_no_currency emptyPartial (40 * DAY)
           [mem_low; mem_eur] example_store_in_range).
  vm_compute. right. left. reflexivity.
Defined.

Lemma reinforce_never_lowers_witness :
  store_in_range [mem_low; mem_eur]
  /\ moved_within 0 0.1 [mem_low; mem_eur]
       (reinforceMemory stub_like "m-low" (Some 0.02%Q) DAY [mem_low; mem_eur]).
Proof.
  split; [exact example_store_in_range|].
  apply (reinforce_never_lowers stub_like "m-low" (Some 0.02%Q) DAY [mem_low; mem_eur]
           example_store_in_range).
  unfold Qle; simpl; lia.
Defined.

Lemma weaken_never_raises_witness :
  store_in_range [mem_low; mem_eur]
  /\ moved_within (-0.3) 0 [mem_low; mem_eur]
       (weakenMemory stub_like "m-eur" None DAY [mem_low; mem_eur]).
Proof.
  split; [exact example_store_in_range|].
  apply (weaken_never_raises stub_like "m-eur" None DAY [mem_low; mem_eur]
           example_store_in_range).
  unfold Qle; simpl; lia.
Defined.

Lemma weakenMemory_rows_witness :
  reaches_floor (confidence mem_four_tenths) (Some 0.3%Q) = false
  /\ confidence (set_confidence (weakened mem_four_tenths (Some 0.3%Q)) DAY mem_four_tenths)
     = weakened mem_four_tenths (Some 0.3%Q).
Proof.
  split; [vm_compute; reflexivity|].
  apply (weakenMemory_rows stub_like "m-4" (Some 0.3%Q) DAY [mem_four_tenths; mem_eur]
           mem_four_tenths
           (set_confidence (weakened mem_four_tenths (Some 0.3%Q)) DAY mem_four_tenths)).
  - reflexivity.
  - left. reflexivity.
  - reflexivity.
Defined.

(** Binary64 at the floor.  From 0.3 the default strength 0.2 gives
    0.09999999999999998, raised to the floor by [Math.max]: the memory is
    deactivated.  From 0.4 the strength 0.3 gives 0.10000000000000003, which
    is above the floor 0.1000000000000000055...: the memory stays active,
    with the new confidence. *)
Example weaken_from_three_tenths :
  f64_sub (f64_of_Q 0.3) (f64_of_Q 0.2) = S754_finite false 7205759403792792 (-56)
  /\ f64_of_Q MIN_CONFIDENCE = S754_finite false 7205759403792794 (-56)
  /\ reaches_floor 0.3 None = true
  /\ weakenMemory stub_like "m-low" None DAY [mem_low] = [deactivate mem_low].
Proof. repeat split; vm_compute; reflexivity. Qed.

Example weaken_from_four_tenths :
  newConfidence64 0.4 (Some 0.3%Q) = S754_finite false 7205759403792796 (-56)
  /\ reaches_floor 0.4 (Some 0.3%Q) = false
  /\ weakenMemory stub_like "m-4" (Some 0.3%Q) DAY [mem_four_tenths]
     = [set_confidence (weakened mem_four_tenths (Some 0.3%Q)) DAY mem_four_tenths]
  /\ isActive (set_confidence (weakened mem_four_tenths (Some 0.3%Q)) DAY mem_four_tenths) = true.
Proof. repeat split; vm_compute; reflexivity. Qed.

Lemma recallMemories_stores_decay_witness :
  (confidence (set_confidence (decayedConfidence (40 * DAY) mem_eur) (40 * DAY) mem_eur)
   == decay_result (40 * DAY) mem_eur)%Q.
Proof.
  apply (recallMemories_stores_decay stub_like invoice_no_currency emptyPartial (40 * DAY)
           [mem_low; mem_eur] mem_eur
           (set_confidence (decayedConfidence (40 * DAY) mem_eur) (40 * DAY) mem_eur)).
  - exact example_store_distinct.
  - vm_compute. left. reflexivity.
  - vm_compute. right. left. reflexivity.
  - reflexivity.
Defined.

Lemma reinforceMemory_other_types_witness :
  reinforceMemory stub_like "m-low" (Some 0.02%Q) DAY [mem_low; mem_eur] =
  List.map (fun r => if has_id "m-low" r
                     then mkMemory (mem_id r) (mem_vendor r)
                            (reinforced mem_low (Some 0.02%Q))
                            (usageCount r + 1) (createdAt r) (Some DAY) DAY (isActive r) (data r)
                     else r) [mem_low; mem_eur].
Proof.
  apply (reinforceMemory_other_types stub_like "m-low" (Some 0.02%Q) DAY [mem_low; mem_eur]
           mem_low); reflexivity.
Defined.

Lemma reinforceMemory_correction_witness :
  bump_approval mem_eur = bump_approval mem_eur
  /\ confidence (bump_approval mem_eur) = confidence mem_eur
  /\ usageCount (bump_approval mem_eur) = usageCount mem_eur
  /\ lastUsedAt (bump_approval mem_eur) = lastUsedAt mem_eur.
Proof.
  apply (reinforceMemory_correction stub_like "m-eur" (Some 0.02%Q) DAY [mem_low; mem_eur]
           mem_eur (bump_approval mem_eur)).
  - reflexivity.
  - reflexivity.
  - vm_compute. right. left. reflexivity.
  - reflexivity.
Defined.

(** * Human feedback *)

Lemma saveMemory_fresh (m : Memory) (s : Store) :
  (forall r, In r s -> mem_id r <> mem_id m) -> saveMemory m s = s ++ [m].
Proof.
  intros H. unfold saveMemory. f_equal.
  induction s as [|a s IH]; simpl; [reflexivity|].
  assert (E : has_id (mem_id m) a = false).
  { unfold has_id. apply String.eqb_neq. apply H. left. reflexivity. }
  rewrite E. simpl. f_equal. apply IH. intros r Hr. apply H. right. exact Hr.
Qed.

Lemma feedback_one_saves vendor_name c id now s :
  feedback_one vendor_name c id now s = saveMemory (feedback_memory vendor_name c id now) s.
Proof.
  unfold feedback_one, feedback_memory.
  repeat match goal with |- context [if ?b then _ else _] => destruct b end; reflexivity.
Qed.

(** What every memory created from a feedback has in common. *)
Lemma feedback_memory_shape vendor_name c id now :
  mem_id (feedback_memory vendor_name c id now) = id
  /\ mem_vendor (feedback_memory vendor_name c id now) = vendor_name
  /\ isActive (feedback_memory vendor_name c id now) = true
  /\ usageCount (feedback_memory vendor_name c id now) = 0
  /\ lastUsedAt (feedback_memory vendor_name c id now) = None
  /\ createdAt (feedback_memory vendor_name c id now) = now
  /\ (0.6 <= confidence (feedback_memory vendor_name c id now) <= 0.8)%Q
  /\ mem_type (feedback_memory vendor_name c id now) <> resolution.
Proof.
  unfold feedback_memory.
  repeat match goal with |- context [if ?b then _ else _] => destruct b end;
    simpl; repeat split; try discriminate; unfold Qle; simpl; lia.
Qed.

Lemma feedback_loop_fresh vendor_name cs uuid now : forall k s,
  fresh_ids uuid k (length cs) s ->
  feedback_loop vendor_name cs uuid k now s
  = s ++ feedback_memories vendor_name cs uuid k now.
Proof.
  induction cs as [|c cs IH]; intros k s [Hnew Hinj]; simpl.
  - rewrite app_nil_r. reflexivity.
  - destruct (feedback_memory_shape vendor_name c (uuid k) now) as (Hid & _).
    rewrite feedback_one_saves, saveMemory_fresh.
    + rewrite IH; [rewrite <- app_assoc; reflexivity|]. split.
      * intros i m Hi Hm. apply in_app_or in Hm. destruct Hm as [Hm|[<-|[]]].
        -- apply (Hnew i m); [simpl; lia|exact Hm].
        -- rewrite Hid. apply Hinj; simpl; lia.
      * intros i j Hij Hj. apply Hinj; simpl; lia.
    + intros r Hr. rewrite Hid. apply (Hnew k r); [simpl; lia|exact Hr].
Qed.

Lemma feedback_memories_ids vendor_name cs uuid now : forall k,
  List.map mem_id (feedback_memories vendor_name cs uuid k now)
  = List.map uuid (seq k (length cs)).
Proof.
  induction cs as [|c cs IH]; intros k; simpl; [reflexivity|].
  destruct (feedback_memory_shape vendor_name c (uuid k) now) as (Hid & _).
  rewrite Hid, IH. reflexivity.
Qed.

(** With identifiers that are fresh, [processHumanFeedback] changes no
    stored memory and appends one new memory per correction, in order: each
    is active, unused, of the vendor resolved from the feedback, a vendor or
    a correction memory with a confidence between 0.6 and 0.8; whether the
    feedback is marked approved makes no difference. *)
Theorem processHumanFeedback_appends (feedback : HumanFeedback) (uuid : nat -> string)
    (now : Z) (s : Store) :
  fresh_ids uuid 0 (length (fb_corrections feedback)) s ->
  exists created,
    processHumanFeedback feedback uuid now s = s ++ created
    /\ List.map mem_id created
       = List.map uuid (seq 0 (length (fb_corrections feedback)))
    /\ Forall (fun m => mem_vendor m = extractVendorFromFeedback feedback
                        /\ isActive m = true /\ usageCount m = 0
                        /\ lastUsedAt m = None /\ createdAt m = now
                        /\ (0.6 <= confidence m <= 0.8)%Q
                        /\ mem_type m <> resolution) created.
Proof.
  intros Hfresh.
  exists (feedback_memories (extractVendorFromFeedback feedback) (fb_corrections feedback)
            uuid 0 now).
  split; [|split].
  - unfold processHumanFeedback. rewrite feedback_loop_fresh by exact Hfresh.
    destruct (fb_approved feedback); reflexivity.
  - apply feedback_memories_ids.
  - clear Hfresh. generalize 0%nat as k.
    induction (fb_corrections feedback) as [|c cs IH]; intros k; simpl.
    + constructor.
    + constructor; [|apply IH].
      destruct (feedback_memory_shape (extractVendorFromFeedback feedback) c (uuid k) now)
        as (_ & Hv & Ha & Hu & Hl & Hc & Hq & Ht).
      tauto.
Qed.

(** [processHumanFeedback] keeps every stored confidence in [[0.1, 0.95]]
    and the identifiers distinct, whatever identifiers are drawn. *)
Theorem processHumanFeedback_keeps_store_sound (feedback : HumanFeedback)
    (uuid : nat -> string) (now : Z) (s : Store) :
  store_in_range s -> List.NoDup (List.map mem_id s) ->
  store_in_range (processHumanFeedback feedback uuid now s)
  /\ List.NoDup (List.map mem_id (processHumanFeedback feedback uuid now s)).
Proof.
  intros Hs Hnd. unfold processHumanFeedback.
  assert (H : forall cs k cur,
            store_in_range cur -> List.NoDup (List.map mem_id cur) ->
            store_in_range (feedback_loop (extractVendorFromFeedback feedback) cs uuid k now cur)
            /\ List.NoDup (List.map mem_id
                 (feedback_loop (extractVendorFromFeedback feedback) cs uuid k now cur))).
  { induction cs as [|c cs IH]; intros k cur Hr Hd; simpl; [split; assumption|].
    apply IH; rewrite feedback_one_saves.
    - apply Forall_saveMemory; [exact Hr|].
      destruct (feedback_memory_shape (extractVendorFromFeedback feedback) c (uuid k) now)
        as (_ & _ & _ & _ & _ & _ & Hq & _).
      unfold in_range, MIN_CONFIDENCE, MAX_CONFIDENCE. lra.
    - apply saveMemory_distinct. exact Hd. }
  destruct (fb_approved feedback); apply H; assumption.
Qed.

(** * From a stored correction to a proposal *)

Lemma length_insert_sorted (a : Memory) (l : list Memory) :
  length (insert_sorted a l) = S (length l).
Proof.
  induction l as [|b l IH]; simpl; [reflexivity|].
  destruct (before a b); simpl; [reflexivity|]. rewrite IH. reflexivity.
Qed.

Lemma length_order_by (l : list Memory) : length (order_by l) = length l.
Proof.
  unfold order_by. induction l as [|a l IH]; simpl; [reflexivity|].
  rewrite length_insert_sorted, IH. reflexivity.
Qed.

Lemma decay_one_keeps now s a r :
  In r s -> mem_id r <> mem_id a -> In r (decay_one now s a).
Proof.
  intros Hr Hne. unfold decay_one.
  destruct (7 <? daysSinceLastUse now a); [|exact Hr].
  destruct (negb _); [|exact Hr].
  unfold updateMemoryConfidence, update_where. apply in_map_iff. exists r.
  split; [|exact Hr].
  assert (E : has_id (mem_id a) r = false) by (apply String.eqb_neq; exact Hne).
  rewrite E. reflexivity.
Qed.

Lemma decay_keeps_row now r (L : list Memory) : forall s,
  In r s -> (forall a, In a L -> mem_id a <> mem_id r) ->
  In r (applyDecayToUnusedMemories L now s).
Proof.
  unfold applyDecayToUnusedMemories.
  induction L as [|a L IH]; intros s Hr HL; simpl; [exact Hr|].
  apply IH.
  - apply decay_one_keeps; [exact Hr|]. intros E. apply (HL a); [left; reflexivity|].
    symmetry. exact E.
  - intros b Hb. apply HL. right. exact Hb.
Qed.

Section ProposalFacts.

Variable sql_like : string -> string -> bool.
Variable regex_exec : string -> string -> string -> option (list string).
Variable regex_compiles : string -> bool.
Variable String_of : Json -> string.
Variable JSON_stringify : Json -> string.

Local Abbreviation processInvoice' :=
  (processInvoice sql_like regex_exec regex_compiles String_of JSON_stringify).
Local Abbreviation produces' := (produces regex_exec regex_compiles String_of).
Local Abbreviation recall' := (recallMemories sql_like).

(** A recall of the processor either returns a given active memory of the
    vendor or leaves its row as it is. *)
Lemma recall_returns_or_keeps inv t f now cur M :
  List.NoDup (List.map mem_id cur) -> In M cur -> (0.3 <= confidence M)%Q ->
  In M (fst (recall' inv (typed_query t f) now cur))
  \/ In M (snd (recall' inv (typed_query t f) now cur)).
Proof.
  intros Hnd HM Hc. unfold recallMemories. cbn [fst snd].
  set (L := queryMemories sql_like (fullQuery inv (typed_query t f)) cur).
  destruct (existsb (has_id (mem_id M)) L) eqn:E.
  - left. apply existsb_exists in E. destruct E as (a & Ha & Hid).
    unfold has_id in Hid. apply String.eqb_eq in Hid.
    assert (Hacur : In a cur) by (apply (queryMemories_In sql_like _ _ _ Ha)).
    rewrite (distinct_ids cur a M Hnd Hacur HM Hid) in Ha.
    apply filter_In. split; [exact Ha|].
    apply Qle_bool_iff. destruct f; exact Hc.
  - right. apply decay_keeps_row; [exact HM|].
    intros a Ha Hid.
    assert (Hex : existsb (has_id (mem_id M)) L = true).
    { apply existsb_exists. exists a. split; [exact Ha|]. apply String.eqb_eq. exact Hid. }
    rewrite Hex in E. discriminate E.
Qed.

(** The recall for a flagged field returns every active correction memory
    of the vendor for that field whose confidence is at least 0.3, when the
    store holds at most 50 memories. *)
Lemma recall_field_complete inv f now cur M fname pat v r a j :
  (length cur <= 50)%nat -> In M cur -> isActive M = true ->
  mem_vendor M = inv_vendor inv -> data M = CorrectionData fname pat v r a j ->
  fname = f -> (0.3 <= confidence M)%Q ->
  In M (fst (recall' inv (typed_query correction (Some f)) now cur)).
Proof.
  intros Hlen HM Hact Hv Hd Hf Hc. subst fname.
  unfold recallMemories. cbn [fst snd]. apply filter_In.
  split; [|apply Qle_bool_iff; exact Hc].
  assert (Hw : where_clause sql_like (fullQuery inv (typed_query correction (Some f))) M = true).
  { unfold where_clause, fullQuery, typed_query, field_name_is, mem_type; simpl.
    rewrite Hact, Hd, Hv; simpl.
    assert (Hq : Qle_bool 0.3 (confidence M) = true) by (apply Qle_bool_iff; exact Hc).
    rewrite Hq.
    destruct (String.eqb (inv_vendor inv) ""); simpl; rewrite ?String.eqb_refl; simpl;
      destruct (String.eqb f ""); simpl; rewrite ?String.eqb_refl; reflexivity. }
  unfold queryMemories. simpl. unfold sql_limit. simpl.
  rewrite firstn_all2.
  - apply In_order_by, filter_In. split; assumption.
  - rewrite length_order_by.
    etransitivity; [apply List.filter_length_le|]. exact Hlen.
Qed.

Lemma recall_field_unfold inv now (acc : list Memory * Store) field :
  recall_field sql_like inv now acc field =
  (fst acc ++ fst (recall' inv (typed_query correction (Some field)) now (snd acc)),
   snd (recall' inv (typed_query correction (Some field)) now (snd acc))).
Proof.
  unfold recall_field.
  destruct (recall' inv (typed_query correction (Some field)) now (snd acc)); reflexivity.
Qed.

Lemma recall_fields_keep inv now fields : forall acc x,
  In x (fst acc) -> In x (fst (List.fold_left (recall_field sql_like inv now) fields acc)).
Proof.
  induction fields as [|f' fields IH]; intros acc x Hx; simpl; [exact Hx|].
  apply IH. rewrite recall_field_unfold. cbn [fst snd]. apply in_or_app. left. exact Hx.
Qed.

Lemma recall_fields_complete inv now M f fname pat v r a j fields : forall acc,
  In f fields ->
  List.NoDup (List.map mem_id (snd acc)) -> (length (snd acc) <= 50)%nat ->
  In M (snd acc) -> isActive M = true -> mem_vendor M = inv_vendor inv ->
  data M = CorrectionData fname pat v r a j -> fname = f -> (0.3 <= confidence M)%Q ->
  In M (fst (List.fold_left (recall_field sql_like inv now) fields acc)).
Proof.
  induction fields as [|f' fields IH]; intros acc Hf Hnd Hlen HM Hact Hv Hd Hname Hc;
    [inversion Hf|].
  simpl. destruct (String.eqb f' f) eqn:E.
  - apply String.eqb_eq in E. subst f'.
    apply recall_fields_keep. rewrite recall_field_unfold. cbn [fst snd]. apply in_or_app. right.
    apply (recall_field_complete inv f now (snd acc) M fname pat v r a j); assumption.
  - apply String.eqb_neq in E. destruct Hf as [Hf|Hf]; [contradiction|].
    destruct (recall_returns_or_keeps inv correction (Some f') now (snd acc) M Hnd HM Hc)
      as [Hret|Hkeep].
    + apply recall_fields_keep. rewrite recall_field_unfold. cbn [fst snd].
      apply in_or_app. right. exact Hret.
    + apply IH; try assumption; rewrite recall_field_unfold; cbn [fst snd].
      * rewrite recall_ids. exact Hnd.
      * rewrite <- (length_map mem_id), recall_ids, length_map. exact Hlen.
Qed.

Lemma processor_recall_unfold inv now s :
  fst (processor_recallMemories sql_like inv now s) =
  fst (List.fold_left (recall_field sql_like inv now) (detectFieldIssues inv)
         (recall' inv (typed_query vendor None) now s))
  ++ List.filter (scenario_includes (categorizeInvoiceScenario inv))
       (fst (recall' inv (typed_query resolution None) now
               (snd (List.fold_left (recall_field sql_like inv now) (detectFieldIssues inv)
                       (recall' inv (typed_query vendor None) now s))))).
Proof.
  unfold processor_recallMemories.
  destruct (recall' inv (typed_query vendor None) now s) as [vendorMemories s1].
  destruct (List.fold_left (recall_field sql_like inv now) (detectFieldIssues inv)
              (vendorMemories, s1)) as [memories s2].
  cbn [fst snd].
  destruct (recall' inv (typed_query resolution None) now s2); reflexivity.
Qed.

(** An active correction memory of the invoice's vendor, for a field the
    processor flags and with a confidence of at least 0.3, is among the
    recalled memories, when the store holds at most 50 memories with
    distinct identifiers. *)
Lemma flagged_correction_is_recalled inv now s M f pat v r a j :
  List.NoDup (List.map mem_id s) -> (length s <= 50)%nat ->
  In M s -> isActive M = true -> mem_vendor M = inv_vendor inv ->
  data M = CorrectionData f pat v r a j ->
  (0.3 <= confidence M)%Q ->
  In f (detectFieldIssues inv) ->
  In M (fst (processor_recallMemories sql_like inv now s)).
Proof.
  intros Hnd Hlen HM Hact Hv Hd Hc3 Hf.
  rewrite processor_recall_unfold. apply in_or_app. left.
  destruct (recall_returns_or_keeps inv vendor None now s M Hnd HM Hc3) as [Hret|Hkeep].
  - apply recall_fields_keep. exact Hret.
  - apply (recall_fields_complete inv now M f f pat v r a j);
      try assumption; try reflexivity.
    + rewrite recall_ids. exact Hnd.
    + rewrite <- (length_map mem_id), recall_ids, length_map. exact Hlen.
Qed.

Lemma produced_is_proposed inv now s M c :
  In M (fst (processor_recallMemories sql_like inv now s)) ->
  produces' inv M = Some c ->
  In c (proposedCorrections (fst (processInvoice' inv now s))).
Proof.
  intros Hrec Hp.
  rewrite processInvoice_stages. cbn [proposedCorrections].
  rewrite applyMemories_corrections.
  apply list_elem_of_In, list_elem_of_omap. exists M.
  split; [apply list_elem_of_In; exact Hrec|exact Hp].
Qed.

Lemma human_correction_correction inv M f v r a j :
  data M = CorrectionData f "human_correction" v r a j ->
  (0.5 <= confidence M)%Q ->
  produces' inv M
  = Some (mkCorrection f (field_of inv f) v (confidence M) (mem_id M)
            ("Correction memory: " ++ r ++ " (approved " ++ pretty a ++ "x)")).
Proof.
  intros Hd Hc. unfold produces, applyMemory. rewrite Hd.
  assert (E : Qle_bool (memoryApplication thresholds) (confidence M) = true)
    by (apply Qle_bool_iff; exact Hc).
  rewrite E. reflexivity.
Qed.

(** An active memory of a human correction for a field the processor
    flags, of the invoice's vendor and with a confidence of at least 0.5, is
    recalled and its value is proposed, when the store holds at most 50
    memories with distinct identifiers. *)
Theorem flagged_correction_is_proposed (inv : Invoice) (now : Z) (s : Store)
    (M : Memory) (f : string) (v : Json) (r : string) (a j : Z) :
  List.NoDup (List.map mem_id s) -> (length s <= 50)%nat ->
  In M s -> isActive M = true -> mem_vendor M = inv_vendor inv ->
  data M = CorrectionData f "human_correction" v r a j ->
  (0.5 <= confidence M)%Q ->
  In f (detectFieldIssues inv) ->
  exists c, In c (proposedCorrections (fst (processInvoice' inv now s)))
            /\ c_field c = f /\ proposedValue c = v
            /\ memorySource c = mem_id M /\ c_confidence c = confidence M.
Proof.
  intros Hnd Hlen HM Hact Hv Hd Hc Hf.
  assert (Hc3 : (0.3 <= confidence M)%Q) by lra.
  eexists. split.
  - apply (produced_is_proposed inv now s M).
    + apply (flagged_correction_is_recalled inv now s M f "human_correction" v r a j);
        assumption.
    + apply (human_correction_correction inv M f v r a j); assumption.
  - simpl. repeat split.
Qed.

(** What a human corrected is proposed the next time: after a feedback
    with fresh identifiers, a correction of the feedback that fits none of
    the four special cases is proposed, with confidence 0.7, for every
    invoice of the feedback's vendor on which the processor flags that
    field, as long as the store holds at most 50 memories. *)
Theorem feedback_is_proposed_next_time (feedback : HumanFeedback) (uuid : nat -> string)
    (now later : Z) (s : Store) (inv : Invoice) (k : nat) (fc : FeedbackCorrection) :
  List.NoDup (List.map mem_id s) ->
  (length s + length (fb_corrections feedback) <= 50)%nat ->
  fresh_ids uuid 0 (length (fb_corrections feedback)) s ->
  nth_error (fb_corrections feedback) k = Some fc -> is_generic fc = true ->
  inv_vendor inv = extractVendorFromFeedback feedback ->
  In (fc_field fc) (detectFieldIssues inv) ->
  exists c,
    In c (proposedCorrections
            (fst (processInvoice' inv later (processHumanFeedback feedback uuid now s))))
    /\ c_field c = fc_field fc /\ proposedValue c = fc_correctedValue fc
    /\ memorySource c = uuid k /\ c_confidence c = 0.7%Q.
Proof.
  intros Hnd Hlen Hfresh Hk Hgen Hv Hf.
  set (vendor_name := extractVendorFromFeedback feedback) in *.
  set (M := feedback_memory vendor_name fc (uuid k) now).
  assert (HMd : data M = CorrectionData (fc_field fc) "human_correction"
                           (fc_correctedValue fc) (reason_or_default fc) 0 0
                /\ confidence M = 0.7%Q).
  { unfold M, feedback_memory. unfold is_generic in Hgen.
    repeat (apply andb_prop in Hgen; destruct Hgen as [Hgen ?]).
    repeat match goal with H : negb ?b = true |- _ => apply negb_true_iff in H; rewrite H end.
    split; reflexivity. }
  destruct HMd as [HMd HMc].
  destruct (feedback_memory_shape vendor_name fc (uuid k) now)
    as (Hid & Hvend & Hact & _).
  fold M in Hid, Hvend, Hact.
  assert (Hstore : processHumanFeedback feedback uuid now s
                   = s ++ feedback_memories vendor_name (fb_corrections feedback) uuid 0 now).
  { unfold processHumanFeedback. fold vendor_name.
    rewrite feedback_loop_fresh by exact Hfresh.
    destruct (fb_approved feedback); reflexivity. }
  assert (HMin : In M (feedback_memories vendor_name (fb_corrections feedback) uuid 0 now)).
  { assert (G : forall (cs : list FeedbackCorrection) (i n : nat),
                  nth_error cs i = Some fc ->
                  In (feedback_memory vendor_name fc (uuid (n + i)%nat) now)
                     (feedback_memories vendor_name cs uuid n now)).
    { induction cs as [|c0 cs IH]; intros [|i] n Hn; simpl in *; try discriminate.
      - inversion Hn; subst. left. rewrite Nat.add_0_r. reflexivity.
      - right. replace (n + S i)%nat with (S n + i)%nat by lia. apply IH. exact Hn. }
    exact (G (fb_corrections feedback) k 0%nat Hk). }
  assert (Hsound : List.NoDup (List.map mem_id (processHumanFeedback feedback uuid now s))).
  { unfold processHumanFeedback.
    assert (G : forall cs n cur, List.NoDup (List.map mem_id cur) ->
                  List.NoDup (List.map mem_id (feedback_loop vendor_name cs uuid n now cur))).
    { induction cs as [|c0 cs IH]; intros n cur Hcur; simpl; [exact Hcur|].
      apply IH. rewrite feedback_one_saves. apply saveMemory_distinct. exact Hcur. }
    destruct (fb_approved feedback); apply G; exact Hnd. }
  assert (Hlen' : (length (processHumanFeedback feedback uuid now s) <= 50)%nat).
  { rewrite Hstore, length_app.
    assert (G : forall cs n, length (feedback_memories vendor_name cs uuid n now) = length cs).
    { induction cs as [|c0 cs IH]; intros n; simpl; [reflexivity|]. rewrite IH. reflexivity. }
    rewrite G. exact Hlen. }
  assert (Hc5 : (0.5 <= confidence M)%Q) by (rewrite HMc; unfold Qle; simpl; lia).
  assert (Hc3 : (0.3 <= confidence M)%Q) by (rewrite HMc; unfold Qle; simpl; lia).
  eexists. split.
  - apply (produced_is_proposed inv later _ M).
    + apply (flagged_correction_is_recalled inv later _ M (fc_field fc) "human_correction"
               (fc_correctedValue fc) (reason_or_default fc) 0 0); try assumption.
      * rewrite Hstore. apply in_or_app. right. exact HMin.
      * rewrite Hvend. symmetry. exact Hv.
    + apply (human_correction_correction inv M (fc_field fc) (fc_correctedValue fc)
               (reason_or_default fc) 0 0); assumption.
  - simpl. repeat split; assumption.
Qed.

End ProposalFacts.

(** ** Feedback on concrete stores *)

Lemma example_fresh_ids : fresh_ids example_uuid 0 2 [mem_low; mem_eur].
Proof.
  split.
  - intros i m Hi [<-|[<-|[]]];
      (destruct i as [|[|i]]; [discriminate|discriminate|lia]).
  - intros i j Hij Hj. destruct i as [|[|i]], j as [|[|j]]; try lia. discriminate.
Qed.

Lemma processHumanFeedback_appends_witness :
  fresh_ids example_uuid 0 (length (fb_corrections feedback_po)) [mem_low; mem_eur]
  /\ exists created,
       processHumanFeedback feedback_po example_uuid DAY [mem_low; mem_eur]
       = [mem_low; mem_eur] ++ created
       /\ List.map mem_id created
          = List.map example_uuid (seq 0 (length (fb_corrections feedback_po)))
       /\ Forall (fun m => mem_vendor m = extractVendorFromFeedback feedback_po
                           /\ isActive m = true /\ usageCount m = 0
                           /\ lastUsedAt m = None /\ createdAt m = DAY
                           /\ (0.6 <= confidence m <= 0.8)%Q
                           /\ mem_type m <> resolution) created.
Proof.
  split; [exact example_fresh_ids|].
  exact (processHumanFeedback_appends feedback_po example_uuid DAY [mem_low; mem_eur]
           example_fresh_ids).
Defined.

Lemma processHumanFeedback_keeps_store_sound_witness :
  store_in_range [mem_low; mem_eur]
  /\ store_in_range (processHumanFeedback feedback_po example_uuid DAY [mem_low; mem_eur])
  /\ List.NoDup
       (List.map mem_id (processHumanFeedback feedback_po example_uuid DAY [mem_low; mem_eur])).
Proof.
  split; [exact example_store_in_range|].
  exact (processHumanFeedback_keeps_store_sound feedback_po example_uuid DAY [mem_low; mem_eur]
           example_store_in_range example_store_distinct).
Defined.

Lemma flagged_correction_is_proposed_witness :
  In "vatAmount"%string (detectFieldIssues invoice_zero_vat)
  /\ exists c,
       In c (proposedCorrections
               (fst (processInvoice stub_like stub_exec stub_compiles stub_String stub_stringify
                       invoice_zero_vat DAY [mem_zero_vat])))
       /\ c_field c = "vatAmount"%string /\ proposedValue c = JNum 0
       /\ memorySource c = mem_id mem_zero_vat /\ c_confidence c = confidence mem_zero_vat.
Proof.
  assert (Hf : In "vatAmount"%string (detectFieldIssues invoice_zero_vat))
    by (vm_compute; auto).
  split; [exact Hf|].
  apply (flagged_correction_is_proposed stub_like stub_exec stub_compiles stub_String
           stub_stringify invoice_zero_vat DAY [mem_zero_vat] mem_zero_vat
           "vatAmount" (JNum 0) "Human correction" 0 0).
  - simpl. repeat constructor. intros [].
  - simpl. lia.
  - left. reflexivity.
  - reflexivity.
  - reflexivity.
  - reflexivity.
  - unfold Qle; simpl; lia.
  - exact Hf.
Defined.

Lemma feedback_is_proposed_next_time_witness :
  is_generic (mkFeedbackCorrection "poNumber" (JStr "PO-77") None) = true
  /\ exists c,
       In c (proposedCorrections
               (fst (processInvoice stub_like stub_exec stub_compiles stub_String stub_stringify
                       invoice_no_po (3 * DAY)
                       (processHumanFeedback feedback_po example_uuid DAY [mem_low; mem_eur]))))
       /\ c_field c = "poNumber"%string /\ proposedValue c = JStr "PO-77"
       /\ memorySource c = "fb-1"%string /\ c_confidence c = 0.7%Q.
Proof.
  split; [reflexivity|].
  apply (feedback_is_proposed_next_time stub_like stub_exec stub_compiles stub_String
           stub_stringify feedback_po example_uuid DAY (3 * DAY) [mem_low; mem_eur]
           invoice_no_po 1 (mkFeedbackCorrection "poNumber" (JStr "PO-77") None)).
  - exact example_store_distinct.
  - simpl. lia.
  - exact example_fresh_ids.
  - reflexivity.
  - reflexivity.
  - reflexivity.
  - vm_compute. auto.
Defined.

(** * Further properties of the apply stage *)

Section ApplyStageFacts.

Variable sql_like : string -> string -> bool.
Variable regex_exec : string -> string -> string -> option (list string).
Variable regex_compiles : string -> bool.
Variable String_of : Json -> string.
Variable JSON_stringify : Json -> string.

Local Abbreviation applyMemory' := (applyMemory regex_exec regex_compiles String_of).
Local Abbreviation applyMemories' :=
  (applyMemories sql_like regex_exec regex_compiles String_of JSON_stringify).
Local Abbreviation apply_one' := (apply_one sql_like regex_exec regex_compiles String_of).
Local Abbreviation produces' := (produces regex_exec regex_compiles String_of).
Local Abbreviation processInvoice' :=
  (processInvoice sql_like regex_exec regex_compiles String_of JSON_stringify).

(** A vendor memory yields a correction only when its trigger is in the raw
    text or is the vendor's name, always for its target field, and never
    one that proposes the value the field already holds. *)
Theorem applyVendorMemory_sound (inv : Invoice) (memory : Memory) (triggerSignal : string)
    (action : Action) (c : Correction) :
  applyVendorMemory regex_exec inv memory triggerSignal action = Some c ->
  (includes (rawText inv) triggerSignal = true \/ triggerSignal = inv_vendor inv)
  /\ c_field c = targetField action
  /\ originalValue c = field_of inv (targetField action)
  /\ strictEq (Some (proposedValue c)) (originalValue c) = false
  /\ c_confidence c = confidence memory
  /\ memorySource c = mem_id memory.
Proof.
  unfold applyVendorMemory. intros H.
  destruct (includes (rawText inv) triggerSignal || String.eqb triggerSignal (inv_vendor inv))
    eqn:Et; simpl in H; [|discriminate H].
  destruct (fst (candidate regex_exec inv triggerSignal action)) as [proposed|] eqn:Ec;
    [|discriminate H].
  destruct (identical inv action (candidate regex_exec inv triggerSignal action)) eqn:Ei;
    [discriminate H|].
  inversion H; subst c; clear H. simpl.
  split.
  - apply orb_prop in Et. destruct Et as [Et|Et]; [left; exact Et|right].
    apply String.eqb_eq. exact Et.
  - repeat split. unfold identical in Ei. apply orb_false_elim in Ei.
    destruct Ei as [Ei _]. rewrite Ec in Ei. exact Ei.
Qed.

(** A correction comes from a memory with the same identifier and
    confidence. *)
Lemma applyMemory_source inv m c :
  applyMemory' inv m = Some c -> memorySource c = mem_id m /\ c_confidence c = confidence m.
Proof.
  unfold applyMemory. destruct (data m) as [t act p|f p v r a j|sc o hf sa]; intros H.
  - unfold applyVendorMemory in H.
    destruct (negb _); [discriminate H|].
    destruct (fst (candidate regex_exec inv t act)); [|discriminate H].
    destruct (identical inv act (candidate regex_exec inv t act)); [discriminate H|].
    inversion H; subst c. split; reflexivity.
  - unfold applyCorrectionMemory in H.
    destruct (String.eqb p "human_correction" || _); [|discriminate H].
    inversion H; subst c. split; reflexivity.
  - discriminate H.
Qed.

(** The memory updates of the apply stage are one [reinforce] entry per
    proposed correction, naming the same memory in the same order; every
    proposed correction carries the identifier and the confidence of a
    memory of the list, and that confidence is at least 0.5. *)
Theorem applyMemories_updates_mirror_corrections (inv : Invoice) (memories : list Memory)
    (now : Z) (s : Store) :
  List.map u_memoryId (updates (fst (applyMemories' inv memories now s)))
  = List.map (fun c => Some (memorySource c)) (corrections (fst (applyMemories' inv memories now s)))
  /\ Forall (fun u => u_type u = u_reinforce) (updates (fst (applyMemories' inv memories now s)))
  /\ Forall (fun c => (0.5 <= c_confidence c)%Q
                      /\ exists m, In m memories /\ memorySource c = mem_id m
                                   /\ c_confidence c = confidence m)
       (corrections (fst (applyMemories' inv memories now s))).
Proof.
  unfold applyMemories. cbn [fst updates corrections].
  assert (G : forall ms st,
            List.map u_memoryId (st_updates st)
            = List.map (fun c => Some (memorySource c)) (st_corrections st) ->
            Forall (fun u => u_type u = u_reinforce) (st_updates st) ->
            Forall (fun c => (0.5 <= c_confidence c)%Q
                             /\ exists m, In m memories /\ memorySource c = mem_id m
                                          /\ c_confidence c = confidence m)
              (st_corrections st) ->
            (forall m, In m ms -> In m memories) ->
            List.map u_memoryId (st_updates (List.fold_left (apply_one' inv now) ms st))
            = List.map (fun c => Some (memorySource c))
                (st_corrections (List.fold_left (apply_one' inv now) ms st))
            /\ Forall (fun u => u_type u = u_reinforce)
                 (st_updates (List.fold_left (apply_one' inv now) ms st))
            /\ Forall (fun c => (0.5 <= c_confidence c)%Q
                                /\ exists m, In m memories /\ memorySource c = mem_id m
                                             /\ c_confidence c = confidence m)
                 (st_corrections (List.fold_left (apply_one' inv now) ms st))).
  { induction ms as [|m ms IH]; intros st Hu Ht Hc Hsub; simpl; [auto|].
    apply IH; try (intros x Hx; apply Hsub; right; exact Hx);
      rewrite apply_one_produces; unfold produces;
      destruct (Qle_bool (memoryApplication thresholds) (confidence m)) eqn:E;
      try assumption;
      destruct (applyMemory' inv m) as [c|] eqn:Ea; try assumption; simpl;
      destruct (applyMemory_source inv m c Ea) as [Hsrc Hconf].
    - rewrite !List.map_app, Hu. simpl. rewrite Hsrc. reflexivity.
    - apply Forall_app. split; [exact Ht|]. constructor; [reflexivity|constructor].
    - apply Forall_app. split; [exact Hc|]. constructor; [|constructor].
      split; [rewrite Hconf; apply Qle_bool_iff; exact E|].
      exists m. split; [apply Hsub; left; reflexivity|]. split; assumption. }
  apply G; simpl; auto.
Qed.

End ApplyStageFacts.

Lemma applyVendorMemory_sound_witness :
  applyVendorMemory stub_exec invoice_no_currency mem_default_currency "Parts AG"
    (mkAction field_mapping None "currency" (Some (JStr "EUR")) None)
  = Some (mkCorrection "currency" None (JStr "EUR") 0.6 "m-cur"
            "Vendor memory: Parts AG → currency (field_mapping)")
  /\ c_field (mkCorrection "currency" None (JStr "EUR") 0.6 "m-cur"
                "Vendor memory: Parts AG → currency (field_mapping)") = "currency".
Proof.
  split; [reflexivity|].
  apply (applyVendorMemory_sound stub_exec invoice_no_currency mem_default_currency "Parts AG"
           (mkAction field_mapping None "currency" (Some (JStr "EUR")) None)).
  reflexivity.
Defined.

(** * The store across one processing run *)

Lemma has_record_ids id s : has_record id s <-> In id (List.map mem_id s).
Proof.
  unfold has_record. rewrite in_map_iff. split.
  - intros (m & Hm & Hid). exists m. auto.
  - intros (m & Hid & Hm). exists m. auto.
Qed.

Section ProcessStoreFacts.

Variable sql_like : string -> string -> bool.
Variable regex_exec : string -> string -> string -> option (list string).
Variable regex_compiles : string -> bool.
Variable String_of : Json -> string.
Variable JSON_stringify : Json -> string.

Local Abbreviation recall' := (recallMemories sql_like).
Local Abbreviation reinforce' := (reinforceMemory sql_like).
Local Abbreviation applyMemories' :=
  (applyMemories sql_like regex_exec regex_compiles String_of JSON_stringify).
Local Abbreviation apply_one' := (apply_one sql_like regex_exec regex_compiles String_of).
Local Abbreviation processInvoice' :=
  (processInvoice sql_like regex_exec regex_compiles String_of JSON_stringify).

Section Invariant.

Variable P : Store -> Prop.
Hypothesis P_recall : forall inv query now s, P s -> P (snd (recall' inv query now s)).
Hypothesis P_reinforce : forall id now s, P s -> P (reinforce' id (Some 0.02%Q) now s).

Lemma recall_fields_invariant inv now fields : forall acc,
  P (snd acc) -> P (snd (List.fold_left (recall_field sql_like inv now) fields acc)).
Proof.
  induction fields as [|f fs IH]; intros acc H; simpl; [exact H|].
  apply IH. unfold recall_field.
  pose proof (P_recall inv (typed_query correction (Some f)) now (snd acc) H) as H'.
  destruct (recall' inv (typed_query correction (Some f)) now (snd acc)). exact H'.
Qed.

Lemma processor_recall_invariant inv now s :
  P s -> P (snd (processor_recallMemories sql_like inv now s)).
Proof.
  intros H. unfold processor_recallMemories.
  pose proof (P_recall inv (typed_query vendor None) now s H) as H1.
  destruct (recall' inv (typed_query vendor None) now s) as [vendorMemories s1].
  pose proof (recall_fields_invariant inv now (detectFieldIssues inv) (vendorMemories, s1) H1)
    as H2.
  destruct (List.fold_left (recall_field sql_like inv now) (detectFieldIssues inv)
              (vendorMemories, s1)) as [memories s2].
  pose proof (P_recall inv (typed_query resolution None) now s2 H2) as H3.
  destruct (recall' inv (typed_query resolution None) now s2). exact H3.
Qed.

Lemma apply_loop_invariant inv now memories : forall st,
  P (st_store st) -> P (st_store (List.fold_left (apply_one' inv now) memories st)).
Proof.
  induction memories as [|m ms IH]; intros st H; simpl; [exact H|].
  apply IH. unfold apply_one.
  destruct (negb _); [exact H|].
  destruct (applyMemory regex_exec regex_compiles String_of inv m); [|exact H].
  simpl. apply P_reinforce. exact H.
Qed.

Lemma processInvoice_invariant inv now s : P s -> P (snd (processInvoice' inv now s)).
Proof.
  intros H. unfold processInvoice.
  pose proof (processor_recall_invariant inv now s H) as H1.
  destruct (processor_recallMemories sql_like inv now s) as [relevantMemories s1].
  pose proof (apply_loop_invariant inv now relevantMemories (mkApplyState [] [] 1%Q 0%nat s1) H1)
    as H2.
  unfold applyMemories. cbn [fst snd] in *.
  destruct (makeDecision _ _). exact H2.
Qed.

End Invariant.

Lemma reinforce_records id strength now s r :
  In r (reinforce' id strength now s) -> has_record (mem_id r) s.
Proof.
  intros Hr. destruct (find_by_id id (queryMemories sql_like emptyQuery s)) as [memory|] eqn:Ef.
  - destruct (reinforce_rows sql_like id strength now s memory r Ef Hr) as [[Hin _]|[Hid _]].
    + exists r. auto.
    + apply find_by_id_Some in Ef. destruct Ef as [Hin Hm].
      apply queryMemories_In in Hin. exists memory. split; [tauto|congruence].
  - unfold reinforceMemory in Hr. rewrite Ef in Hr. exists r. auto.
Qed.

(** Processing an invoice neither creates nor removes a memory, never
    brings a deactivated memory back, and leaves a store whose confidences
    are within [0.1, 0.95] and whose identifiers are distinct in that
    state. *)
Theorem processInvoice_keeps_store_sound (inv : Invoice) (now : Z) (s : Store) :
  store_in_range s -> List.NoDup (List.map mem_id s) ->
  store_in_range (snd (processInvoice' inv now s))
  /\ List.NoDup (List.map mem_id (snd (processInvoice' inv now s)))
  /\ (forall id, has_record id (snd (processInvoice' inv now s)) <-> has_record id s)
  /\ (forall id, inactive_in id s -> inactive_in id (snd (processInvoice' inv now s))).
Proof.
  intros Hr Hnd.
  apply (processInvoice_invariant
           (fun s' => store_in_range s' /\ List.NoDup (List.map mem_id s')
                      /\ (forall id, has_record id s' <-> has_record id s)
                      /\ (forall id, inactive_in id s -> inactive_in id s'))).
  - intros inv' q now' s' (H1 & H2 & H3 & H4).
    split; [apply recallMemories_keeps_range; exact H1|].
    split; [rewrite recall_ids; exact H2|].
    split.
    + intros id. rewrite <- H3, !has_record_ids, recall_ids. reflexivity.
    + intros id Hi. apply (run_op_keeps_inactive sql_like id now' (OpRecall inv' q));
        [discriminate|]. apply H4. exact Hi.
  - intros id' now' s' (H1 & H2 & H3 & H4).
    split; [apply reinforceMemory_keeps_range; [exact H1|simpl; lra]|].
    split; [apply reinforce_distinct; exact H2|].
    split.
    + intros id. rewrite <- H3. split.
      * intros (r & Hin & Hid). subst id.
        exact (reinforce_records id' _ now' s' r Hin).
      * intros Hrec.
        exact (run_op_keeps_record sql_like id now' (OpReinforce id' (Some 0.02%Q)) s' Hrec).
    + intros id Hi. apply (run_op_keeps_inactive sql_like id now' (OpReinforce id' (Some 0.02%Q)));
        [discriminate|]. apply H4. exact Hi.
  - split; [exact Hr|]. split; [exact Hnd|]. split; [reflexivity|auto].
Qed.

End ProcessStoreFacts.

Lemma processInvoice_keeps_store_sound_witness :
  store_in_range [mem_low; mem_eur]
  /\ store_in_range
       (snd (processInvoice stub_like stub_exec stub_compiles stub_String stub_stringify
               invoice_no_currency (40 * DAY) [mem_low; mem_eur])).
Proof.
  split; [exact example_store_in_range|].
  apply (processInvoice_keeps_store_sound stub_like stub_exec stub_compiles stub_String
           stub_stringify invoice_no_currency (40 * DAY) [mem_low; mem_eur]
           example_store_in_range example_store_distinct).
Defined.

(** * The confidence of a processing run *)

Lemma decay_rate_power_le (n m : nat) :
  (n <= m)%nat -> (CONFIDENCE_DECAY_RATE ^ Z.of_nat m <= CONFIDENCE_DECAY_RATE ^ Z.of_nat n)%Q.
Proof.
  intros H. replace (Z.of_nat m) with (Z.of_nat n + Z.of_nat (m - n)) by lia.
  rewrite Qpower_plus by (intros H0; discriminate H0).
  destruct (decay_factor_bounds (Z.of_nat n)) as [Hn _]; [lia|].
  destruct (decay_factor_bounds (Z.of_nat (m - n))) as [_ Hd]; [lia|].
  nra.
Qed.

Lemma confidence_product_bounds (ms : list Memory) :
  Forall in_range ms ->
  (0 < confidence_product ms
   /\ confidence_product ms <= CONFIDENCE_DECAY_RATE ^ Z.of_nat (length ms))%Q.
Proof.
  unfold confidence_product. intros H.
  assert (G : forall acc, (0 < acc)%Q ->
            (0 < List.fold_left (fun a m => a * confidence m) ms acc
             /\ List.fold_left (fun a m => a * confidence m) ms acc
                <= acc * CONFIDENCE_DECAY_RATE ^ Z.of_nat (length ms))%Q).
  { induction H as [|m ms Hm Hms IH]; intros acc Hacc.
    - simpl. split; [exact Hacc|]. lra.
    - destruct Hm as [Hlo Hhi]. unfold MIN_CONFIDENCE, MAX_CONFIDENCE in Hlo, Hhi.
      assert (Hpos : (0 < acc * confidence m)%Q) by nra.
      destruct (IH (acc * confidence m)%Q Hpos) as [H1 H2].
      cbn [List.fold_left]. split; [exact H1|].
      eapply Qle_trans; [exact H2|].
      replace (Z.of_nat (length (m :: ms))) with (1 + Z.of_nat (length ms))
        by (cbn [length]; lia).
      rewrite Qpower_plus by (intros H0; discriminate H0).
      change (CONFIDENCE_DECAY_RATE ^ 1)%Q with 0.95%Q.
      destruct (decay_factor_bounds (Z.of_nat (length ms))) as [Hk _]; [lia|].
      nra. }
  destruct (G 1%Q) as [H1 H2]; [reflexivity|]. split; [exact H1|]. lra.
Qed.

Section ConfidenceFacts.

Variable sql_like : string -> string -> bool.
Variable regex_exec : string -> string -> string -> option (list string).
Variable regex_compiles : string -> bool.
Variable String_of : Json -> string.
Variable JSON_stringify : Json -> string.

Local Abbreviation recall' := (recallMemories sql_like).
Local Abbreviation applyMemories' :=
  (applyMemories sql_like regex_exec regex_compiles String_of JSON_stringify).
Local Abbreviation appliedMemories' := (appliedMemories regex_exec regex_compiles String_of).
Local Abbreviation processInvoice' :=
  (processInvoice sql_like regex_exec regex_compiles String_of JSON_stringify).

Lemma recall_rows_in_range inv query now s :
  store_in_range s -> Forall in_range (fst (recall' inv query now s)).
Proof.
  intros Hs. unfold recallMemories. cbn [fst]. apply List.Forall_forall. intros m Hm.
  apply filter_In in Hm. destruct Hm as [Hm _]. apply queryMemories_In in Hm.
  unfold store_in_range in Hs. rewrite List.Forall_forall in Hs. apply Hs. tauto.
Qed.

Lemma recall_fields_in_range inv now fields : forall acc,
  Forall in_range (fst acc) -> store_in_range (snd acc) ->
  Forall in_range (fst (List.fold_left (recall_field sql_like inv now) fields acc))
  /\ store_in_range (snd (List.fold_left (recall_field sql_like inv now) fields acc)).
Proof.
  induction fields as [|f fs IH]; intros acc Ha Hs; simpl; [auto|].
  apply IH; unfold recall_field;
    pose proof (recall_rows_in_range inv (typed_query correction (Some f)) now (snd acc) Hs) as H1;
    pose proof (recallMemories_keeps_range sql_like inv (typed_query correction (Some f)) now
                  (snd acc) Hs) as H2;
    destruct (recall' inv (typed_query correction (Some f)) now (snd acc)); cbn [fst snd] in *.
  - apply Forall_app. auto.
  - exact H2.
Qed.

Lemma processor_recall_in_range inv now s :
  store_in_range s -> Forall in_range (fst (processor_recallMemories sql_like inv now s)).
Proof.
  intros Hs. unfold processor_recallMemories.
  pose proof (recall_rows_in_range inv (typed_query vendor None) now s Hs) as H1.
  pose proof (recallMemories_keeps_range sql_like inv (typed_query vendor None) now s Hs) as H2.
  destruct (recall' inv (typed_query vendor None) now s) as [vendorMemories s1].
  cbn [fst snd] in *.
  destruct (recall_fields_in_range inv now (detectFieldIssues inv) (vendorMemories, s1) H1 H2)
    as [H3 H4].
  destruct (List.fold_left (recall_field sql_like inv now) (detectFieldIssues inv)
              (vendorMemories, s1)) as [memories s2].
  cbn [fst snd] in *.
  pose proof (recall_rows_in_range inv (typed_query resolution None) now s2 H4) as H5.
  destruct (recall' inv (typed_query resolution None) now s2) as [resolutionMemories s3].
  cbn [fst snd] in *. apply Forall_app. split; [exact H3|].
  apply List.Forall_forall. intros m Hm. apply filter_In in Hm.
  rewrite List.Forall_forall in H5. apply H5. tauto.
Qed.

(** On a store whose confidences are within [0.1, 0.95], the confidence
    score of a run is positive and at most 0.95, it is at most 0.95 to the
    power of the number of proposed corrections, and a run that proposes
    nine or more corrections always asks for human review. *)
Theorem processInvoice_confidence_bounds (inv : Invoice) (now : Z) (s : Store) :
  store_in_range s ->
  (0 < confidenceScore (fst (processInvoice' inv now s)) <= 0.95)%Q
  /\ (confidenceScore (fst (processInvoice' inv now s))
      <= CONFIDENCE_DECAY_RATE
         ^ Z.of_nat (length (proposedCorrections (fst (processInvoice' inv now s)))))%Q
  /\ ((9 <= length (proposedCorrections (fst (processInvoice' inv now s))))%nat ->
      requiresHumanReview (fst (processInvoice' inv now s)) = true).
Proof.
  intros Hs. rewrite processInvoice_stages.
  cbn [confidenceScore proposedCorrections requiresHumanReview].
  set (ms := fst (processor_recallMemories sql_like inv now s)).
  set (s1 := snd (processor_recallMemories sql_like inv now s)).
  rewrite makeDecision_review, applyMemories_confidence, applyMemories_corrections.
  rewrite <- appliedMemories_length.
  assert (Hr : Forall in_range (appliedMemories' inv ms)).
  { apply List.Forall_forall. intros m Hm. unfold appliedMemories in Hm. apply filter_In in Hm.
    pose proof (processor_recall_in_range inv now s Hs) as Hall. fold ms in Hall.
    rewrite List.Forall_forall in Hall. apply Hall. tauto. }
  destruct (confidence_product_bounds _ Hr) as [Hpos Hle].
  set (p := confidence_product (appliedMemories' inv ms)) in *.
  set (n := length (appliedMemories' inv ms)) in *.
  assert (H9 : (9 <= n)%nat -> (p < 0.65)%Q).
  { intros Hn. pose proof (decay_rate_power_le 9 n Hn) as Hm.
    assert (E : (CONFIDENCE_DECAY_RATE ^ Z.of_nat 9 < 0.65)%Q) by reflexivity.
    lra. }
  destruct (0 <? n)%nat eqn:En.
  - apply Nat.ltb_lt in En.
    pose proof (decay_rate_power_le 1 n En) as H1.
    change (CONFIDENCE_DECAY_RATE ^ Z.of_nat 1)%Q with 0.95%Q in H1.
    destruct (0 <? length _)%nat.
    + split; [split; lra|]. split; [lra|]. intros Hn. specialize (H9 Hn).
      assert (E : Qle_bool 0.65 (p * 0.7) = false) by (apply Qle_bool_false; lra).
      rewrite E. reflexivity.
    + split; [split; lra|]. split; [lra|]. intros Hn. specialize (H9 Hn).
      assert (E : Qle_bool 0.65 p = false) by (apply Qle_bool_false; lra).
      rewrite E. reflexivity.
  - apply Nat.ltb_ge in En. assert (n = 0%nat) as -> by lia.
    split; [split; [reflexivity|unfold Qle; simpl; lia]|].
    split; [unfold Qle; simpl; lia|]. intros Hn. lia.
Qed.

End ConfidenceFacts.

Lemma processInvoice_confidence_bounds_witness :
  store_in_range [mem_low; mem_eur]
  /\ (confidenceScore
        (fst (processInvoice stub_like stub_exec stub_compiles stub_String stub_stringify
                invoice_no_currency DAY [mem_low; mem_eur])) <= 0.95)%Q.
Proof.
  split; [exact example_store_in_range|].
  apply (processInvoice_confidence_bounds stub_like stub_exec stub_compiles stub_String
           stub_stringify invoice_no_currency DAY [mem_low; mem_eur] example_store_in_range).
Defined.

(** * Conflicting memories *)

Section ConflictingFacts.

Variable sql_like : string -> string -> bool.
Variable JSON_stringify : Json -> string.

(** [findConflictingMemories] returns exactly the active correction
    memories of the store, other than the memory itself, that name the
    field of the given correction memory with a corrected value whose JSON
    text differs, and that belong to its vendor when that name is not
    empty; for a vendor or resolution memory it returns nothing. *)
Theorem findConflictingMemories_spec (memory existing : Memory) (s : Store) :
  In existing (findConflictingMemories sql_like JSON_stringify memory s) <->
  In existing s /\ isActive existing = true /\ mem_id existing <> mem_id memory
  /\ (mem_vendor memory <> "" -> mem_vendor existing = mem_vendor memory)
  /\ exists f p v r a j p' v' r' a' j',
       data memory = CorrectionData f p v r a j
       /\ data existing = CorrectionData f p' v' r' a' j'
       /\ JSON_stringify v <> JSON_stringify v'.
Proof.
  unfold findConflictingMemories.
  rewrite filter_In, queryMemories_unlimited by reflexivity.
  unfold conflicts_with, where_clause, conflicting_query, field_name_is, mem_type, str_truthy.
  cbn [q_vendor q_fieldName q_pattern q_type q_minConfidence num_truthy].
  split.
  - intros [[Hin Hw] Hc].
    destruct (String.eqb (mem_id existing) (mem_id memory)) eqn:Eid; [discriminate Hc|].
    apply String.eqb_neq in Eid.
    destruct (data memory) as [| f p v r a j |]; try discriminate Hc.
    destruct (data existing) as [| f' p' v' r' a' j' |]; try discriminate Hc.
    apply andb_prop in Hc. destruct Hc as [Hf Hv].
    apply String.eqb_eq in Hf. subst f'.
    apply negb_true_iff, String.eqb_neq in Hv.
    rewrite !andb_true_r in Hw.
    apply andb_prop in Hw. destruct Hw as [Hw _].
    apply andb_prop in Hw. destruct Hw as [Hact Hven].
    split; [exact Hin|]. split; [exact Hact|]. split; [exact Eid|]. split.
    + intros Hne. apply String.eqb_neq in Hne. rewrite Hne in Hven.
      apply String.eqb_eq. exact Hven.
    + exists f, p, v, r, a, j, p', v', r', a', j'. auto.
  - intros (Hin & Hact & Hid & Hven & f & p & v & r & a & j & p' & v' & r' & a' & j'
            & Dm & De & Hv).
    rewrite Dm, De, Hact. apply String.eqb_neq in Hid. rewrite Hid.
    apply String.eqb_neq in Hv. rewrite Hv, String.eqb_refl.
    split; [|reflexivity]. split; [exact Hin|].
    rewrite !andb_true_r. cbn [MemoryType_eqb andb].
    assert (E1 : (if String.eqb (mem_vendor memory) "" then true
                  else String.eqb (mem_vendor existing) (mem_vendor memory)) = true).
    { destruct (String.eqb (mem_vendor memory) "") eqn:E; [reflexivity|].
      apply String.eqb_neq in E. apply String.eqb_eq. exact (Hven E). }
    destruct (String.eqb (mem_vendor memory) ""), (String.eqb f ""); cbn;
      rewrite ?E1, ?String.eqb_refl; reflexivity.
Qed.

End ConflictingFacts.

(** * Field issues and scenarios *)

Lemma join_underscore_empty (l : list string) :
  (forall x, In x l -> x <> ""%string) -> join_underscore l = ""%string -> l = [].
Proof.
  destruct l as [|x l]; [reflexivity|]. intros Hne H. exfalso.
  apply (Hne x); [left; reflexivity|].
  destruct l as [|y l]; [exact H|].
  cbn [join_underscore] in H. destruct x; [reflexivity|discriminate H].
Qed.

(** An invoice is categorised as [standard] exactly when it has a PO
    number, a service date and a currency and does not include VAT. *)
Theorem categorizeInvoiceScenario_standard (inv : Invoice) :
  categorizeInvoiceScenario inv = "standard"%string <->
  truthy (field_of inv "poNumber") = true
  /\ truthy (field_of inv "serviceDate") = true
  /\ truthy (field_of inv "vatIncluded") = false
  /\ truthy (field_of inv "currency") = true.
Proof.
  unfold categorizeInvoiceScenario.
  destruct (truthy (field_of inv "poNumber")), (truthy (field_of inv "serviceDate")),
    (truthy (field_of inv "vatIncluded")), (truthy (field_of inv "currency"));
    vm_compute; split; intros H; try discriminate H; try reflexivity;
    try (repeat split; reflexivity);
    try (destruct H as (H1 & H2 & H3 & H4); discriminate).
Qed.

(** Every field [detectFieldIssues] flags is one of its six names, no field
    is flagged twice, and a flagged field other than [lineItems] has no
    truthy value in the invoice. *)
Theorem detectFieldIssues_sound (inv : Invoice) :
  List.NoDup (detectFieldIssues inv)
  /\ forall f, In f (detectFieldIssues inv) ->
       In f ["serviceDate"; "currency"; "poNumber"; "vatIncluded"; "vatAmount"; "lineItems"]%string
       /\ (f <> "lineItems"%string -> truthy (field_of inv f) = false).
Proof.
  unfold detectFieldIssues.
  destruct (truthy (field_of inv "serviceDate")) eqn:E1,
           (truthy (field_of inv "date")) eqn:E2,
           (truthy (field_of inv "currency")) eqn:E3,
           (truthy (field_of inv "poNumber")) eqn:E4,
           (field_of inv "vatIncluded") eqn:E5,
           (truthy (field_of inv "vatAmount")) eqn:E6,
           (truthy (field_of inv "amount")) eqn:E7,
           (lineItems_of inv) as [items|];
    try destruct (existsb _ items); cbn [negb andb app];
    (split;
     [repeat constructor; cbn [In]; intuition discriminate
     |intros f Hf; cbn [In] in Hf |- *;
      repeat match goal with H : _ \/ _ |- _ => destruct H as [<-|H] end;
      try contradiction; subst;
      (split; [tauto|intros Hne; try assumption; try congruence;
                     try (rewrite E5; reflexivity)])]).
Qed.

(** * Decay over time *)

(** For a memory unused for more than seven days, the confidence the decay
    computes is lower than its confidence when that is above the floor,
    and never rises as the time of the recall moves on. *)
Theorem decay_grows_with_idle_time (now now' : Z) (m : Memory) :
  (0 <= confidence m)%Q -> 7 < daysSinceLastUse now m -> now <= now' ->
  (decayedConfidence now' m <= decayedConfidence now m)%Q
  /\ ((MIN_CONFIDENCE < confidence m)%Q -> (decayedConfidence now m < confidence m)%Q).
Proof.
  intros Hc Hd Hnow.
  assert (Hdays : daysSinceLastUse now m <= daysSinceLastUse now' m).
  { unfold daysSinceLastUse, day_of, MS_PER_DAY.
    pose proof (Z.div_le_mono now now' (1000 * 60 * 60 * 24) ltac:(lia) Hnow). lia. }
  unfold decayedConfidence, MIN_CONFIDENCE.
  set (d := daysSinceLastUse now m) in *. set (d' := daysSinceLastUse now' m) in *.
  assert (E' : (CONFIDENCE_DECAY_RATE ^ (d' - 7)
                == CONFIDENCE_DECAY_RATE ^ (d - 7) * CONFIDENCE_DECAY_RATE ^ (d' - d))%Q).
  { rewrite <- Qpower_plus by (intros H0; discriminate H0).
    replace (d - 7 + (d' - d)) with (d' - 7) by lia. reflexivity. }
  assert (E : (CONFIDENCE_DECAY_RATE ^ (d - 7)
               == 0.95 * CONFIDENCE_DECAY_RATE ^ (d - 8))%Q).
  { change 0.95%Q with (CONFIDENCE_DECAY_RATE ^ 1)%Q.
    rewrite <- Qpower_plus by (intros H0; discriminate H0).
    replace (1 + (d - 8)) with (d - 7) by lia. reflexivity. }
  destruct (decay_factor_bounds (d - 7)) as [Hk1 Hk2]; [lia|].
  destruct (decay_factor_bounds (d' - d)) as [Hj1 Hj2]; [lia|].
  destruct (decay_factor_bounds (d - 8)) as [Hi1 Hi2]; [lia|].
  set (k := (CONFIDENCE_DECAY_RATE ^ (d - 7))%Q) in *.
  set (k' := (CONFIDENCE_DECAY_RATE ^ (d' - 7))%Q) in *.
  set (j := (CONFIDENCE_DECAY_RATE ^ (d' - d))%Q) in *.
  set (i := (CONFIDENCE_DECAY_RATE ^ (d - 8))%Q) in *.
  clearbody k k' j i.
  assert (Hck : (0 <= confidence m * k)%Q) by nra.
  assert (Hci : (0 <= confidence m * i)%Q) by nra.
  assert (E1 : (confidence m * k' == confidence m * k * j)%Q) by (rewrite E'; ring).
  assert (E2 : (confidence m * k == 0.95 * (confidence m * i))%Q) by (rewrite E; ring).
  assert (H1 : (confidence m * k' <= confidence m * k)%Q) by nra.
  assert (H2 : (confidence m * k <= 0.95 * confidence m)%Q) by nra.
  split; [|intros Hlo]; qminmax_cases; lra.
Qed.

Lemma decay_grows_with_idle_time_witness :
  7 < daysSinceLastUse (40 * DAY) mem_eur
  /\ (decayedConfidence (41 * DAY) mem_eur <= decayedConfidence (40 * DAY) mem_eur)%Q.
Proof.
  split; [reflexivity|].
  apply (decay_grows_with_idle_time (40 * DAY) (41 * DAY) mem_eur).
  - unfold Qle; simpl; lia.
  - reflexivity.
  - vm_compute. discriminate.
Defined.

(** * No memory is recalled twice *)

Lemma insert_sorted_Permutation (a : Memory) (l : list Memory) :
  Permutation (insert_sorted a l) (a :: l).
Proof.
  induction l as [|b l IH]; simpl; [reflexivity|].
  destruct (before a b); [reflexivity|].
  rewrite IH. apply perm_swap.
Qed.

Lemma order_by_Permutation (l : list Memory) : Permutation (order_by l) l.
Proof.
  unfold order_by. induction l as [|a l IH]; simpl; [reflexivity|].
  rewrite insert_sorted_Permutation, IH. reflexivity.
Qed.

Lemma NoDup_firstn {A : Type} (n : nat) (l : list A) : List.NoDup l -> List.NoDup (firstn n l).
Proof.
  revert l. induction n as [|n IH]; intros [|a l] H; simpl; try constructor.
  - inversion H as [|? ? Hnotin Hnd]; subst. intros Hin. apply Hnotin.
    rewrite <- (firstn_skipn n l). apply in_or_app. left. exact Hin.
  - inversion H; subst. apply IH. assumption.
Qed.

Lemma NoDup_map_app {A B : Type} (g : A -> B) (a b : list A) :
  List.NoDup (List.map g a) -> List.NoDup (List.map g b) ->
  (forall x y, In x a -> In y b -> g x <> g y) ->
  List.NoDup (List.map g (a ++ b)).
Proof.
  induction a as [|x a IH]; simpl; intros Ha Hb Hd; [exact Hb|].
  inversion Ha as [|? ? Hnotin Ha']; subst. constructor.
  - rewrite List.map_app. intros Hin. apply in_app_or in Hin. destruct Hin as [Hin|Hin].
    + exact (Hnotin Hin).
    + apply in_map_iff in Hin. destruct Hin as (y & Hy & Hyb).
      apply (Hd x y); [left; reflexivity|exact Hyb|symmetry; exact Hy].
  - apply IH; [exact Ha'|exact Hb|]. intros x' y Hx' Hy. apply Hd; [right; exact Hx'|exact Hy].
Qed.

Lemma keys_ids (s : Store) : List.map fst (List.map row_key s) = List.map mem_id s.
Proof. rewrite List.map_map. reflexivity. Qed.

Lemma keys_decay now memories : forall s,
  List.map row_key (applyDecayToUnusedMemories memories now s) = List.map row_key s.
Proof.
  unfold applyDecayToUnusedMemories.
  induction memories as [|m ms IH]; intros s; simpl; [reflexivity|].
  rewrite IH. unfold decay_one.
  destruct (7 <? daysSinceLastUse now m); [|reflexivity].
  destruct (negb _); [|reflexivity].
  unfold updateMemoryConfidence, update_where. rewrite List.map_map. apply List.map_ext.
  intros r. destruct (has_id (mem_id m) r); reflexivity.
Qed.

Lemma key_determines_data (K : list (string * MemoryData)) (id : string) (d1 d2 : MemoryData) :
  List.NoDup (List.map fst K) -> In (id, d1) K -> In (id, d2) K -> d1 = d2.
Proof.
  induction K as [|[i d] K IH]; simpl; intros Hnd H1 H2; [contradiction|].
  inversion Hnd as [|? ? Hnotin Hnd']; subst.
  destruct H1 as [H1|H1], H2 as [H2|H2].
  - congruence.
  - inversion H1; subst. exfalso. apply Hnotin.
    apply in_map_iff. exists (id, d2). auto.
  - inversion H2; subst. exfalso. apply Hnotin.
    apply in_map_iff. exists (id, d1). auto.
  - exact (IH Hnd' H1 H2).
Qed.

Lemma detectFieldIssues_fields (inv : Invoice) :
  List.NoDup (detectFieldIssues inv)
  /\ forall f, In f (detectFieldIssues inv) -> f <> ""%string.
Proof.
  unfold detectFieldIssues.
  destruct (negb (truthy (field_of inv "serviceDate")) && truthy (field_of inv "date")),
           (negb (truthy (field_of inv "currency"))),
           (negb (truthy (field_of inv "poNumber"))),
           (field_of inv "vatIncluded"),
           (negb (truthy (field_of inv "vatAmount")) && truthy (field_of inv "amount")),
           (lineItems_of inv) as [items|];
    try destruct (existsb _ items); cbn [app];
    (split; [repeat constructor; cbn [In]; intuition discriminate
            |intros f Hf; cbn [In] in Hf; intuition (subst; discriminate)]).
Qed.

Section RecalledOnce.

Variable sql_like : string -> string -> bool.
Variable regex_exec : string -> string -> string -> option (list string).
Variable regex_compiles : string -> bool.
Variable String_of : Json -> string.
Variable JSON_stringify : Json -> string.

Local Abbreviation recall' := (recallMemories sql_like).
Local Abbreviation applyMemories' :=
  (applyMemories sql_like regex_exec regex_compiles String_of JSON_stringify).
Local Abbreviation produces' := (produces regex_exec regex_compiles String_of).
Local Abbreviation processInvoice' :=
  (processInvoice sql_like regex_exec regex_compiles String_of JSON_stringify).

Lemma queryMemories_distinct q s :
  List.NoDup (List.map mem_id s) -> List.NoDup (List.map mem_id (queryMemories sql_like q s)).
Proof.
  intros Hnd. unfold queryMemories.
  assert (H : List.NoDup (List.map mem_id (order_by (List.filter (where_clause sql_like q) s)))).
  { eapply Permutation_NoDup;
      [apply Permutation_map; symmetry; apply order_by_Permutation|].
    apply NoDup_ids_filter. exact Hnd. }
  destruct (int_truthy (q_limit q)) as [n|]; [|exact H].
  unfold sql_limit. destruct (n <? 0); [exact H|].
  rewrite <- firstn_map. apply NoDup_firstn. exact H.
Qed.

Lemma recall_distinct inv query now s :
  List.NoDup (List.map mem_id s) ->
  List.NoDup (List.map mem_id (fst (recall' inv query now s))).
Proof.
  intros Hnd. unfold recallMemories. cbn [fst].
  apply NoDup_ids_filter, queryMemories_distinct. exact Hnd.
Qed.

Lemma recall_keys inv query now s :
  List.map row_key (snd (recall' inv query now s)) = List.map row_key s.
Proof. unfold recallMemories. cbn [snd]. apply keys_decay. Qed.

Lemma recall_typed inv t f now s m :
  In m (fst (recall' inv (typed_query t f) now s)) ->
  In (row_key m) (List.map row_key s) /\ mem_type m = t
  /\ match f with
     | Some x => x <> ""%string -> field_name_is x m = true
     | None => True
     end.
Proof.
  unfold recallMemories. cbn [fst]. intros Hm. apply filter_In in Hm. destruct Hm as [Hm _].
  apply queryMemories_In in Hm. destruct Hm as [Hin Hw].
  split; [apply in_map; exact Hin|].
  unfold where_clause, fullQuery, typed_query in Hw. cbn in Hw.
  repeat (apply andb_prop in Hw; destruct Hw as [Hw ?]).
  split.
  - destruct (mem_type m), t; try reflexivity; discriminate.
  - destruct f as [x|]; [|exact I]. intros Hx. apply String.eqb_neq in Hx.
    cbn in *. rewrite Hx in *. assumption.
Qed.

Lemma field_name_is_type f m : field_name_is f m = true -> mem_type m = correction.
Proof. unfold field_name_is, mem_type. destruct (data m); [discriminate|reflexivity|discriminate]. Qed.

Lemma field_name_is_unique f f' m :
  field_name_is f m = true -> field_name_is f' m = true -> f = f'.
Proof.
  unfold field_name_is. destruct (data m); try discriminate. intros H1 H2.
  apply String.eqb_eq in H1, H2. congruence.
Qed.

Lemma recall_fields_distinct inv now (K : list (string * MemoryData)) fields :
  List.NoDup (List.map fst K) -> List.NoDup fields -> (forall f, In f fields -> f <> ""%string) ->
  forall acc,
  List.map row_key (snd acc) = K ->
  List.NoDup (List.map mem_id (fst acc)) ->
  (forall m, In m (fst acc) ->
     In (row_key m) K /\ mem_type m <> resolution
     /\ forall f, In f fields -> field_name_is f m = false) ->
  List.NoDup (List.map mem_id (fst (List.fold_left (recall_field sql_like inv now) fields acc)))
  /\ List.map row_key (snd (List.fold_left (recall_field sql_like inv now) fields acc)) = K
  /\ forall m, In m (fst (List.fold_left (recall_field sql_like inv now) fields acc)) ->
       In (row_key m) K /\ mem_type m <> resolution.
Proof.
  intros HK. induction fields as [|f fs IH]; intros Hnd Hne acc Hkeys Hacc Hinv.
  - simpl. split; [exact Hacc|]. split; [exact Hkeys|].
    intros m Hm. destruct (Hinv m Hm) as (H1 & H2 & _). auto.
  - apply List.NoDup_cons_iff in Hnd. destruct Hnd as [Hnotin Hnd'].
    assert (Hf : f <> ""%string) by (apply Hne; left; reflexivity).
    assert (Hids : List.NoDup (List.map mem_id (snd acc))).
    { rewrite <- keys_ids, Hkeys. exact HK. }
    cbn [List.fold_left]. apply IH.
    + exact Hnd'.
    + intros f' Hf'. apply Hne. right. exact Hf'.
    + unfold recall_field.
      pose proof (recall_keys inv (typed_query correction (Some f)) now (snd acc)) as Hk.
      destruct (recall' inv (typed_query correction (Some f)) now (snd acc)).
      cbn [snd] in *. congruence.
    + unfold recall_field.
      pose proof (recall_distinct inv (typed_query correction (Some f)) now (snd acc) Hids) as Hd.
      pose proof (fun m => recall_typed inv correction (Some f) now (snd acc) m) as Ht.
      destruct (recall' inv (typed_query correction (Some f)) now (snd acc)) as [found s'].
      cbn [fst snd] in *. apply NoDup_map_app; [exact Hacc|exact Hd|].
      intros x y Hx Hy Heq.
      destruct (Hinv x Hx) as (Hxk & _ & Hxf).
      destruct (Ht y Hy) as (Hyk & _ & Hyf). rewrite Hkeys in Hyk.
      unfold row_key in Hxk, Hyk. rewrite Heq in Hxk.
      pose proof (key_determines_data K _ _ _ HK Hxk Hyk) as Hdata.
      specialize (Hyf Hf). specialize (Hxf f (or_introl eq_refl)).
      unfold field_name_is in Hxf, Hyf. rewrite Hdata in Hxf. congruence.
    + unfold recall_field.
      pose proof (fun m => recall_typed inv correction (Some f) now (snd acc) m) as Ht.
      destruct (recall' inv (typed_query correction (Some f)) now (snd acc)) as [found s'].
      cbn [fst snd] in *. intros m Hm. apply in_app_or in Hm. destruct Hm as [Hm|Hm].
      * destruct (Hinv m Hm) as (H1 & H2 & H3). split; [exact H1|]. split; [exact H2|].
        intros f' Hf'. apply H3. right. exact Hf'.
      * destruct (Ht m Hm) as (H1 & H2 & H3). rewrite Hkeys in H1.
        split; [exact H1|]. split; [congruence|].
        intros f' Hf'. specialize (H3 Hf).
        destruct (field_name_is f' m) eqn:E; [|reflexivity]. exfalso.
        apply Hnotin.
        rewrite (field_name_is_unique f f' m H3 E). exact Hf'.
Qed.

Lemma processor_recall_distinct inv now s :
  List.NoDup (List.map mem_id s) ->
  List.NoDup (List.map mem_id (fst (processor_recallMemories sql_like inv now s))).
Proof.
  intros Hnd. unfold processor_recallMemories.
  pose proof (recall_keys inv (typed_query vendor None) now s) as Hk1.
  pose proof (recall_distinct inv (typed_query vendor None) now s Hnd) as Hd1.
  pose proof (fun m => recall_typed inv vendor None now s m) as Ht1.
  destruct (recall' inv (typed_query vendor None) now s) as [vendorMemories s1].
  cbn [fst snd] in *.
  assert (HK : List.NoDup (List.map fst (List.map row_key s))) by (rewrite keys_ids; exact Hnd).
  destruct (detectFieldIssues_fields inv) as [Hfn Hfe].
  destruct (recall_fields_distinct inv now (List.map row_key s) (detectFieldIssues inv)
              HK Hfn Hfe (vendorMemories, s1) Hk1 Hd1) as (Hd2 & Hk2 & Ht2).
  { cbn [fst]. intros m Hm. destruct (Ht1 m Hm) as (H1 & H2 & _).
    split; [exact H1|]. split; [congruence|].
    intros f _. destruct (field_name_is f m) eqn:E; [|reflexivity].
    apply field_name_is_type in E. congruence. }
  destruct (List.fold_left (recall_field sql_like inv now) (detectFieldIssues inv)
              (vendorMemories, s1)) as [memories s2].
  cbn [fst snd] in *.
  assert (Hids2 : List.NoDup (List.map mem_id s2)).
  { rewrite <- keys_ids, Hk2. exact HK. }
  pose proof (recall_distinct inv (typed_query resolution None) now s2 Hids2) as Hd3.
  pose proof (fun m => recall_typed inv resolution None now s2 m) as Ht3.
  destruct (recall' inv (typed_query resolution None) now s2) as [resolutionMemories s3].
  cbn [fst snd] in *.
  apply NoDup_map_app; [exact Hd2|apply NoDup_ids_filter; exact Hd3|].
  intros x y Hx Hy Heq. apply filter_In in Hy. destruct Hy as [Hy _].
  destruct (Ht2 x Hx) as (Hxk & Hxt). destruct (Ht3 y Hy) as (Hyk & Hyt & _).
  rewrite Hk2 in Hyk. unfold row_key in Hxk, Hyk. rewrite Heq in Hxk.
  pose proof (key_determines_data _ _ _ _ HK Hxk Hyk) as Hdata.
  unfold mem_type in Hxt, Hyt. rewrite Hdata in Hxt. contradiction.
Qed.

Lemma produced_sources inv (ms : list Memory) :
  List.NoDup (List.map mem_id ms) ->
  List.NoDup (List.map memorySource (omap (produces' inv) ms))
  /\ forall id, In id (List.map memorySource (omap (produces' inv) ms)) ->
                In id (List.map mem_id ms).
Proof.
  induction ms as [|m ms IH]; intros Hnd; [split; [constructor|intros id []]|].
  inversion Hnd as [|? ? Hnotin Hnd']; subst.
  destruct (IH Hnd') as [IH1 IH2].
  cbn [omap list_omap]. destruct (produces' inv m) as [c|] eqn:E.
  - assert (Hsrc : memorySource c = mem_id m).
    { unfold produces in E. destruct (Qle_bool _ _); [|discriminate E].
      apply (applyMemory_source regex_exec regex_compiles String_of inv m c E). }
    cbn [List.map]. rewrite Hsrc. split.
    + constructor; [|exact IH1]. intros Hin. exact (Hnotin (IH2 _ Hin)).
    + intros id [<-|Hin]; [left; reflexivity|right; exact (IH2 _ Hin)].
  - split; [exact IH1|]. intros id Hin. right. exact (IH2 _ Hin).
Qed.

(** When the stored identifiers are distinct, no memory is recalled twice
    in a run, so no two proposed corrections of a run come from one
    memory and no memory is reinforced twice. *)
Theorem no_memory_recalled_twice (inv : Invoice) (now : Z) (s : Store) :
  List.NoDup (List.map mem_id s) ->
  List.NoDup (List.map mem_id (fst (processor_recallMemories sql_like inv now s)))
  /\ List.NoDup (List.map memorySource (proposedCorrections (fst (processInvoice' inv now s))))
  /\ List.NoDup (List.map u_memoryId (memoryUpdates (fst (processInvoice' inv now s)))).
Proof.
  intros Hnd. pose proof (processor_recall_distinct inv now s Hnd) as Hr.
  split; [exact Hr|].
  rewrite processInvoice_stages. cbn [proposedCorrections memoryUpdates].
  destruct (produced_sources inv _ Hr) as [Hs _].
  assert (Hu : List.map u_memoryId
                 (updates (fst (applyMemories' inv (fst (processor_recallMemories sql_like inv now s))
                                  now (snd (processor_recallMemories sql_like inv now s)))))
               = List.map Some
                   (List.map memorySource
                      (corrections
                         (fst (applyMemories' inv (fst (processor_recallMemories sql_like inv now s))
                                 now (snd (processor_recallMemories sql_like inv now s))))))).
  { rewrite List.map_map. unfold applyMemories. cbn [fst updates corrections].
    assert (G : forall ms st,
              List.map u_memoryId (st_updates st)
              = List.map (fun c => Some (memorySource c)) (st_corrections st) ->
              List.map u_memoryId
                (st_updates (List.fold_left
                               (apply_one sql_like regex_exec regex_compiles String_of inv now)
                               ms st))
              = List.map (fun c => Some (memorySource c))
                  (st_corrections (List.fold_left
                                     (apply_one sql_like regex_exec regex_compiles String_of inv now)
                                     ms st))).
    { induction ms as [|m ms IH]; intros st Hst; simpl; [exact Hst|].
      apply IH. rewrite apply_one_produces. destruct (produces' inv m) as [c|] eqn:E; [|exact Hst].
      cbn [st_updates st_corrections]. rewrite !List.map_app, Hst. cbn [List.map u_memoryId].
      assert (Hsrc : memorySource c = mem_id m).
      { unfold produces in E. destruct (Qle_bool _ _); [|discriminate E].
        apply (applyMemory_source regex_exec regex_compiles String_of inv m c E). }
      rewrite Hsrc. reflexivity. }
    apply G. reflexivity. }
  rewrite Hu, applyMemories_corrections.
  split; [exact Hs|].
  apply Finite.Injective_map_NoDup; [|exact Hs]. intros a b H. congruence.
Qed.

End RecalledOnce.

Lemma no_memory_recalled_twice_witness :
  List.NoDup (List.map mem_id [mem_low; mem_eur])
  /\ List.NoDup
       (List.map memorySource
          (proposedCorrections
             (fst (processInvoice stub_like stub_exec stub_compiles stub_String stub_stringify
                     invoice_no_currency DAY [mem_low; mem_eur])))).
Proof.
  split; [exact example_store_distinct|].
  apply (no_memory_recalled_twice stub_like stub_exec stub_compiles stub_String stub_stringify
           invoice_no_currency DAY [mem_low; mem_eur] example_store_distinct).
Defined.

(** * Objects: the normalized invoice and the input *)

(** ** Properties of an object *)

Lemma prop_assoc (k : string) (ps : list (string * Json)) : prop k ps = assoc k ps.
Proof.
  induction ps as [|[k' v] ps IH]; simpl; [reflexivity|].
  destruct (String.eqb k k'); [reflexivity|exact IH].
Qed.

Lemma list_to_map_prop (k : string) (ps : list (string * Json)) :
  (list_to_map ps : gmap string Json) !! k = prop k ps.
Proof.
  induction ps as [|[k' v] ps IH]; simpl; [apply lookup_empty|].
  destruct (String.eqb k k') eqn:E.
  - apply String.eqb_eq in E. subst k'. apply lookup_insert_eq.
  - apply String.eqb_neq in E. rewrite lookup_insert_ne by congruence. exact IH.
Qed.

Lemma prop_set_prop {A : Type} (k k' : string) (v : A) (ps : list (string * A)) :
  prop k' (set_prop k v ps) = if String.eqb k' k then Some v else prop k' ps.
Proof.
  induction ps as [|[k0 v0] ps IH]; simpl.
  - destruct (String.eqb k' k); reflexivity.
  - destruct (String.eqb k k0) eqn:E; simpl.
    + apply String.eqb_eq in E. subst k0.
      destruct (String.eqb k' k); reflexivity.
    + destruct (String.eqb k' k0) eqn:E0.
      * apply String.eqb_eq in E0. subst k0.
        rewrite String.eqb_sym, E. reflexivity.
      * exact IH.
Qed.

Lemma list_to_map_set_prop (k : string) (v : Json) (ps : list (string * Json)) :
  (list_to_map (set_prop k v ps) : gmap string Json) = <[k := v]> (list_to_map ps).
Proof.
  apply map_eq. intros k'. rewrite list_to_map_prop, prop_set_prop.
  destruct (String.eqb k' k) eqn:E.
  - apply String.eqb_eq in E. subst k'. rewrite lookup_insert_eq. reflexivity.
  - apply String.eqb_neq in E. rewrite lookup_insert_ne by congruence.
    symmetry. apply list_to_map_prop.
Qed.

(** The first occurrence of a property splits the list. *)
Lemma prop_split {A : Type} (k : string) (ps : list (string * A)) (v : A) :
  prop k ps = Some v ->
  exists before after, ps = before ++ (k, v) :: after /\ prop k before = None.
Proof.
  induction ps as [|[k' v'] ps IH]; simpl; [discriminate|].
  destruct (String.eqb k k') eqn:E.
  - intros H. inversion H; subst v'. apply String.eqb_eq in E. subst k'.
    exists [], ps. split; reflexivity.
  - intros H. destruct (IH H) as (b & a & -> & Hb).
    exists ((k', v') :: b), a. split; [reflexivity|]. simpl. rewrite E. exact Hb.
Qed.

Lemma prop_app {A : Type} (k : string) (l1 l2 : list (string * A)) :
  prop k (l1 ++ l2) = match prop k l1 with Some v => Some v | None => prop k l2 end.
Proof.
  induction l1 as [|[k' v'] l1 IH]; simpl; [reflexivity|].
  destruct (String.eqb k k'); [reflexivity|exact IH].
Qed.

Lemma set_prop_app {A : Type} (k : string) (v v0 : A) (l1 l2 : list (string * A)) :
  prop k l1 = None ->
  set_prop k v (l1 ++ (k, v0) :: l2) = l1 ++ (k, v) :: l2.
Proof.
  induction l1 as [|[k' v'] l1 IH]; simpl.
  - rewrite String.eqb_refl. reflexivity.
  - destruct (String.eqb k k'); [discriminate|]. intros H. rewrite (IH H). reflexivity.
Qed.

(** ** Documents *)

Lemma Json_nested_ind (P : Json -> Prop) :
  P JNull -> (forall b, P (JBool b)) -> (forall q, P (JNum q)) -> (forall s, P (JStr s)) ->
  (forall items, Forall P items -> P (JArr items)) ->
  (forall props, Forall (fun kj => P kj.2) props -> P (JObj props)) ->
  forall j, P j.
Proof.
  intros Hnull Hbool Hnum Hstr Harr Hobj.
  fix IH 1. intros [| b | q | s | items | props].
  - exact Hnull.
  - apply Hbool.
  - apply Hnum.
  - apply Hstr.
  - apply Harr.
    exact ((fix go (l : list Json) : Forall P l :=
              match l with
              | [] => List.Forall_nil P
              | x :: r => @List.Forall_cons _ P x r (IH x) (go r)
              end) items).
  - apply Hobj.
    exact ((fix go (l : list (string * Json)) : Forall (fun kj => P kj.2) l :=
              match l with
              | [] => List.Forall_nil _
              | x :: r => @List.Forall_cons _ (fun kj => P kj.2) x r (IH x.2) (go r)
              end) props).
Qed.

Lemma list_max_elem (l : list nat) (n : nat) : In n l -> (n <= list_max l)%nat.
Proof.
  intros H. pose proof (proj1 (list_max_le l (list_max l)) (Nat.le_refl _)) as Hall.
  rewrite List.Forall_forall in Hall. exact (Hall n H).
Qed.

(** ** Traversal *)

Lemma mapM_impl {A B : Type} (f g : A -> option B) (l : list A) (r : list B) :
  mapM f l = Some r ->
  (forall x y, In x l -> In y r -> f x = Some y -> g x = Some y) ->
  mapM g l = Some r.
Proof.
  rewrite !mapM_Some. intros H. induction H as [|x y l r Hxy H IH]; intros Himp.
  - constructor.
  - constructor.
    + apply Himp; [left; reflexivity|left; reflexivity|exact Hxy].
    + apply IH. intros x' y' Hx' Hy'. apply Himp; right; assumption.
Qed.

Lemma in_concat_fmap {A : Type} (f : A -> list nat) (r : list A) (y : A) (i : nat) :
  In y r -> In i (f y) -> In i (concat (f <$> r)).
Proof.
  intros Hy Hi. apply in_concat. exists (f y). split; [|exact Hi].
  apply in_map_iff. exists y. split; [reflexivity|exact Hy].
Qed.

Lemma walk_fuel (n : nat) : forall (h : Heap) (v : Val) r,
  walk n h v = Some r -> forall m, (n <= m)%nat -> walk m h v = Some r.
Proof.
  induction n as [|n IH]; intros h v r H m Hm; destruct v as [| | | |l]; simpl in *;
    try (destruct m; exact H); try discriminate.
  destruct m as [|m]; [lia|]. simpl.
  destruct (h !! l) as [[items|props]|]; [| |discriminate].
  - destruct (mapM (walk n h) items) as [r0|] eqn:E; [|discriminate].
    rewrite (mapM_impl _ (walk m h) _ _ E); [exact H|].
    intros x y _ _ Hxy. apply (IH h x y Hxy). lia.
  - destruct (mapM _ props) as [r0|] eqn:E; [|discriminate].
    rewrite (mapM_impl _ (fun kv => w ← walk m h kv.2; Some (kv.1, w)) _ _ E); [exact H|].
    intros x y _ _ Hxy. destruct (walk n h x.2) as [w|] eqn:Ew; [|discriminate].
    rewrite (IH h x.2 w Ew m) by lia. exact Hxy.
Qed.

Lemma walk_prefix (n : nat) : forall (h ext : Heap) (v : Val) r,
  walk n h v = Some r -> walk n (h ++ ext) v = Some r.
Proof.
  induction n as [|n IH]; intros h ext v r H; destruct v as [| | | |l]; simpl in *;
    try exact H; try discriminate.
  destruct (h !! l) as [c|] eqn:El; [|discriminate].
  rewrite (lookup_app_l_Some _ _ _ _ El).
  destruct c as [items|props].
  - destruct (mapM (walk n h) items) as [r0|] eqn:E; [|discriminate].
    rewrite (mapM_impl _ (walk n (h ++ ext)) _ _ E); [exact H|].
    intros x y _ _ Hxy. apply IH. exact Hxy.
  - destruct (mapM _ props) as [r0|] eqn:E; [|discriminate].
    rewrite (mapM_impl _ (fun kv => w ← walk n (h ++ ext) kv.2; Some (kv.1, w)) _ _ E);
      [exact H|].
    intros x y _ _ Hxy. destruct (walk n h x.2) as [w|] eqn:Ew; [|discriminate].
    rewrite (IH h ext x.2 w Ew). exact Hxy.
Qed.

(** An object the traversal does not visit may change. *)
Lemma walk_insert (n : nat) : forall (h : Heap) (v : Val) (j : Json) (ls : list nat)
    (i : nat) (c : Cell),
  walk n h v = Some (j, ls) -> ~ In i ls -> walk n (<[i := c]> h) v = Some (j, ls).
Proof.
  induction n as [|n IH]; intros h v j ls i c H Hi; destruct v as [| | | |l]; simpl in *;
    try exact H; try discriminate.
  destruct (h !! l) as [c0|] eqn:El; [|discriminate].
  destruct c0 as [items|props].
  - destruct (mapM (walk n h) items) as [r0|] eqn:E; [|discriminate].
    simpl in H. inversion H; subst j ls; clear H.
    assert (Hne : i <> l) by (intros ->; apply Hi; left; reflexivity).
    rewrite list_lookup_insert_ne by exact Hne. rewrite El.
    rewrite (mapM_impl _ (walk n (<[i := c]> h)) _ _ E); [reflexivity|].
    intros x [jx lx] _ Hy Hxy. apply IH; [exact Hxy|].
    intros Hin. apply Hi. right.
    exact (in_concat_fmap snd r0 (jx, lx) i Hy Hin).
  - destruct (mapM _ props) as [r0|] eqn:E; [|discriminate].
    simpl in H. inversion H; subst j ls; clear H.
    assert (Hne : i <> l) by (intros ->; apply Hi; left; reflexivity).
    rewrite list_lookup_insert_ne by exact Hne. rewrite El.
    rewrite (mapM_impl _ (fun kv => w ← walk n (<[i := c]> h) kv.2; Some (kv.1, w)) _ _ E);
      [reflexivity|].
    intros x [k [jx lx]] _ Hy Hxy.
    destruct (walk n h x.2) as [[jw lw]|] eqn:Ew; [|discriminate].
    simpl in Hxy. inversion Hxy; subst k jw lw; clear Hxy.
    rewrite (IH h x.2 jx lx i c Ew); [reflexivity|].
    intros Hin. apply Hi. right.
    exact (in_concat_fmap (fun y => y.2.2) r0 (x.1, (jx, lx)) i Hy Hin).
Qed.


Lemma mapM_In_r {A B : Type} (f : A -> option B) (l : list A) (r : list B) (y : B) :
  mapM f l = Some r -> In y r -> exists x, In x l /\ f x = Some y.
Proof.
  rewrite mapM_Some. intros H. induction H as [|x0 y0 l r Hxy H IH]; intros Hy; [inversion Hy|].
  destruct Hy as [<-|Hy].
  - exists x0. split; [left; reflexivity|exact Hxy].
  - destruct (IH Hy) as (x & Hx & Hfx). exists x. split; [right; exact Hx|exact Hfx].
Qed.

(** ** Creating the objects of a document *)

(** What [alloc j h = (v, h')] gives: the heap grows at its end, by at
    least the depth of the document; the new value denotes the document and
    is made of new objects only. *)
Lemma alloc_items (items : list Json) :
  Forall (fun j => forall h v h', alloc j h = (v, h') ->
            (exists ext, h' = h ++ ext) /\ (length h + depth j <= length h')%nat
            /\ exists ls, walk (depth j) h' v = Some (j, ls)
                          /\ Forall (fun l => (length h <= l < length h')%nat) ls) items ->
  forall h vs h', alloc_seq alloc items h = (vs, h') ->
    (exists ext, h' = h ++ ext)
    /\ (length h + list_max (List.map depth items) <= length h')%nat
    /\ Forall2 (fun x v => exists ls, walk (depth x) h' v = Some (x, ls)
                                      /\ Forall (fun l => (length h <= l < length h')%nat) ls)
         items vs.
Proof.
  intros Hall. induction Hall as [|x rest Hx Hrest IH]; intros h vs h' H; simpl in H.
  - inversion H; subst. split; [exists []; rewrite app_nil_r; reflexivity|].
    split; [simpl; lia|constructor].
  - destruct (alloc x h) as [v h1] eqn:Ex.
    destruct (alloc_seq alloc rest h1) as [vs' h2] eqn:Er.
    inversion H; subst vs h'; clear H.
    destruct (Hx h v h1 Ex) as ((e1 & ->) & Hlen1 & ls & Hw & Hb).
    destruct (IH _ _ _ Er) as ((e2 & ->) & Hlen2 & Hf2).
    split; [exists (e1 ++ e2); rewrite app_assoc; reflexivity|].
    split; [simpl; rewrite !length_app in *; lia|].
    constructor.
    + exists ls. split; [apply walk_prefix; exact Hw|].
      eapply Forall_impl; [exact Hb|]. simpl. intros l Hl. rewrite !length_app in *. lia.
    + eapply Forall2_impl; [exact Hf2|]. simpl. intros y w (ls' & Hw' & Hb').
      exists ls'. split; [exact Hw'|].
      eapply Forall_impl; [exact Hb'|]. simpl. intros l Hl. rewrite !length_app in *. lia.
Qed.

Lemma alloc_props (props : list (string * Json)) :
  Forall (fun kj => forall h v h', alloc kj.2 h = (v, h') ->
            (exists ext, h' = h ++ ext) /\ (length h + depth kj.2 <= length h')%nat
            /\ exists ls, walk (depth kj.2) h' v = Some (kj.2, ls)
                          /\ Forall (fun l => (length h <= l < length h')%nat) ls) props ->
  forall h ps h',
    alloc_seq (fun kj h0 => let '(v, h1) := alloc kj.2 h0 in ((kj.1, v), h1)) props h = (ps, h') ->
    (exists ext, h' = h ++ ext)
    /\ (length h + list_max (List.map (fun kj => depth kj.2) props) <= length h')%nat
    /\ Forall2 (fun kj kv => kv.1 = kj.1
                  /\ exists ls, walk (depth kj.2) h' kv.2 = Some (kj.2, ls)
                                /\ Forall (fun l => (length h <= l < length h')%nat) ls)
         props ps.
Proof.
  intros Hall. induction Hall as [|x rest Hx Hrest IH]; intros h ps h' H; simpl in H.
  - inversion H; subst. split; [exists []; rewrite app_nil_r; reflexivity|].
    split; [simpl; lia|constructor].
  - destruct (alloc x.2 h) as [v h1] eqn:Ex.
    destruct (alloc_seq _ rest h1) as [ps' h2] eqn:Er.
    inversion H; subst ps h'; clear H.
    destruct (Hx h v h1 Ex) as ((e1 & ->) & Hlen1 & ls & Hw & Hb).
    destruct (IH _ _ _ Er) as ((e2 & ->) & Hlen2 & Hf2).
    split; [exists (e1 ++ e2); rewrite app_assoc; reflexivity|].
    split; [simpl; rewrite !length_app in *; lia|].
    constructor.
    + split; [reflexivity|]. exists ls. split; [apply walk_prefix; exact Hw|].
      eapply Forall_impl; [exact Hb|]. simpl. intros l Hl. rewrite !length_app in *. lia.
    + eapply Forall2_impl; [exact Hf2|]. simpl. intros y w (Hk & ls' & Hw' & Hb').
      split; [exact Hk|]. exists ls'. split; [exact Hw'|].
      eapply Forall_impl; [exact Hb'|]. simpl. intros l Hl. rewrite !length_app in *. lia.
Qed.

(** The traversal of the values of a list of documents just created. *)
Lemma walk_items (d : nat) (h : Heap) (lo hi : nat) (items : list Json) (vs : list Val) :
  Forall2 (fun x v => exists ls, walk d h v = Some (x, ls)
                                 /\ Forall (fun l => (lo <= l < hi)%nat) ls) items vs ->
  exists r, mapM (walk d h) vs = Some r /\ r.*1 = items
            /\ Forall (fun l => (lo <= l < hi)%nat) (concat (r.*2)).
Proof.
  intros H. induction H as [|x v items vs (ls & Hw & Hb) H (r & Hr & Hr1 & Hr2)].
  - exists []. split; [reflexivity|]. split; [reflexivity|constructor].
  - exists ((x, ls) :: r). split; [|split].
    + apply mapM_Some. constructor; [exact Hw|]. apply mapM_Some. exact Hr.
    + rewrite fmap_cons. simpl. f_equal. exact Hr1.
    + rewrite fmap_cons. simpl. apply Forall_app. split; assumption.
Qed.

Lemma walk_props_of (B : nat -> Prop) (d : nat) (h : Heap) (props : list (string * Json))
    (ps : list (string * Val)) :
  Forall2 (fun kj kv => kv.1 = kj.1
             /\ exists ls, walk d h kv.2 = Some (kj.2, ls) /\ Forall B ls) props ps ->
  exists r, mapM (fun kv => w ← walk d h kv.2; Some (kv.1, w)) ps = Some r
            /\ (fun x => (x.1, x.2.1)) <$> r = props
            /\ Forall B (concat ((fun x => x.2.2) <$> r)).
Proof.
  intros H. induction H as [|[k j] [k' v] props ps (Hk & ls & Hw & Hb) H (r & Hr & Hr1 & Hr2)].
  - exists []. split; [reflexivity|]. split; [reflexivity|constructor].
  - simpl in Hk, Hw. subst k'. exists ((k, (j, ls)) :: r). split; [|split].
    + apply mapM_Some. constructor; [simpl; rewrite Hw; reflexivity|].
      apply mapM_Some. exact Hr.
    + rewrite fmap_cons. simpl. f_equal. exact Hr1.
    + rewrite fmap_cons. simpl. apply Forall_app. split; assumption.
Qed.

Lemma alloc_spec (j : Json) : forall h v h', alloc j h = (v, h') ->
  (exists ext, h' = h ++ ext) /\ (length h + depth j <= length h')%nat
  /\ exists ls, walk (depth j) h' v = Some (j, ls)
                /\ Forall (fun l => (length h <= l < length h')%nat) ls.
Proof.
  induction j as [| b | q | s | items IH | props IH] using Json_nested_ind; intros h v h' H;
    simpl in H.
  1-4: inversion H; subst; (split; [exists []; rewrite app_nil_r; reflexivity|]);
       (split; [simpl; lia|]); exists []; split; [reflexivity|constructor].
  - destruct (alloc_seq alloc items h) as [vs h1] eqn:E. inversion H; subst v h'; clear H.
    destruct (alloc_items items IH h vs h1 E) as ((e & ->) & Hlen & Hf).
    split; [exists (e ++ [CArr vs]); rewrite app_assoc; reflexivity|].
    split; [simpl; rewrite !length_app in *; simpl; lia|].
    assert (Hf' : Forall2 (fun x v => exists ls,
                   walk (list_max (List.map depth items)) ((h ++ e) ++ [CArr vs]) v = Some (x, ls)
                   /\ Forall (fun l => (length h <= l < length (h ++ e))%nat) ls) items vs).
    { apply Forall2_same_length_lookup_2; [eapply Forall2_length; exact Hf|].
      intros i x w Hx Hv.
      destruct (Forall2_lookup_lr _ _ _ _ _ _ Hf Hx Hv) as (ls & Hw & Hb).
      exists ls. split; [|exact Hb]. apply walk_prefix.
      apply (walk_fuel _ _ _ _ Hw). apply list_max_elem, in_map.
      apply list_elem_of_In, list_elem_of_lookup. exists i. exact Hx. }
    destruct (walk_items _ _ _ _ _ _ Hf') as (r & Hr & Hr1 & Hr2).
    exists (length (h ++ e) :: concat (r.*2)). split.
    + simpl. rewrite list_lookup_middle by reflexivity. rewrite Hr. simpl. rewrite Hr1.
      reflexivity.
    + constructor; [rewrite !length_app; simpl; lia|].
      eapply Forall_impl; [exact Hr2|]. simpl. intros l Hl. rewrite !length_app in *. simpl. lia.
  - destruct (alloc_seq _ props h) as [ps h1] eqn:E. inversion H; subst v h'; clear H.
    destruct (alloc_props props IH h ps h1 E) as ((e & ->) & Hlen & Hf).
    split; [exists (e ++ [CObj ps]); rewrite app_assoc; reflexivity|].
    split; [simpl; rewrite !length_app in *; simpl; lia|].
    assert (Hf' : Forall2 (fun kj kv => kv.1 = kj.1 /\ exists ls,
                   walk (list_max (List.map (fun kj => depth kj.2) props))
                     ((h ++ e) ++ [CObj ps]) kv.2 = Some (kj.2, ls)
                   /\ Forall (fun l => (length h <= l < length (h ++ e))%nat) ls) props ps).
    { apply Forall2_same_length_lookup_2; [eapply Forall2_length; exact Hf|].
      intros i x w Hx Hv.
      destruct (Forall2_lookup_lr _ _ _ _ _ _ Hf Hx Hv) as (Hk & ls & Hw & Hb).
      split; [exact Hk|]. exists ls. split; [|exact Hb]. apply walk_prefix.
      apply (walk_fuel _ _ _ _ Hw). apply list_max_elem.
      apply in_map_iff. exists x. split; [reflexivity|].
      apply list_elem_of_In, list_elem_of_lookup. exists i. exact Hx. }
    destruct (walk_props_of (fun l => (length h <= l < length (h ++ e))%nat) _ _ _ _ Hf')
      as (r & Hr & Hr1 & Hr2).
    exists (length (h ++ e) :: concat ((fun x => x.2.2) <$> r)). split.
    + simpl. rewrite list_lookup_middle by reflexivity. rewrite Hr. simpl. rewrite Hr1.
      reflexivity.
    + constructor; [rewrite !length_app; simpl; lia|].
      eapply Forall_impl; [exact Hr2|]. simpl. intros l Hl. rewrite !length_app in *. simpl. lia.
Qed.

Lemma alloc_seq_app {A B : Type} (f : A -> Heap -> B * Heap) (l1 l2 : list A) (h : Heap) :
  alloc_seq f (l1 ++ l2) h =
  let '(ys1, h1) := alloc_seq f l1 h in
  let '(ys2, h2) := alloc_seq f l2 h1 in
  (ys1 ++ ys2, h2).
Proof.
  revert h. induction l1 as [|x l1 IH]; intros h; simpl.
  - destruct (alloc_seq f l2 h); reflexivity.
  - destruct (f x h) as [y h1]. rewrite IH.
    destruct (alloc_seq f l1 h1) as [ys1 h2]. destruct (alloc_seq f l2 h2). reflexivity.
Qed.

Lemma alloc_props_spec (props : list (string * Json)) (h : Heap) ps h' :
  alloc_seq (fun kj h0 => let '(v, h1) := alloc kj.2 h0 in ((kj.1, v), h1)) props h = (ps, h') ->
  (exists ext, h' = h ++ ext)
  /\ (length h + list_max (List.map (fun kj => depth kj.2) props) <= length h')%nat
  /\ Forall2 (fun kj kv => kv.1 = kj.1
                /\ exists ls, walk (depth kj.2) h' kv.2 = Some (kj.2, ls)
                              /\ Forall (fun l => (length h <= l < length h')%nat) ls)
       props ps.
Proof.
  apply alloc_props. apply List.Forall_forall. intros kj _. apply alloc_spec.
Qed.

(** The traversal visits objects of the heap only. *)
Lemma walk_bound (n : nat) : forall (h : Heap) (v : Val) (j : Json) (ls : list nat),
  walk n h v = Some (j, ls) -> Forall (fun l => (l < length h)%nat) ls.
Proof.
  induction n as [|n IH]; intros h v j ls H; destruct v as [| | | |l]; simpl in *;
    try (inversion H; subst; constructor); try discriminate.
  destruct (h !! l) as [c0|] eqn:El; [|discriminate].
  assert (Hl : (l < length h)%nat) by (apply lookup_lt_is_Some; eauto).
  destruct c0 as [items|props].
  - destruct (mapM (walk n h) items) as [r0|] eqn:E; [|discriminate].
    simpl in H. inversion H; subst j ls; clear H.
    constructor; [exact Hl|]. apply List.Forall_forall. intros i Hin.
    apply in_concat in Hin. destruct Hin as (lx & Hlx & Hi).
    apply in_map_iff in Hlx. destruct Hlx as ([jy ly] & <- & Hy).
    destruct (mapM_In_r _ _ _ _ E Hy) as (x & _ & Hx).
    pose proof (IH h x jy ly Hx) as Hb. rewrite List.Forall_forall in Hb. exact (Hb i Hi).
  - destruct (mapM _ props) as [r0|] eqn:E; [|discriminate].
    simpl in H. inversion H; subst j ls; clear H.
    constructor; [exact Hl|]. apply List.Forall_forall. intros i Hin.
    apply in_concat in Hin. destruct Hin as (lx & Hlx & Hi).
    apply in_map_iff in Hlx. destruct Hlx as ([k [jy ly]] & <- & Hy).
    destruct (mapM_In_r _ _ _ _ E Hy) as (x & _ & Hx).
    destruct (walk n h x.2) as [[jw lw]|] eqn:Ew; [|discriminate].
    simpl in Hx. inversion Hx; subst k jw lw; clear Hx.
    pose proof (IH h x.2 jy ly Ew) as Hb. rewrite List.Forall_forall in Hb. exact (Hb i Hi).
Qed.

(** ** Properties of two objects that correspond *)

Lemma prop_Forall2 {A B : Type} (R : A -> B -> Prop) (k : string)
    (ps : list (string * A)) (qs : list (string * B)) :
  Forall2 (fun a b => b.1 = a.1 /\ R a.2 b.2) ps qs ->
  match prop k ps, prop k qs with
  | Some a, Some b => R a b
  | None, None => True
  | _, _ => False
  end.
Proof.
  intros H. induction H as [|[k1 a] [k2 b] ps qs [Hk HR] H IH]; simpl; [exact I|].
  simpl in Hk, HR. subst k2. destruct (String.eqb k k1); [exact HR|exact IH].
Qed.

Lemma set_prop_Forall2 {A B : Type} (R : A -> B -> Prop) (k : string) (a : A) (b : B)
    (ps : list (string * A)) (qs : list (string * B)) :
  Forall2 (fun x y => y.1 = x.1 /\ R x.2 y.2) ps qs -> R a b ->
  Forall2 (fun x y => y.1 = x.1 /\ R x.2 y.2) (set_prop k a ps) (set_prop k b qs).
Proof.
  intros H Hab. induction H as [|[k1 a1] [k2 b1] ps qs [Hk HR] H IH]; simpl.
  - constructor; [split; [reflexivity|exact Hab]|constructor].
  - simpl in Hk, HR. subst k2. destruct (String.eqb k k1).
    + constructor; [split; [reflexivity|exact Hab]|exact H].
    + constructor; [split; [reflexivity|exact HR]|exact IH].
Qed.

Lemma Forall2_right {A B : Type} (Q : B -> Prop) (l : list A) (k : list B) :
  Forall2 (fun _ y => Q y) l k -> Forall Q k.
Proof. intros H. induction H; constructor; assumption. Qed.

Lemma prop_In {A : Type} (k : string) (ps : list (string * A)) (v : A) :
  prop k ps = Some v -> In (k, v) ps.
Proof.
  induction ps as [|[k' v'] ps IH]; simpl; [discriminate|].
  destruct (String.eqb k k') eqn:E.
  - intros H. inversion H; subst. apply String.eqb_eq in E. subst. left. reflexivity.
  - intros H. right. exact (IH H).
Qed.

(** A traversal that yields an object started at an object. *)
Lemma walk_object (n : nat) (h : Heap) (v : Val) (psj : list (string * Json)) (ls : list nat) :
  walk n h v = Some (JObj psj, ls) ->
  exists l m ps,
    v = VRef l /\ n = S m /\ h !! l = Some (CObj ps)
    /\ Forall2 (fun kj kv => kv.1 = kj.1
                  /\ exists lx, walk m h kv.2 = Some (kj.2, lx)) psj ps.
Proof.
  destruct n as [|m]; destruct v as [| | | |l]; simpl; try discriminate.
  destruct (h !! l) as [[items|ps]|] eqn:El; [| |discriminate].
  - destruct (mapM (walk m h) items); discriminate.
  - destruct (mapM _ ps) as [r|] eqn:E; [|discriminate]. simpl. intros H.
    inversion H; subst psj ls; clear H.
    exists l, m, ps. split; [reflexivity|]. split; [reflexivity|]. split; [exact El|].
    apply mapM_Some in E. clear -E.
    induction E as [|kv y ps r Hy E IH]; simpl; constructor; [|exact IH].
    destruct (walk m h kv.2) as [[jw lw]|]; [|discriminate].
    simpl in Hy. inversion Hy; subst y. simpl. split; [reflexivity|]. exists lw. reflexivity.
Qed.

Lemma walk_prefix_of (n : nat) (h h' : Heap) (v : Val) r :
  h `prefix_of` h' -> walk n h v = Some r -> walk n h' v = Some r.
Proof. intros [ext ->]. apply walk_prefix. Qed.

(** The values of the properties of an object just created, seen later:
    with more fuel, in a larger heap, after a change of an object they are
    not made of. *)
Lemma lift_props (props : list (string * Json)) (ps : list (string * Val)) (h h' : Heap)
    (lo hi d i : nat) (c : Cell) :
  Forall2 (fun kj kv => kv.1 = kj.1
             /\ exists ls, walk (depth kj.2) h kv.2 = Some (kj.2, ls)
                           /\ Forall (fun l => (lo <= l < hi)%nat) ls) props ps ->
  (list_max (List.map (fun kj => depth kj.2) props) <= d)%nat ->
  h `prefix_of` h' -> (i < lo \/ hi <= i)%nat ->
  Forall2 (fun kj kv => kv.1 = kj.1
             /\ exists ls, walk d (<[i := c]> h') kv.2 = Some (kj.2, ls)
                           /\ Forall (fun l => (lo <= l < hi)%nat) ls) props ps.
Proof.
  intros Hf Hd Hp Hi.
  apply Forall2_same_length_lookup_2; [eapply Forall2_length; exact Hf|].
  intros k x w Hx Hv.
  destruct (Forall2_lookup_lr _ _ _ _ _ _ Hf Hx Hv) as (Hk & ls & Hw & Hb).
  split; [exact Hk|]. exists ls. split; [|exact Hb].
  apply walk_insert.
  - apply (walk_prefix_of _ h); [exact Hp|].
    apply (walk_fuel _ _ _ _ Hw). etransitivity; [|exact Hd].
    apply list_max_elem. apply in_map_iff. exists x. split; [reflexivity|].
    apply list_elem_of_In, list_elem_of_lookup. exists k. exact Hx.
  - intros Hin. rewrite List.Forall_forall in Hb. specialize (Hb i Hin). lia.
Qed.

(** ** The assignments of [applyCorrections] *)

Lemma assign_fold (hc : Heap) (n le : nat) (psn : list (string * Val)) :
  hc !! n = Some (CObj psn) -> n <> le -> prop "extractedData" psn = Some (VRef le) ->
  (le < length hc)%nat ->
  forall (cs : list HCorrection) (eps : list (string * Val)),
    List.fold_left (assign_correction (VRef n)) cs (Some (<[le := CObj eps]> hc))
    = Some (<[le := CObj (List.fold_left
                            (fun e c => set_prop (c_field (hc_correction c))
                                          (hc_proposedValue c) e) cs eps)]> hc).
Proof.
  intros Hn Hne Hed Hle. induction cs as [|c cs IH]; intros eps; simpl; [reflexivity|].
  rewrite list_lookup_insert_ne by congruence. rewrite Hn, Hed. simpl.
  rewrite list_lookup_insert_eq by exact Hle. rewrite list_insert_insert_eq. apply IH.
Qed.

Lemma fold_set_prop_lookup {C A : Type} (key : C -> string) (val : C -> A) (f : string)
    (cs : list C) (eps : list (string * A)) :
  prop f (List.fold_left (fun e c => set_prop (key c) (val c) e) cs eps) =
  match List.find (fun c => String.eqb (key c) f) (rev cs) with
  | Some c => Some (val c)
  | None => prop f eps
  end.
Proof.
  induction cs as [|c cs IH] using rev_ind; [reflexivity|].
  rewrite fold_left_app, rev_app_distr. simpl. rewrite prop_set_prop.
  rewrite (String.eqb_sym f). destruct (String.eqb (key c) f); [reflexivity|exact IH].
Qed.

Lemma fold_set_prop_Forall2 {C A B : Type} (R : A -> B -> Prop) (key : C -> string)
    (va : C -> A) (vb : C -> B) (cs : list C) :
  Forall (fun c => R (va c) (vb c)) cs ->
  forall (ps : list (string * A)) (qs : list (string * B)),
    Forall2 (fun x y => y.1 = x.1 /\ R x.2 y.2) ps qs ->
    Forall2 (fun x y => y.1 = x.1 /\ R x.2 y.2)
      (List.fold_left (fun e c => set_prop (key c) (va c) e) cs ps)
      (List.fold_left (fun e c => set_prop (key c) (vb c) e) cs qs).
Proof.
  intros Hcs. induction Hcs as [|c cs Hc Hcs IH]; intros ps qs H; simpl; [exact H|].
  apply IH. apply set_prop_Forall2; assumption.
Qed.

Lemma alloc_object (props : list (string * Json)) (h : Heap) :
  alloc (JObj props) h =
  let '(ps, h1) :=
    alloc_seq (fun kj h0 => let '(v, h1) := alloc kj.2 h0 in ((kj.1, v), h1)) props h in
  (VRef (length h1), h1 ++ [CObj ps]).
Proof. reflexivity. Qed.

Lemma prefix_insert (h h' : Heap) (i : nat) (c : Cell) :
  h `prefix_of` h' -> (length h <= i)%nat -> h `prefix_of` <[i := c]> h'.
Proof.
  intros [ext ->] Hi. rewrite insert_app_r_alt by exact Hi. apply prefix_app_r. reflexivity.
Qed.

(** [applyCorrections] on an invoice object whose document is [JObj psj]:
    the result is a new object, which denotes the document with the
    corrected fields; nothing that existed is changed; the extracted data
    of the result is a new object; the other parts of the result are made
    of new objects only; a field of the extracted data holds the value of
    the last correction that names it, that very value, and is made of new
    objects only when no correction names it. *)
Lemma applyCorrections_h_spec (h1 : Heap) (invoice : Val) (psj eps : list (string * Json))
    (ls0 : list nat) (cs : list HCorrection) :
  walk (length h1) h1 invoice = Some (JObj psj, ls0) ->
  prop "extractedData" psj = Some (JObj eps) ->
  Forall (fun c => exists ls, walk (length h1) h1 (hc_proposedValue c)
                              = Some (proposedValue (hc_correction c), ls)) cs ->
  exists n le h2 ls,
    applyCorrections_h h1 invoice cs = Some (VRef n, h2)
    /\ h1 `prefix_of` h2
    /\ (length h1 <= le)%nat /\ (length h1 <= n)%nat
    /\ get_prop h2 (VRef n) "extractedData" = Some (VRef le)
    /\ walk (length h2) h2 (VRef n)
       = Some (JObj (set_prop "extractedData"
                       (JObj (List.fold_left
                                (fun e c => set_prop (c_field (hc_correction c))
                                              (proposedValue (hc_correction c)) e) cs eps))
                       psj), ls)
    /\ (forall k v, get_prop h2 (VRef n) k = Some v -> k <> "extractedData"%string ->
                    new_since h1 h2 v)
    /\ (forall f v, get_prop h2 (VRef le) f = Some v ->
          match List.find (fun c => String.eqb (c_field (hc_correction c)) f) (rev cs) with
          | Some c => v = hc_proposedValue c
          | None => new_since h1 h2 v
          end).
Proof.
  intros Hw Hed Hcs.
  destruct (prop_split _ _ _ Hed) as (before & after & -> & Hbefore).
  destruct (alloc_seq (fun kj h0 => let '(v, h1) := alloc kj.2 h0 in ((kj.1, v), h1))
              before h1) as [vb hb] eqn:Eb.
  destruct (alloc_seq (fun kj h0 => let '(v, h1) := alloc kj.2 h0 in ((kj.1, v), h1))
              eps hb) as [veps hee] eqn:Ee.
  destruct (alloc_seq (fun kj h0 => let '(v, h1) := alloc kj.2 h0 in ((kj.1, v), h1))
              after (hee ++ [CObj veps])) as [va hs] eqn:Ea.
  assert (Ealloc : alloc (JObj (before ++ ("extractedData"%string, JObj eps) :: after)) h1
                   = (VRef (length hs),
                      hs ++ [CObj (vb ++ ("extractedData"%string, VRef (length hee)) :: va)])).
  { rewrite alloc_object, alloc_seq_app, Eb. cbn [alloc_seq]. cbn [snd fst].
    rewrite alloc_object, Ee, Ea. reflexivity. }
  destruct (alloc_props_spec _ _ _ _ Eb) as (Pb & Lb & Fb).
  destruct (alloc_props_spec _ _ _ _ Ee) as (Pe & Le & Fe).
  destruct (alloc_props_spec _ _ _ _ Ea) as (Pa & La & Fa).
  set (le := length hee) in *.
  set (n := length hs) in *.
  set (psv := vb ++ ("extractedData"%string, VRef le) :: va) in *.
  set (hc := hs ++ [CObj psv]) in *.
  set (eps_fin := List.fold_left
                    (fun e c => set_prop (c_field (hc_correction c)) (hc_proposedValue c) e)
                    cs veps).
  set (eps_json := List.fold_left
                     (fun e c => set_prop (c_field (hc_correction c))
                                   (proposedValue (hc_correction c)) e) cs eps).
  set (h2 := <[le := CObj eps_fin]> hc).
  assert (Hlen_hb : (length h1 <= length hb)%nat) by (apply prefix_length; exact Pb).
  assert (Hlen_hee : (length hb <= le)%nat) by (apply prefix_length; exact Pe).
  assert (Hlen_he : length (hee ++ [CObj veps]) = S le) by (rewrite length_app; simpl; lia).
  assert (Hlen_hs : (S le <= n)%nat).
  { rewrite <- Hlen_he. apply prefix_length. exact Pa. }
  assert (Hlen_hc : length hc = S n) by (unfold hc; rewrite length_app; simpl; lia).
  assert (Hlen_h2 : length h2 = S n) by (unfold h2; rewrite length_insert; exact Hlen_hc).
  assert (Pee : hee `prefix_of` hc).
  { etransitivity; [apply (prefix_app_r hee hee [CObj veps]); reflexivity|].
    etransitivity; [exact Pa|]. apply prefix_app_r. reflexivity. }
  assert (Phb : hb `prefix_of` hc) by (etransitivity; [exact Pe|exact Pee]).
  assert (Ph1 : h1 `prefix_of` hc) by (etransitivity; [exact Pb|exact Phb]).
  assert (Phs : hs `prefix_of` hc) by (apply prefix_app_r; reflexivity).
  assert (Hle_cell : hc !! le = Some (CObj veps)).
  { apply (prefix_lookup_Some (hee ++ [CObj veps])).
    - apply list_lookup_middle. reflexivity.
    - etransitivity; [exact Pa|exact Phs]. }
  assert (Hn_cell : hc !! n = Some (CObj psv)) by (apply list_lookup_middle; reflexivity).
  assert (Hne : n <> le) by lia.
  assert (Hvb_none : prop "extractedData" vb = None).
  { pose proof (prop_Forall2 (fun (j : Json) (v : Val) =>
                   exists ls, walk (depth j) hb v = Some (j, ls)
                              /\ Forall (fun l => (length h1 <= l < length hb)%nat) ls)
                  "extractedData" before vb Fb) as H.
    rewrite Hbefore in H. destruct (prop "extractedData" vb); [contradiction|reflexivity]. }
  assert (Hed_v : prop "extractedData" psv = Some (VRef le)).
  { unfold psv. rewrite prop_app, Hvb_none. simpl. reflexivity. }
  assert (Hn2 : h2 !! n = Some (CObj psv)).
  { unfold h2. rewrite list_lookup_insert_ne by lia. exact Hn_cell. }
  assert (Hle2 : h2 !! le = Some (CObj eps_fin)).
  { unfold h2. apply list_lookup_insert_eq. rewrite Hlen_hc. lia. }
  (* the properties of the result and of its extracted data, in the final heap *)
  assert (Fb2 : forall d, (le <= d)%nat ->
            Forall2 (fun kj kv => kv.1 = kj.1
                       /\ exists ls, walk d h2 kv.2 = Some (kj.2, ls)
                                     /\ Forall (fun l => (length h1 <= l < length hb)%nat) ls)
              before vb).
  { intros d Hd. apply (lift_props before vb hb hc); [exact Fb| lia |exact Phb|lia]. }
  assert (Fa2 : forall d, (n - S le <= d)%nat ->
            Forall2 (fun kj kv => kv.1 = kj.1
                       /\ exists ls, walk d h2 kv.2 = Some (kj.2, ls)
                                     /\ Forall (fun l => (length (hee ++ [CObj veps]) <= l
                                                          < length hs)%nat) ls)
              after va).
  { intros d Hd. apply (lift_props after va hs hc); [exact Fa| |exact Phs|].
    - fold n in La. lia.
    - left. rewrite Hlen_he. lia. }
  assert (Fe2 : forall d, (le <= d)%nat ->
            Forall2 (fun kj kv => kv.1 = kj.1
                       /\ exists ls, walk d h2 kv.2 = Some (kj.2, ls)
                                     /\ Forall (fun l => (length hb <= l < le)%nat) ls)
              eps veps).
  { intros d Hd. apply (lift_props eps veps hee hc); [exact Fe| |exact Pee|].
    - fold le in Le. lia.
    - right. lia. }
  assert (Hcs2 : forall d, (le <= d)%nat ->
            Forall (fun c => exists ls, walk d h2 (hc_proposedValue c)
                                        = Some (proposedValue (hc_correction c), ls)
                                        /\ Forall (fun l => (l < le)%nat) ls) cs).
  { intros d Hd. eapply Forall_impl; [exact Hcs|]. simpl. intros c (ls & Hc).
    pose proof (walk_bound _ _ _ _ _ Hc) as Hb.
    exists ls. split.
    - apply walk_insert.
      + apply (walk_prefix_of _ h1); [exact Ph1|]. apply (walk_fuel _ _ _ _ Hc). lia.
      + intros Hin. rewrite List.Forall_forall in Hb. specialize (Hb le Hin). lia.
    - eapply Forall_impl; [exact Hb|]. simpl. intros l Hl. lia. }
  exists n, le, h2.
  (* the extracted data of the result *)
  assert (Fin : Forall2 (fun kj kv => kv.1 = kj.1
                           /\ exists ls, walk (n - 1) h2 kv.2 = Some (kj.2, ls)
                                         /\ Forall (fun l => (l < le)%nat) ls)
                  eps_json eps_fin).
  { apply (fold_set_prop_Forall2
             (fun (j : Json) (v : Val) =>
                exists ls, walk (n - 1) h2 v = Some (j, ls) /\ Forall (fun l => (l < le)%nat) ls)
             (fun c => c_field (hc_correction c))
             (fun c => proposedValue (hc_correction c)) hc_proposedValue cs).
    - apply Hcs2. lia.
    - eapply Forall2_impl; [apply (Fe2 (n - 1)%nat); lia|]. simpl.
      intros kj kv (Hk & ls & Hwk & Hb). split; [exact Hk|]. exists ls. split; [exact Hwk|].
      eapply Forall_impl; [exact Hb|]. simpl. intros l Hl. lia. }
  destruct (walk_props_of _ _ _ _ _ Fin) as (re & Hre & Hre1 & Hre2).
  assert (Hw_le : walk n h2 (VRef le)
                  = Some (JObj eps_json, le :: concat ((fun x => x.2.2) <$> re))).
  { replace n with (S (n - 1)) at 1 by lia. simpl. rewrite Hle2. rewrite Hre. simpl.
    rewrite Hre1. reflexivity. }
  (* the result *)
  assert (Ftop : Forall2 (fun kj kv => kv.1 = kj.1
                            /\ exists ls, walk n h2 kv.2 = Some (kj.2, ls) /\ Forall (fun _ => True) ls)
                   (before ++ ("extractedData"%string, JObj eps_json) :: after) psv).
  { unfold psv. apply Forall2_app; [|constructor].
    - eapply Forall2_impl; [apply (Fb2 n); lia|]. simpl.
      intros kj kv (Hk & ls & Hwk & Hb). split; [exact Hk|]. exists ls. split; [exact Hwk|].
      apply List.Forall_forall. intros; exact I.
    - split; [reflexivity|]. eexists. split; [exact Hw_le|].
      apply List.Forall_forall. intros; exact I.
    - eapply Forall2_impl; [apply (Fa2 n); lia|]. simpl.
      intros kj kv (Hk & ls & Hwk & Hb). split; [exact Hk|]. exists ls. split; [exact Hwk|].
      apply List.Forall_forall. intros; exact I. }
  destruct (walk_props_of _ _ _ _ _ Ftop) as (rt & Hrt & Hrt1 & _).
  exists (n :: concat ((fun x => x.2.2) <$> rt)).
  split.
  { unfold applyCorrections_h, JSON_clone. rewrite Hw. cbn [mbind option_bind fst].
    rewrite Ealloc. cbn [mbind option_bind].
    fold le n psv hc.
    rewrite <- (list_insert_id hc le (CObj veps) Hle_cell).
    rewrite (assign_fold hc n le psv Hn_cell Hne Hed_v) by (rewrite Hlen_hc; lia).
    reflexivity. }
  split; [apply prefix_insert; [exact Ph1|lia]|].
  split; [lia|]. split; [lia|].
  split; [simpl; rewrite Hn2; exact Hed_v|].
  split.
  { rewrite Hlen_h2. simpl. rewrite Hn2, Hrt. simpl. rewrite Hrt1.
    rewrite (set_prop_app _ _ _ _ _ Hbefore). reflexivity. }
  split.
  - intros k v Hk Hkne. simpl in Hk. rewrite Hn2 in Hk. apply prop_In in Hk.
    unfold psv in Hk. apply in_app_or in Hk.
    assert (Hnew : forall (props : list (string * Json)) (ps : list (string * Val)) lo hi,
              (length h1 <= lo)%nat ->
              Forall2 (fun kj kv => kv.1 = kj.1
                         /\ exists ls, walk (length h2) h2 kv.2 = Some (kj.2, ls)
                                       /\ Forall (fun l => (lo <= l < hi)%nat) ls) props ps ->
              In (k, v) ps -> new_since h1 h2 v).
    { intros props ps lo hi Hlo Hf Hin.
      assert (Hall : Forall (fun kv => new_since h1 h2 kv.2) ps).
      { apply (Forall2_right _ props). eapply Forall2_impl; [exact Hf|]. simpl.
        intros kj kv (_ & ls & Hwk & Hb). exists kj.2, ls. split; [exact Hwk|].
        eapply Forall_impl; [exact Hb|]. simpl. intros l Hl. lia. }
      rewrite List.Forall_forall in Hall. exact (Hall (k, v) Hin). }
    destruct Hk as [Hk|[Hk|Hk]].
    + apply (Hnew before vb (length h1) (length hb)); [lia| |exact Hk].
      apply Fb2. rewrite Hlen_h2. lia.
    + inversion Hk. congruence.
    + apply (Hnew after va (length (hee ++ [CObj veps])) (length hs)); [rewrite Hlen_he; lia| |exact Hk].
      apply Fa2. rewrite Hlen_h2. lia.
  - intros f v Hf. simpl in Hf. rewrite Hle2 in Hf. unfold eps_fin in Hf.
    rewrite (fold_set_prop_lookup (fun c => c_field (hc_correction c)) hc_proposedValue) in Hf.
    destruct (List.find _ (rev cs)) as [c|]; [inversion Hf; reflexivity|].
    apply prop_In in Hf.
    assert (Hall : Forall (fun kv => new_since h1 h2 kv.2) veps).
    { apply (Forall2_right _ eps). eapply Forall2_impl; [apply (Fe2 (length h2)); rewrite Hlen_h2; lia|].
      simpl. intros kj kv (_ & ls & Hwk & Hb). exists kj.2, ls. split; [exact Hwk|].
      eapply Forall_impl; [exact Hb|]. simpl. intros l Hl. lia. }
    rewrite List.Forall_forall in Hall. exact (Hall (f, v) Hf).
Qed.

(** ** The invoice an object is *)

Lemma invoice_of_json_inv (j : Json) (inv : Invoice) :
  invoice_of_json j = Some inv ->
  exists psj eps,
    j = JObj psj /\ prop "extractedData" psj = Some (JObj eps)
    /\ extractedData inv = list_to_map eps.
Proof.
  destruct j as [| | | | |psj]; try discriminate. unfold invoice_of_json.
  destruct (as_string (prop "id" psj)); [|discriminate].
  destruct (as_string (prop "vendor" psj)); [|discriminate].
  destruct (as_string (prop "rawText" psj)); [|discriminate].
  destruct (prop "extractedData" psj) as [[| | | | |eps]|] eqn:Eed; try discriminate.
  destruct (metadata_of_json (prop "metadata" psj)); [|discriminate].
  cbn. intros H. inversion H; subst inv. exists psj, eps.
  split; [reflexivity|]. split; [exact Eed|reflexivity].
Qed.

Lemma list_to_map_fold (cs : list Correction) : forall (eps : list (string * Json)),
  (list_to_map (List.fold_left (fun e c => set_prop (c_field c) (proposedValue c) e) cs eps)
     : gmap string Json)
  = List.fold_left (fun d c => <[c_field c := proposedValue c]> d) cs (list_to_map eps).
Proof.
  induction cs as [|c cs IH]; intros eps; simpl; [reflexivity|].
  rewrite IH, list_to_map_set_prop. reflexivity.
Qed.

(** The document with the corrected fields is the invoice [applyCorrections]
    computes. *)
Lemma invoice_of_json_corrected (psj eps : list (string * Json)) (inv : Invoice)
    (cs : list Correction) :
  invoice_of_json (JObj psj) = Some inv ->
  prop "extractedData" psj = Some (JObj eps) ->
  invoice_of_json
    (JObj (set_prop "extractedData"
             (JObj (List.fold_left (fun e c => set_prop (c_field c) (proposedValue c) e) cs eps))
             psj))
  = Some (applyCorrections inv cs).
Proof.
  unfold invoice_of_json. intros H Hed.
  rewrite !prop_set_prop. cbn [String.eqb Ascii.eqb Bool.eqb andb].
  rewrite Hed in H.
  destruct (as_string (prop "id" psj)); [|discriminate].
  destruct (as_string (prop "vendor" psj)); [|discriminate].
  destruct (as_string (prop "rawText" psj)); [|discriminate].
  destruct (metadata_of_json (prop "metadata" psj)); [|discriminate].
  cbn in H |- *. inversion H; subst inv. unfold applyCorrections. cbn.
  rewrite list_to_map_fold. reflexivity.
Qed.

(** A field of the invoice read as a value is the document of the value the
    object holds. *)
Lemma source_value (h : Heap) (invoice : Val) (inv : Invoice) (sf : string) (x : Json) :
  load_invoice h invoice = Some inv -> field_of inv sf = Some x ->
  exists v ls, get_field h invoice sf = Some v /\ walk (length h) h v = Some (x, ls).
Proof.
  unfold load_invoice. intros Hload Hx.
  destruct (walk (length h) h invoice) as [[j ls0]|] eqn:Hw; [|discriminate].
  cbn in Hload. destruct (invoice_of_json_inv _ _ Hload) as (psj & eps & -> & Hed & Hdata).
  unfold field_of in Hx. rewrite Hdata, list_to_map_prop in Hx.
  destruct (walk_object _ _ _ _ _ Hw) as (l & m & ps & -> & Hm & Hl & Hf).
  pose proof (prop_Forall2 (fun (jx : Json) (v : Val) => exists lx, walk m h v = Some (jx, lx))
                "extractedData" psj ps Hf) as Hp.
  rewrite Hed in Hp. destruct (prop "extractedData" ps) as [ved|] eqn:Eed; [|contradiction].
  destruct Hp as (lx & Hwed).
  destruct (walk_object _ _ _ _ _ Hwed) as (le & m' & eps0 & -> & Hm' & Hle & Hfe).
  pose proof (prop_Forall2 (fun (jx : Json) (v : Val) => exists lx, walk m' h v = Some (jx, lx))
                sf eps eps0 Hfe) as Hp'.
  rewrite Hx in Hp'. destruct (prop sf eps0) as [v|] eqn:Ev; [|contradiction].
  destruct Hp' as (ls & Hwv).
  exists v, ls. split.
  - unfold get_field. simpl. rewrite Hl, Eed. simpl. rewrite Hle. exact Ev.
  - apply (walk_fuel _ _ _ _ Hwv). lia.
Qed.

Lemma get_prop_prefix (h h' : Heap) (o : Val) (k : string) (v : Val) :
  h `prefix_of` h' -> get_prop h o k = Some v -> get_prop h' o k = Some v.
Proof.
  intros Hp. destruct o as [| | | |l]; simpl; try discriminate.
  destruct (h !! l) as [c|] eqn:El; [|discriminate].
  rewrite (prefix_lookup_Some _ _ _ _ El Hp). auto.
Qed.

Lemma get_field_prefix (h h' : Heap) (o : Val) (f : string) (v : Val) :
  h `prefix_of` h' -> get_field h o f = Some v -> get_field h' o f = Some v.
Proof.
  intros Hp. unfold get_field.
  destruct (get_prop h o "extractedData") as [ed|] eqn:E; [|discriminate].
  rewrite (get_prop_prefix _ _ _ _ _ Hp E). cbn. apply get_prop_prefix. exact Hp.
Qed.

Lemma load_invoice_prefix (h h' : Heap) (invoice : Val) (inv : Invoice) :
  h `prefix_of` h' -> load_invoice h invoice = Some inv -> load_invoice h' invoice = Some inv.
Proof.
  unfold load_invoice. intros Hp H.
  destruct (walk (length h) h invoice) as [r|] eqn:Hw; [|discriminate].
  rewrite (walk_prefix_of _ h h' invoice r Hp (walk_fuel _ _ _ _ Hw _ (prefix_length _ _ Hp))).
  exact H.
Qed.

Lemma Forall2_rev {A B : Type} (R : A -> B -> Prop) (l : list A) (k : list B) :
  Forall2 R l k -> Forall2 R (rev l) (rev k).
Proof.
  intros H. induction H; simpl; [constructor|].
  apply Forall2_app; [assumption|]. constructor; [assumption|constructor].
Qed.

Lemma find_Forall2 {A B : Type} (R : A -> B -> Prop) (p : A -> bool) (q : B -> bool)
    (l : list A) (k : list B) :
  Forall2 (fun a b => p a = q b /\ R a b) l k ->
  match List.find p l, List.find q k with
  | Some a, Some b => R a b
  | None, None => True
  | _, _ => False
  end.
Proof.
  intros H. induction H as [|a b l k [Hpq HR] H IH]; simpl; [exact I|].
  rewrite <- Hpq. destruct (p a); [exact HR|exact IH].
Qed.

(** ** The normalized invoice as an object *)

Lemma fold_left_hc {A : Type} (F : Correction -> A -> A) (cs : list HCorrection) : forall a,
  List.fold_left (fun e c => F (hc_correction c) e) cs a
  = List.fold_left (fun e c => F c e) (List.map hc_correction cs) a.
Proof. induction cs as [|c cs IH]; intros a; simpl; [reflexivity|apply IH]. Qed.

Lemma Forall2_corrections (Q : Correction * option string -> HCorrection -> Prop)
    (ps : list (Correction * option string)) (cs : list HCorrection) :
  Forall2 (fun p c => hc_correction c = p.1 /\ Q p c) ps cs ->
  List.map hc_correction cs = ps.*1.
Proof.
  intros H. induction H as [|p c ps cs [Hc _] H IH]; [reflexivity|].
  rewrite fmap_cons. simpl. f_equal; [exact Hc|exact IH].
Qed.

Section ObjectFacts.

Variable sql_like : string -> string -> bool.
Variable regex_exec : string -> string -> string -> option (list string).
Variable regex_compiles : string -> bool.
Variable String_of : Json -> string.
Variable JSON_stringify : Json -> string.

Local Abbreviation produces' := (produces regex_exec regex_compiles String_of).
Local Abbreviation proposals' := (proposals regex_exec regex_compiles String_of).
Local Abbreviation processInvoice' :=
  (processInvoice sql_like regex_exec regex_compiles String_of JSON_stringify).
Local Abbreviation processInvoice_h' :=
  (processInvoice_h sql_like regex_exec regex_compiles String_of JSON_stringify).

(** A value read from a source field is the value of that field. *)
Lemma read_from_value inv m c sf :
  produces' inv m = Some c -> read_from regex_exec inv m = Some sf ->
  field_of inv sf = Some (proposedValue c).
Proof.
  unfold produces, applyMemory, read_from.
  destruct (Qle_bool _ _); [|discriminate].
  destruct (data m) as [t act p| |]; [|discriminate 2|discriminate 2].
  unfold applyVendorMemory. destruct (negb _); [discriminate|].
  destruct (fst (candidate regex_exec inv t act)) as [proposed|] eqn:Ec; [|discriminate].
  destruct (identical inv act (candidate regex_exec inv t act)); [discriminate|].
  intros H Hs. inversion H; subst c; clear H. cbn [proposedValue].
  unfold candidate in Ec, Hs.
  destruct (act_type act).
  - destruct (str_is (strategy act) "extract_from_text" && String.eqb t "Leistungsdatum");
      [discriminate Hs|].
    destruct (str_truthy (sourceField act)) as [sf'|]; [|discriminate Hs].
    destruct (truthy (field_of inv sf')); [|discriminate Hs].
    cbn in Ec, Hs. inversion Hs; subst sf'. exact Ec.
  - destruct (str_is (strategy act) "vat_included_detection"); discriminate Hs.
  - discriminate Hs.
Qed.

Lemma proposals_corrections inv ms : (proposals' inv ms).*1 = omap (produces' inv) ms.
Proof.
  unfold proposals. induction ms as [|m ms IH]; [reflexivity|].
  cbn [omap list_omap]. destruct (produces' inv m); [|exact IH].
  rewrite fmap_cons. cbn [fst]. f_equal. exact IH.
Qed.

Lemma proposals_source inv ms c sf :
  In (c, Some sf) (proposals' inv ms) -> field_of inv sf = Some (proposedValue c).
Proof.
  unfold proposals. induction ms as [|m ms IH]; [intros []|].
  cbn [omap list_omap]. destruct (produces' inv m) as [c'|] eqn:E; [|exact IH].
  intros [H|H]; [|exact (IH H)].
  inversion H; subst c'. apply (read_from_value inv m); [exact E|assumption].
Qed.

(** The values of the proposals: each denotes the proposed value of its
    correction; one read from a field of the input is the value of that
    field, the others are made of new objects only. *)
Lemma proposed_values_spec (h : Heap) (invoice : Val) (ps : list (Correction * option string)) :
  (forall c sf, In (c, Some sf) ps ->
     exists v ls, get_field h invoice sf = Some v
                  /\ walk (length h) h v = Some (proposedValue c, ls)) ->
  forall cs0 h0, h `prefix_of` h0 ->
  exists cs h1,
    List.fold_left (proposed_value invoice) ps (Some (cs0, h0)) = Some (cs0 ++ cs, h1)
    /\ h0 `prefix_of` h1
    /\ Forall2 (fun p c =>
                  hc_correction c = p.1
                  /\ exists ls,
                       walk (length h1) h1 (hc_proposedValue c) = Some (proposedValue p.1, ls)
                       /\ match p.2 with
                          | Some sf => get_field h invoice sf = Some (hc_proposedValue c)
                          | None => Forall (fun l => (length h <= l)%nat) ls
                          end) ps cs.
Proof.
  induction ps as [|[c src] ps IH]; intros Hsrc cs0 h0 Hp.
  - exists [], h0. rewrite app_nil_r. split; [reflexivity|]. split; [reflexivity|constructor].
  - assert (Hsrc' : forall c' sf, In (c', Some sf) ps ->
              exists v ls, get_field h invoice sf = Some v
                           /\ walk (length h) h v = Some (proposedValue c', ls))
      by (intros c' sf H; apply Hsrc; right; exact H).
    cbn [List.fold_left]. unfold proposed_value at 2. cbn [mbind option_bind fst snd].
    destruct src as [sf|].
    + destruct (Hsrc c sf (or_introl eq_refl)) as (v & ls & Hg & Hw).
      rewrite (get_field_prefix _ _ _ _ _ Hp Hg). cbn [mbind option_bind].
      destruct (IH Hsrc' (cs0 ++ [mkHCorrection c v]) h0 Hp) as (cs & h1 & Hfold & Hp1 & Hf).
      exists (mkHCorrection c v :: cs), h1.
      split; [rewrite Hfold, <- app_assoc; reflexivity|]. split; [exact Hp1|].
      constructor; [|exact Hf]. split; [reflexivity|]. exists ls. split; [|exact Hg].
      cbn [hc_proposedValue fst].
      apply (walk_prefix_of _ h); [etransitivity; eassumption|].
      apply (walk_fuel _ _ _ _ Hw). apply prefix_length. etransitivity; eassumption.
    + destruct (alloc (proposedValue c) h0) as [v h0'] eqn:Ea.
      destruct (alloc_spec _ _ _ _ Ea) as (Pa & La & ls & Hw & Hb).
      assert (Pa' : h0 `prefix_of` h0') by exact Pa.
      destruct (IH Hsrc' (cs0 ++ [mkHCorrection c v]) h0') as (cs & h1 & Hfold & Hp1 & Hf);
        [etransitivity; eassumption|].
      exists (mkHCorrection c v :: cs), h1.
      split; [rewrite Hfold, <- app_assoc; reflexivity|].
      split; [etransitivity; eassumption|].
      constructor; [|exact Hf]. split; [reflexivity|]. exists ls. split.
      * cbn [hc_proposedValue fst].
        apply (walk_prefix_of _ h0'); [exact Hp1|].
        apply (walk_fuel _ _ _ _ Hw). pose proof (prefix_length _ _ Hp1). lia.
      * cbn [snd]. eapply Forall_impl; [exact Hb|]. simpl. intros l Hl.
        pose proof (prefix_length _ _ Hp). lia.
Qed.

Lemma new_since_later (h h1 h2 : Heap) (v : Val) :
  (length h <= length h1)%nat -> new_since h1 h2 v -> new_since h h2 v.
Proof.
  intros Hl (j & ls & Hw & Hb). exists j, ls. split; [exact Hw|].
  eapply Forall_impl; [exact Hb|]. simpl. intros l Hl'. lia.
Qed.

(** C9 (as amended).  For an invoice object, [processInvoice] returns the
    result computed from the invoice it denotes, with a normalized invoice
    that is an object, in a heap where:
    - the input is not mutated: every object that existed before the call,
      the invoice and its parts among them, is as it was, and the input
      still denotes the same invoice;
    - the normalized invoice denotes the invoice of the result: it has the
      input's id, vendor, raw text and metadata, each extracted field holds
      the value proposed by the last proposed correction that names it, and
      the input's value when no correction names it;
    - the normalized invoice and its extracted data are new objects, and
      every part of it other than a corrected field is made of new objects
      only (a deep copy);
    - a corrected field holds the value of the last proposal that names
      it, itself ([proposals] are the proposed corrections, each with the
      field of the input its value was read from, if it was): when that
      value was read from a source field of the input, it is the input's
      own value, shared with the input, and a new object otherwise. *)
Theorem processInvoice_normalized (h : Heap) (invoice : Val) (inv : Invoice) (now : Z)
    (s : Store) :
  load_invoice h invoice = Some inv ->
  exists normalized h',
    processInvoice_h' h invoice now s
    = Some (fst (processInvoice' inv now s), normalized, h', snd (processInvoice' inv now s))
    /\ h `prefix_of` h'
    /\ load_invoice h' invoice = Some inv
    /\ load_invoice h' normalized = Some (normalizedInvoice (fst (processInvoice' inv now s)))
    /\ inv_id (normalizedInvoice (fst (processInvoice' inv now s))) = inv_id inv
    /\ inv_vendor (normalizedInvoice (fst (processInvoice' inv now s))) = inv_vendor inv
    /\ rawText (normalizedInvoice (fst (processInvoice' inv now s))) = rawText inv
    /\ metadata (normalizedInvoice (fst (processInvoice' inv now s))) = metadata inv
    /\ (forall f,
          extractedData (normalizedInvoice (fst (processInvoice' inv now s))) !! f =
          match last_for f (proposedCorrections (fst (processInvoice' inv now s))) with
          | Some c => Some (proposedValue c)
          | None => extractedData inv !! f
          end)
    /\ (proposals' inv (fst (processor_recallMemories sql_like inv now s))).*1
       = proposedCorrections (fst (processInvoice' inv now s))
    /\ (exists n le, normalized = VRef n /\ (length h <= n)%nat
                     /\ get_prop h' normalized "extractedData" = Some (VRef le)
                     /\ (length h <= le)%nat)
    /\ (forall k v, get_prop h' normalized k = Some v -> k <> "extractedData"%string ->
                    new_since h h' v)
    /\ (forall f v, get_field h' normalized f = Some v ->
          match last_proposal f
                  (proposals' inv (fst (processor_recallMemories sql_like inv now s))) with
          | Some (_, Some sf) => get_field h invoice sf = Some v
          | _ => new_since h h' v
          end).
Proof.
  intros Hload.
  set (ms := fst (processor_recallMemories sql_like inv now s)).
  set (ps := proposals' inv ms).
  destruct (proposed_values_spec h invoice ps) with (cs0 := @nil HCorrection) (h0 := h)
    as (cs & h1 & Hfold & Hp1 & Hal).
  { intros c sf Hin. apply (source_value h invoice inv); [exact Hload|].
    exact (proposals_source inv ms c sf Hin). }
  { reflexivity. }
  pose proof Hload as Hload'. unfold load_invoice in Hload'.
  destruct (walk (length h) h invoice) as [[j ls0]|] eqn:Hw; [|discriminate].
  cbn in Hload'. destruct (invoice_of_json_inv _ _ Hload') as (psj & eps & -> & Hed & _).
  assert (Hw1 : walk (length h1) h1 invoice = Some (JObj psj, ls0)).
  { apply (walk_prefix_of _ h); [exact Hp1|].
    apply (walk_fuel _ _ _ _ Hw). apply prefix_length. exact Hp1. }
  assert (Hcs : Forall (fun c => exists ls, walk (length h1) h1 (hc_proposedValue c)
                                            = Some (proposedValue (hc_correction c), ls)) cs).
  { apply (Forall2_right _ ps). eapply Forall2_impl; [exact Hal|]. simpl.
    intros p c (Hc & ls & Hwc & _). exists ls. rewrite Hc. exact Hwc. }
  destruct (applyCorrections_h_spec h1 invoice psj eps ls0 cs Hw1 Hed Hcs)
    as (n & le & h2 & ls & Happly & Hp2 & Hle & Hn & Hged & Hwn & Hparts & Hfields).
  assert (Hcorr : List.map hc_correction cs
                  = proposedCorrections (fst (processInvoice' inv now s))).
  { rewrite processInvoice_stages. cbn [proposedCorrections].
    rewrite applyMemories_corrections. fold ms.
    rewrite <- (proposals_corrections inv ms). fold ps.
    apply (Forall2_corrections _ _ _ Hal). }
  assert (Hnorm : normalizedInvoice (fst (processInvoice' inv now s))
                  = applyCorrections inv (List.map hc_correction cs)).
  { rewrite Hcorr. rewrite processInvoice_stages. reflexivity. }
  destruct (normalizedInvoice_value sql_like regex_exec regex_compiles String_of
              JSON_stringify inv now s) as (H1 & H2 & H3 & H4 & H5).
  exists (VRef n), h2.
  split.
  { unfold processInvoice_h. rewrite Hload. cbn [mbind option_bind].
    destruct (processInvoice' inv now s) as [result s'].
    fold ms. fold ps. rewrite Hfold. cbn [mbind option_bind app].
    rewrite Happly. reflexivity. }
  split; [etransitivity; eassumption|].
  split; [apply (load_invoice_prefix h); [etransitivity; eassumption|exact Hload]|].
  split.
  { unfold load_invoice. rewrite Hwn. cbn [mbind option_bind fst].
    rewrite (fold_left_hc (fun c e => set_prop (c_field c) (proposedValue c) e)).
    rewrite Hnorm. apply invoice_of_json_corrected; assumption. }
  split; [exact H1|]. split; [exact H2|]. split; [exact H3|]. split; [exact H4|].
  split; [exact H5|].
  split; [fold ms; fold ps; rewrite <- Hcorr; symmetry; exact (Forall2_corrections _ _ _ Hal)|].
  pose proof (prefix_length _ _ Hp1) as Hl1.
  split; [exists n, le; repeat split; try lia; exact Hged|].
  split.
  - intros k v Hk Hne. apply (new_since_later h h1); [exact Hl1|]. exact (Hparts k v Hk Hne).
  - intros f v Hf. unfold get_field in Hf. rewrite Hged in Hf. cbn [mbind option_bind] in Hf.
    specialize (Hfields f v Hf).
    pose proof (find_Forall2
                  (fun (p : Correction * option string) (c : HCorrection) =>
                     exists ls0,
                       walk (length h1) h1 (hc_proposedValue c) = Some (proposedValue p.1, ls0)
                       /\ match p.2 with
                          | Some sf => get_field h invoice sf = Some (hc_proposedValue c)
                          | None => Forall (fun l => (length h <= l)%nat) ls0
                          end)
                  (fun p => String.eqb (c_field p.1) f)
                  (fun c => String.eqb (c_field (hc_correction c)) f)
                  (rev ps) (rev cs)) as Hfind.
    unfold last_proposal. fold ms. fold ps.
    assert (Hrev : Forall2
              (fun (p : Correction * option string) (c : HCorrection) =>
                 String.eqb (c_field p.1) f = String.eqb (c_field (hc_correction c)) f
                 /\ exists ls0,
                      walk (length h1) h1 (hc_proposedValue c) = Some (proposedValue p.1, ls0)
                      /\ match p.2 with
                         | Some sf => get_field h invoice sf = Some (hc_proposedValue c)
                         | None => Forall (fun l => (length h <= l)%nat) ls0
                         end) (rev ps) (rev cs)).
    { apply Forall2_rev. eapply Forall2_impl; [exact Hal|]. simpl.
      intros p c (Hc & Hrest). rewrite Hc. split; [reflexivity|exact Hrest]. }
    specialize (Hfind Hrev).
    destruct (List.find (fun p => String.eqb (c_field p.1) f) (rev ps)) as [[c src]|];
      destruct (List.find (fun c => String.eqb (c_field (hc_correction c)) f) (rev cs))
        as [hc|]; try contradiction.
    + subst v. destruct Hfind as (lc & Hwc & Hsrc). cbn [fst snd] in Hwc, Hsrc.
      destruct src as [sf|]; [exact Hsrc|].
      exists (proposedValue c), lc. split; [|exact Hsrc].
      apply (walk_prefix_of _ h1); [exact Hp2|].
      apply (walk_fuel _ _ _ _ Hwc). apply prefix_length. exact Hp2.
    + apply (new_since_later h h1); [exact Hl1|exact Hfields].
Qed.

End ObjectFacts.

(** ** The normalized invoice on a concrete heap *)

Lemma processInvoice_normalized_witness :
  load_invoice invoice_positions_heap invoice_positions = Some invoice_positions_value
  /\ exists result normalized h' s',
       processInvoice_h stub_like stub_exec stub_compiles stub_String stub_stringify
         invoice_positions_heap invoice_positions 0 [mem_positions]
       = Some (result, normalized, h', s')
       /\ invoice_positions_heap `prefix_of` h'.
Proof.
  assert (E : load_invoice invoice_positions_heap invoice_positions
              = Some invoice_positions_value) by (vm_compute; reflexivity).
  split; [exact E|].
  destruct (processInvoice_normalized stub_like stub_exec stub_compiles stub_String
              stub_stringify invoice_positions_heap invoice_positions invoice_positions_value
              0 [mem_positions] E)
    as (normalized & h' & Hrun & Hprefix & _).
  eexists _, normalized, h', _. split; [exact Hrun|exact Hprefix].
Defined.

(** The line items of the normalized invoice are the array of positions of
    the input itself, an object that existed before the call (the heap of
    the input has five objects), while its own positions are a new array:
    the normalized invoice is not a deep copy of the input in the corrected
    field. *)
Example normalized_invoice_shares_source_value :
  match processInvoice_h stub_like stub_exec stub_compiles stub_String stub_stringify
          invoice_positions_heap invoice_positions 0 [mem_positions] with
  | Some (_, normalized, h', _) =>
      get_field invoice_positions_heap invoice_positions "positions" = Some (VRef 1)
      /\ get_field h' normalized "lineItems" = Some (VRef 1)
      /\ get_field h' normalized "positions" = Some (VRef 6)
      /\ length invoice_positions_heap = 5%nat
  | None => False
  end.
Proof. vm_compute. repeat split. Qed.
